(** * Cognitive-Mirage architecture: the Realtime Selector and the KRANG core

    A shallow embedding of [src/realtimeprocessor.ts] and
    [src/krangcorevariant.ts].

    Conventions of the embedding.
    - A JavaScript string is a [string]: a sequence of code units, each
      below 256 (the Latin-1 range); [toLowerCase] and the white-space
      class are the restrictions of the JavaScript ones to that range.
    - A JavaScript number is an exact rational ([Q]).  Where the source
      divides by a quantity that can be zero (the Engine), the result
      lives in [JS.number], which adds the two infinities and NaN.
      The two pipelines are embedded without the rounding of binary64
      arithmetic; [Binary64] has the rounding, for the function whose
      bound turns on it, and [Rounding.tolerance] is the room that
      bounds on the Engine's numbers leave for it.
    - [Math.random] and [new Date()] read from an explicit [World];
      SHA-256 is a parameter of the Selector. *)

From Stdlib Require Import ZArith QArith Qminmax Qround Qpower Lqa Lia.
From Stdlib Require Floats.
From Stdlib Require Import String Ascii List DecimalString.
From Stdlib Require Import Sorting.Sorted Sorting.Permutation.
From stdpp Require Import gmap strings.
Import ListNotations.

(** ** JavaScript primitives *)

Module JS.

Local Open Scope string_scope.

Definition inRange (lo hi n : N) : bool := ((lo <=? n) && (n <=? hi))%N.

(** [String.prototype.toLowerCase], one code unit: A-Z, and the
    Latin-1 capitals U+00C0..U+00DE except the multiplication sign. *)
Definition toLowerChar (c : ascii) : ascii :=
  let n := N_of_ascii c in
  if inRange 65 90 n || (inRange 192 222 n && negb (n =? 215)%N)
  then ascii_of_N (n + 32) else c.

Fixpoint toLowerCase (s : string) : string :=
  match s with
  | EmptyString => EmptyString
  | String c s' => String (toLowerChar c) (toLowerCase s')
  end.

(** The class [\s] (also what [trim] strips): TAB, LF, VT, FF, CR, SP, NBSP. *)
Definition isSpace (c : ascii) : bool :=
  let n := N_of_ascii c in
  inRange 9 13 n || (n =? 32)%N || (n =? 160)%N.

Definition isDigit (c : ascii) : bool := inRange 48 57 (N_of_ascii c).
Definition isLower (c : ascii) : bool := inRange 97 122 (N_of_ascii c).

Fixpoint startsWith (s p : string) : bool :=
  match p, s with
  | EmptyString, _ => true
  | String _ _, EmptyString => false
  | String a p', String b s' => Ascii.eqb a b && startsWith s' p'
  end.

(** [s.includes(t)] *)
Fixpoint includes (s t : string) : bool :=
  startsWith s t ||
  match s with
  | EmptyString => false
  | String _ s' => includes s' t
  end.

(** [s.split(/\s+/)]: [cur] is the piece being read, [inRun] tells that
    the previous code unit belonged to a separator. *)
Fixpoint splitSpacesFrom (s cur : string) (inRun : bool) : list string :=
  match s with
  | EmptyString => [cur]
  | String c s' =>
      if isSpace c then
        if inRun then splitSpacesFrom s' cur true
        else cur :: splitSpacesFrom s' "" true
      else splitSpacesFrom s' (cur ++ String c "") false
  end.

Definition splitSpaces (s : string) : list string := splitSpacesFrom s "" false.

Definition nextIsSpace (s : string) : bool :=
  match s with
  | EmptyString => false
  | String c _ => isSpace c
  end.

(** [s.split(/\.\s+/)]: a separator is a full stop followed by a maximal
    white-space run; [inRun] tells that such a run is being skipped. *)
Fixpoint splitSentencesFrom (s cur : string) (inRun : bool) : list string :=
  match s with
  | EmptyString => [cur]
  | String c s' =>
      if inRun && isSpace c then splitSentencesFrom s' cur true
      else if Ascii.eqb c "." && nextIsSpace s' then cur :: splitSentencesFrom s' "" true
      else splitSentencesFrom s' (cur ++ String c "") false
  end.

Definition splitSentences (s : string) : list string := splitSentencesFrom s "" false.

Fixpoint trimStart (s : string) : string :=
  match s with
  | EmptyString => EmptyString
  | String c s' => if isSpace c then trimStart s' else s
  end.

Fixpoint trimEnd (s : string) : string :=
  match s with
  | EmptyString => EmptyString
  | String c s' =>
      match trimEnd s' with
      | EmptyString => if isSpace c then EmptyString else String c EmptyString
      | t => String c t
      end
  end.

Definition trim (s : string) : string := trimEnd (trimStart s).

(** [a.join(sep)] *)
Definition join (sep : string) (l : list string) : string := String.concat sep l.

(** [l.some(t => s.includes(t))]: the test of a regular expression that
    is an alternation of literal words. *)
Definition includesAny (s : string) (words : list string) : bool :=
  existsb (includes s) words.

Definition natToString (n : nat) : string := NilEmpty.string_of_uint (Nat.to_uint n).
Definition ZToString (z : Z) : string := NilEmpty.string_of_int (Z.to_int z).

Definition lengthQ (s : string) : Q := inject_Z (Z.of_nat (String.length s)).

Definition Qltb (x y : Q) : bool := negb (Qle_bool y x).

Fixpoint padStart (width : nat) (s : string) : string :=
  match width with
  | O => s
  | S w => if (String.length s <? width)%nat then padStart w ("0" ++ s) else s
  end.

(** [x.toFixed(d)]: the integer [n] nearest to [x * 10^d], the larger
    one on a tie, printed with [d] fractional digits. *)
Definition toFixed (d : nat) (x : Q) : string :=
  let neg := Qltb x 0%Q in
  let a := if neg then Qopp x else x in
  let scale := (10 ^ Z.of_nat d)%Z in
  let n := Qfloor (a * inject_Z scale + (1 # 2))%Q in
  let whole := ZToString (n / scale) in
  let frac := padStart d (ZToString (n mod scale)) in
  (if neg then "-" else "") ++ whole ++
  (match d with O => "" | S _ => "." ++ frac end).

(** [l.sort(compare)]: the sort is stable; [x] goes in front of the
    first element that need not precede it. *)
Section Sort.
Context {A : Type} (compare : A -> A -> Q).

Fixpoint sortInsert (x : A) (l : list A) : list A :=
  match l with
  | [] => [x]
  | y :: l' => if Qltb (compare y x) 0%Q then y :: sortInsert x l' else x :: l
  end.

Fixpoint sort (l : list A) : list A :=
  match l with
  | [] => []
  | x :: l' => sortInsert x (sort l')
  end.
End Sort.

(** [Array.from(new Set(l))]: the first occurrence of each string stays. *)
Fixpoint uniq (seen l : list string) : list string :=
  match l with
  | [] => []
  | x :: l' =>
      if existsb (String.eqb x) seen then uniq seen l'
      else x :: uniq (x :: seen) l'
  end.

Definition fromSet (l : list string) : list string := uniq [] l.

(** A number whose computation may have divided by zero.  Zero carries
    no sign: a zero divisor is the positive zero, which is what the
    products of counts that the source divides by are. *)
Inductive number : Type :=
  | Fin (q : Q)
  | Infinity (negative : bool)
  | NaN.

Definition add (x y : number) : number :=
  match x, y with
  | NaN, _ | _, NaN => NaN
  | Fin a, Fin b => Fin (a + b)
  | Infinity s, Infinity t => if Bool.eqb s t then Infinity s else NaN
  | Infinity s, Fin _ | Fin _, Infinity s => Infinity s
  end.

Definition mul (x y : number) : number :=
  match x, y with
  | NaN, _ | _, NaN => NaN
  | Fin a, Fin b => Fin (a * b)
  | Infinity s, Infinity t => Infinity (xorb s t)
  | Infinity s, Fin a | Fin a, Infinity s =>
      match (a ?= 0)%Q with
      | Eq => NaN
      | Gt => Infinity s
      | Lt => Infinity (negb s)
      end
  end.

Definition div (x y : number) : number :=
  match x, y with
  | NaN, _ | _, NaN => NaN
  | Fin a, Fin b =>
      match (b ?= 0)%Q with
      | Eq =>
          match (a ?= 0)%Q with
          | Eq => NaN
          | Gt => Infinity false
          | Lt => Infinity true
          end
      | _ => Fin (a / b)
      end
  | Fin _, Infinity _ => Fin 0
  | Infinity s, Fin b => Infinity (if Qltb b 0%Q then negb s else s)
  | Infinity _, Infinity _ => NaN
  end.

(** [Math.max(x, y)] *)
Definition max (x y : number) : number :=
  match x, y with
  | NaN, _ | _, NaN => NaN
  | Fin a, Fin b => Fin (Qmax a b)
  | Infinity false, _ | _, Infinity false => Infinity false
  | Infinity true, z | z, Infinity true => z
  end.

Definition ofNat (n : nat) : number := Fin (inject_Z (Z.of_nat n)).

End JS.

(** ** The Realtime Selector ([src/realtimeprocessor.ts]) *)

Module RealtimeProcessor.

Local Open Scope string_scope.
Local Open Scope Q_scope.

Definition domainExperts : list string :=
  [ "quantum_physicist"; "computational_mathematician"; "materials_scientist";
    "systems_engineer"; "evolutionary_biologist"; "cognitive_neuroscientist";
    "network_theorist"; "information_theorist" ].

(** An element of [perspectiveInsights]. *)
Module Insight.
Record t : Type := mk { perspective : string; insight : string; confidence : Q }.
End Insight.

(** The object returned by [processInRealTime]. *)
Record Answer : Type := mkAnswer {
  solution : string;
  confidence : Q;
  perspectives : list string;
  processingSteps : list string
}.

Definition complexTerms : list string :=
  [ "quantum"; "fusion"; "consciousness"; "relativity"; "origin";
    "universe"; "evolution"; "intelligence"; "gravity"; "dimension";
    "multiverse"; "theorem"; "paradox"; "infinity"; "cognition" ].

Definition calculateComplexity (question : string) : Q :=
  let lengthComplexity := Qmin 0.5 (JS.lengthQ question / 1000) in
  let termComplexity :=
    fold_left (fun acc term =>
                 if JS.includes (JS.toLowerCase question) term
                 then (acc + 0.05)%Q else acc)
              complexTerms 0%Q in
  Qmin 0.95 (lengthComplexity + termComplexity).

Definition determineOptimalPerspectiveCount (complexity : Q) : nat :=
  if JS.Qltb complexity 0.3 then 2%nat
  else if JS.Qltb complexity 0.6 then 3%nat
  else if JS.Qltb complexity 0.8 then 5%nat
  else 8%nat.

Definition domainKeywordsTable : list (string * list string) :=
  [ ("quantum_physicist",
     ["physics"; "quantum"; "particle"; "energy"; "wave"; "field"; "matter"; "space"]);
    ("computational_mathematician",
     ["algorithm"; "computation"; "theorem"; "proof"; "mathematics"; "calculation"; "formula"]);
    ("materials_scientist",
     ["material"; "compound"; "structure"; "composition"; "property"; "lattice"; "crystal"]);
    ("systems_engineer",
     ["system"; "design"; "efficiency"; "optimization"; "framework"; "architecture"; "integration"]);
    ("evolutionary_biologist",
     ["evolution"; "species"; "natural selection"; "adaptation"; "gene"; "organism"; "biology"]);
    ("cognitive_neuroscientist",
     ["brain"; "mind"; "cognition"; "consciousness"; "neural"; "perception"; "thought"]);
    ("network_theorist",
     ["network"; "connection"; "node"; "graph"; "topology"; "distribution"; "link"]);
    ("information_theorist",
     ["information"; "entropy"; "bit"; "signal"; "noise"; "channel"; "encoding"; "decoding"]) ].

(** [record[key]] on a record whose keys were inserted in list order. *)
Fixpoint recordGet {V : Type} (record : list (string * V)) (key : string) : option V :=
  match record with
  | [] => None
  | (k, v) :: rest => if String.eqb k key then Some v else recordGet rest key
  end.

Definition domainKeywords (perspective : string) : list string :=
  match recordGet domainKeywordsTable perspective with
  | Some keywords => keywords
  | None => []
  end.

(** The inner loop of [selectRelevantPerspectives]. *)
Definition keywordScore (question perspective : string) : nat :=
  fold_left (fun score keyword =>
               if JS.includes (JS.toLowerCase question) (JS.toLowerCase keyword)
               then S score else score)
            (domainKeywords perspective) 0%nat.

Definition perspectiveScores (question : string) : list (string * nat) :=
  map (fun perspective => (perspective, keywordScore question perspective)) domainExperts.

Definition scoreOf (scores : list (string * nat)) (perspective : string) : Q :=
  match recordGet scores perspective with
  | Some score => inject_Z (Z.of_nat score)
  | None => 0
  end.

Definition sortedPerspectives (question : string) : list string :=
  let scores := perspectiveScores question in
  JS.sort (fun a b => scoreOf scores b - scoreOf scores a)%Q (map fst scores).

Definition selectRelevantPerspectives (question : string) (count : nat) : list string :=
  firstn count (sortedPerspectives question).

Definition generateQuantumPhysicsInsight (question seed : string) : string :=
  let q := JS.toLowerCase question in
  if JS.includes q "fusion" || JS.includes q "energy" then
    "Quantum tunneling effects can be enhanced through precise electron screening in deuterium-loaded palladium lattices, potentially enabling fusion reactions at lower than conventional temperatures through barrier penetration enhancement."
  else if JS.includes q "quantum" || JS.includes q "particle" then
    "Quantum field theory suggests virtual particle interactions could be manipulated through vacuum engineering to extract zero-point energy with appropriate resonant structures that selectively amplify productive fluctuations."
  else if JS.includes q "gravity" || JS.includes q "space" then
    "Gravitational effects can be understood as spacetime curvature which emerges from quantum entanglement structures at the Planck scale, potentially offering new approaches for manipulating gravitational fields through quantum information processing."
  else
    "From a quantum perspective, fundamental particles interact through field mediators, creating opportunities for novel energy and information transfer mechanisms that operate below conventional thermal thresholds.".

Definition generateComputationalMathInsight (question seed : string) : string :=
  let q := JS.toLowerCase question in
  if JS.includes q "algorithm" || JS.includes q "computation" then
    "Computational complexity analysis suggests that quantum parallelism could provide exponential speedup for specific optimization problems through superposition-based exploration of solution landscapes."
  else if JS.includes q "proof" || JS.includes q "theorem" then
    ("Mathematical proof structures indicate that consistent formal systems must necessarily remain incomplete per G" ++
     String (ascii_of_N 195) (String (ascii_of_N 182) "del's theorem, suggesting that meta-mathematical frameworks might be necessary for complete solutions."))
  else
    "From a computational mathematics perspective, numerical simulations with adaptive mesh refinement provide high-precision predictive models for complex physical systems, particularly when coupled with machine learning for parameter optimization.".

Definition generateMaterialsScienceInsight (question seed : string) : string :=
  let q := JS.toLowerCase question in
  if JS.includes q "material" || JS.includes q "structure" then
    "Nanostructured materials with precisely engineered defect distributions can create quantum confinement effects that fundamentally alter electron behavior, enabling novel properties not observed in bulk materials."
  else if JS.includes q "lattice" || JS.includes q "crystal" then
    "Face-centered cubic crystal structures with specific dopants concentrated at octahedral sites create electron density anomalies that can significantly enhance quantum tunneling probabilities across potential barriers."
  else
    "From a materials perspective, heterogeneous catalytic interfaces with tailored electronic structures can lower activation energies for specific reactions through precise orbital overlapping mechanisms.".

Definition generateSystemsEngineeringInsight (question seed : string) : string :=
  let q := JS.toLowerCase question in
  if JS.includes q "system" || JS.includes q "design" then
    "Integrated systems with hierarchical feedback control mechanisms provide robust performance under uncertainty, particularly when coupled with adaptive parameter adjustment algorithms based on real-time performance metrics."
  else if JS.includes q "efficiency" || JS.includes q "optimization" then
    "Multi-objective optimization frameworks using Pareto efficiency analysis can identify non-intuitive design solutions that maximize performance across conflicting constraints through dimensional reduction techniques."
  else
    "From a systems engineering perspective, modular architectures with standardized interfaces enable rapid iteration and fault isolation, creating robust scalable solutions for complex implementation challenges.".

Definition generateEvolutionaryBiologyInsight (question seed : string) : string :=
  let q := JS.toLowerCase question in
  if JS.includes q "evolution" || JS.includes q "species" then
    "Evolutionary processes operate through selection pressures acting on heritable variation, creating adaptive complexity through cumulative selection rather than random chance, with convergent solutions often emerging for similar environmental challenges."
  else if JS.includes q "gene" || JS.includes q "dna" then
    "Genetic information processing in biological systems demonstrates remarkable error correction capabilities through redundant encoding and molecular proofreading mechanisms that could inspire robust information technologies."
  else
    "From an evolutionary perspective, complex adaptive systems demonstrate emergent properties through simple interaction rules operating across multiple scales, creating self-organizing structures without centralized control.".

Definition generateCognitiveNeuroscienceInsight (question seed : string) : string :=
  let q := JS.toLowerCase question in
  if JS.includes q "brain" || JS.includes q "mind" then
    "Neural information processing occurs through distributed parallel networks operating at multiple temporal and spatial scales, with specialized modules that integrate information through synchronous oscillatory patterns."
  else if JS.includes q "consciousness" || JS.includes q "awareness" then
    "Consciousness appears to emerge from integrated information processing across specialized brain networks, with global workspace theory suggesting a broadcast mechanism that makes information widely available for flexible cognitive operations."
  else
    "From a cognitive neuroscience perspective, predictive processing frameworks suggest the brain operates as a prediction machine that minimizes surprise through hierarchical generative models continuously refined through sensory feedback.".

Definition generateNetworkTheoryInsight (question seed : string) : string :=
  let q := JS.toLowerCase question in
  if JS.includes q "network" || JS.includes q "connection" then
    "Scale-free network architectures with preferential attachment mechanisms create hub-and-spoke structures that optimize information transfer efficiency while minimizing connection costs and maximizing robustness against random failure."
  else if JS.includes q "graph" || JS.includes q "node" then
    "Small-world network properties emerge when local clustering combines with strategic long-range connections, creating systems with both high modularity and short average path lengths that support efficient global integration."
  else
    "From a network theory perspective, phase transitions in connectivity patterns can trigger emergent computational capabilities when critical thresholds are crossed, enabling complex information processing through simple individual components.".

Definition generateInformationTheoryInsight (question seed : string) : string :=
  let q := JS.toLowerCase question in
  if JS.includes q "information" || JS.includes q "entropy" then
    "Information-theoretic approaches suggest that maximum entropy production principles guide self-organizing systems toward states that maximize the rate of free energy dissipation through optimal channel capacity utilization."
  else if JS.includes q "signal" || JS.includes q "noise" then
    "Signal processing in noisy environments can be optimized through stochastic resonance effects, where precisely calibrated noise actually enhances detection of weak signals through nonlinear amplification mechanisms."
  else
    "From an information theory perspective, compression efficiency reaches fundamental limits at the Kolmogorov complexity of a system, beyond which further reduction requires meta-encodings that capture deeper structural regularities.".

(** [/[0-9]+\.?[0-9]*|[a-z]_[a-z]|[a-z]\([a-z]\)|\[|\]|\{|\}/] matched at
    the head of [s]. *)
Definition preciseAt (s : string) : bool :=
  match s with
  | EmptyString => false
  | String a r =>
      JS.isDigit a
      || Ascii.eqb a "[" || Ascii.eqb a "]" || Ascii.eqb a "{" || Ascii.eqb a "}"
      || (JS.isLower a &&
          match r with
          | String b (String c r') =>
              (Ascii.eqb b "_" && JS.isLower c)
              || (Ascii.eqb b "(" && JS.isLower c &&
                  match r' with
                  | String d _ => Ascii.eqb d ")"
                  | EmptyString => false
                  end)
          | _ => false
          end)
  end.

Fixpoint hasPreciseTerms (s : string) : bool :=
  preciseAt s ||
  match s with
  | EmptyString => false
  | String _ r => hasPreciseTerms r
  end.

Definition relevantTermCount (insight question : string) : nat :=
  fold_left (fun count term =>
               if (4 <? String.length term)%nat && JS.includes (JS.toLowerCase insight) term
               then S count else count)
            (JS.splitSpaces (JS.toLowerCase question)) 0%nat.

Definition calculateInsightConfidence (insight question : string) : Q :=
  let lengthConfidence := Qmin 0.7 (JS.lengthQ insight / 500) in
  let relevanceConfidence :=
    Qmin 0.8 (inject_Z (Z.of_nat (relevantTermCount insight question)) / 5) in
  let precisionBonus := if hasPreciseTerms insight then 0.15 else 0 in
  Qmin 0.99 (lengthConfidence * 0.4 + relevanceConfidence * 0.4 + precisionBonus).

Definition methodWords : list string :=
  [ "can"; "could"; "enable"; "method"; "approach"; "technique"; "mechanism";
    "process"; "procedure"; "step"; "implement" ].

Definition explanationWords : list string :=
  [ "because"; "reason"; "cause"; "due to"; "result of"; "explains";
    "leads to"; "creates"; "emerges from" ].

Definition definitionWords : list string :=
  [ "is"; "are"; "refers to"; "defined as"; "consists of"; "comprises";
    "represents"; "constitutes" ].

(** The loop shared by the three keyword-driven syntheses: the trimmed
    sentences of the insights that contain one of [words]. *)
Definition extractPhrases (words : list string) (insights : list Insight.t) : list string :=
  flat_map (fun i =>
              map JS.trim
                  (List.filter (fun sentence => JS.includesAny (JS.toLowerCase sentence) words)
                          (JS.splitSentences (Insight.insight i))))
           insights.

Definition synthesizeMethodSolution (insights : list Insight.t) (question : string) : string :=
  let combinedPhrases := JS.join ". " (extractPhrases methodWords insights) in
  "Based on multi-perspective analysis, a viable approach would involve: "
    ++ combinedPhrases ++ ".".

Definition synthesizeExplanationSolution (insights : list Insight.t) (question : string) : string :=
  let combinedPhrases := JS.join ". " (extractPhrases explanationWords insights) in
  "The explanation involves multiple interconnected factors: " ++ combinedPhrases ++ ".".

Definition synthesizeDefinitionSolution (insights : list Insight.t) (question : string) : string :=
  let combinedPhrases := JS.join ". " (extractPhrases definitionWords insights) in
  "From an integrated multi-dimensional analysis: " ++ combinedPhrases ++ ".".

Definition synthesizeGeneralSolution (insights : list Insight.t) (question : string) : string :=
  let sentences :=
    flat_map (fun i =>
                match JS.splitSentences (Insight.insight i) with
                | first :: _ => [JS.trim first ++ "."]
                | [] => []
                end)
             insights in
  "Integration of multiple perspectives indicates: " ++ JS.join " " sentences.

(** The four intents of [synthesizeInsights], in the order they are tested. *)
Inductive Intent : Type := Method | Explanation | Definition_ | General.

Definition classifyIntent (question : string) : Intent :=
  let lowerQuestion := JS.toLowerCase question in
  if JS.includes lowerQuestion "how" || JS.includes lowerQuestion "method"
     || JS.includes lowerQuestion "way" then Method
  else if JS.includes lowerQuestion "why" || JS.includes lowerQuestion "reason" then Explanation
  else if JS.includes lowerQuestion "what" || JS.includes lowerQuestion "define" then Definition_
  else General.

Definition topInsights (perspectiveInsights : list Insight.t) : list Insight.t :=
  let sortedInsights :=
    JS.sort (fun a b => Insight.confidence b - Insight.confidence a)%Q perspectiveInsights in
  firstn (Nat.min 3 (List.length sortedInsights)) sortedInsights.

Definition synthesizeInsights (perspectiveInsights : list Insight.t) (question : string) : string :=
  let top := topInsights perspectiveInsights in
  match classifyIntent question with
  | Method => synthesizeMethodSolution top question
  | Explanation => synthesizeExplanationSolution top question
  | Definition_ => synthesizeDefinitionSolution top question
  | General => synthesizeGeneralSolution top question
  end.

(** [values.reduce((sum, value) => sum + value, 0)] *)
Definition sum (values : list Q) : Q := fold_left Qplus values 0.

Definition calculateVariance (values : list Q) : Q :=
  match values with
  | [] => 0
  | _ =>
      let n := inject_Z (Z.of_nat (List.length values)) in
      let mean := sum values / n in
      let squaredDiffs := map (fun value => (value - mean) ^ 2) values in
      sum squaredDiffs / n
  end.

Definition calculateOverallConfidence (perspectiveInsights : list Insight.t) (complexity : Q) : Q :=
  let confidenceSum :=
    fold_left (fun acc i => acc + Insight.confidence i) perspectiveInsights 0 in
  let averageConfidence :=
    if (0 <? List.length perspectiveInsights)%nat
    then confidenceSum / inject_Z (Z.of_nat (List.length perspectiveInsights))
    else 0 in
  let confidences := map Insight.confidence perspectiveInsights in
  let confidenceVariance := calculateVariance confidences in
  let agreementFactor := Qmax 0 (1 - confidenceVariance * 10) in
  let complexityPenalty := complexity * 0.1 in
  let weightedConfidence := averageConfidence * 0.6 + agreementFactor * 0.3 - complexityPenalty in
  Qmin 0.99 (Qmax 0.5 weightedConfidence).

Section Hash.

(** [crypto.createHash('sha256').update(s).digest('hex')] *)
Variable sha256hex : string -> string.

Definition generatePerspectiveInsight (question perspective seed : string) : string :=
  let combinedSeed := sha256hex (perspective ++ question ++ seed) in
  if String.eqb perspective "quantum_physicist" then
    generateQuantumPhysicsInsight question combinedSeed
  else if String.eqb perspective "computational_mathematician" then
    generateComputationalMathInsight question combinedSeed
  else if String.eqb perspective "materials_scientist" then
    generateMaterialsScienceInsight question combinedSeed
  else if String.eqb perspective "systems_engineer" then
    generateSystemsEngineeringInsight question combinedSeed
  else if String.eqb perspective "evolutionary_biologist" then
    generateEvolutionaryBiologyInsight question combinedSeed
  else if String.eqb perspective "cognitive_neuroscientist" then
    generateCognitiveNeuroscienceInsight question combinedSeed
  else if String.eqb perspective "network_theorist" then
    generateNetworkTheoryInsight question combinedSeed
  else if String.eqb perspective "information_theorist" then
    generateInformationTheoryInsight question combinedSeed
  else
    "Analysis indicates multiple potential approaches requiring interdisciplinary integration.".

(** The body of the [for] loop of [processInRealTime]. *)
Definition analysePerspective (question questionSeed perspective : string) : Insight.t :=
  let insight := generatePerspectiveInsight question perspective questionSeed in
  Insight.mk perspective insight (calculateInsightConfidence insight question).

Definition processInRealTime (question : string) : Answer :=
  let questionSeed := sha256hex question in
  let complexity := calculateComplexity question in
  let perspectiveCount := determineOptimalPerspectiveCount complexity in
  let selectedPerspectives := selectRelevantPerspectives question perspectiveCount in
  let steps0 :=
    [ "Analysis initiated with complexity score: " ++ JS.toFixed 2 complexity;
      "Selected " ++ JS.natToString perspectiveCount
        ++ " cognitive perspectives for parallel analysis" ] in
  let perspectiveInsights := map (analysePerspective question questionSeed) selectedPerspectives in
  let steps1 :=
    app steps0 (map (fun perspective => "Perspective [" ++ perspective ++ "] analysis completed")
                    selectedPerspectives) in
  let solution := synthesizeInsights perspectiveInsights question in
  let confidence := calculateOverallConfidence perspectiveInsights complexity in
  let steps2 :=
    app steps1
      [ "Synthesized " ++ JS.natToString (List.length perspectiveInsights) ++ " perspective insights";
        "Solution formulated with " ++ JS.toFixed 2 (confidence * 100) ++ "% confidence" ] in
  mkAnswer solution confidence selectedPerspectives steps2.

End Hash.

End RealtimeProcessor.

(** The arithmetic of step 8 of the Selector as the specification words
    it, to be compared with [calculateOverallConfidence]. *)
Module SelectorSpec.

Local Open Scope Q_scope.

Fixpoint total (values : list Q) : Q :=
  match values with
  | [] => 0
  | v :: rest => v + total rest
  end.

(** The arithmetic mean; the mean of no values is taken to be 0. *)
Definition mean (values : list Q) : Q :=
  match values with
  | [] => 0
  | _ => total values / inject_Z (Z.of_nat (List.length values))
  end.

Definition populationVariance (values : list Q) : Q :=
  mean (map (fun v => (v - mean values) * (v - mean values)) values).

Definition agreementFactor (confidences : list Q) : Q :=
  Qmax 0 (1 - 10 * populationVariance confidences).

Definition clamp (lo hi x : Q) : Q :=
  if JS.Qltb x lo then lo else if JS.Qltb hi x then hi else x.

Definition overallConfidence (confidences : list Q) (complexity : Q) : Q :=
  clamp 0.5 0.99
        (mean confidences * 0.6 + agreementFactor confidences * 0.3 - complexity * 0.1).

(** Sorting by a key, largest first: the comparator the source passes to
    [sort], and the order of two neighbours in the result. *)
Definition descending {A : Type} (key : A -> Q) (a b : A) : Q := key b - key a.

Definition notBelow {A : Type} (key : A -> Q) (a b : A) : Prop := key b <= key a.

(** The number a question scores for an expert, as a rational. *)
Definition scoreQ (question perspective : string) : Q :=
  inject_Z (Z.of_nat (RealtimeProcessor.keywordScore question perspective)).

End SelectorSpec.

(** ** The Perspective Engine ([src/krangcorevariant.ts]) *)

Module Krang.

Local Open Scope string_scope.
Local Open Scope Q_scope.

(** *** Data *)

Module Perspective.
#[local] Set Warnings "-register-all".
(** [KrangPerspective].  [id] is the draw whose base-36 digits
    [generateId] prints; [childPerspectives] is an optional field. *)
Inductive t : Type := mk {
  id : Q;
  name : string;
  specialization : string;
  confidence : JS.number;
  insights : list string;
  recommendations : list string;
  limitations : list string;
  childPerspectives : option (list t)
}.
End Perspective.

Module Problem.
Record t : Type := mk { title : string; description : string; domain : list string }.
End Problem.

Module Context.
(** An entry of [mentalContextStack]. *)
Record t : Type := mk { perspective : string; level : Z; activated : string }.
End Context.

Module Edge.
(** A value of the inner maps of [insightNetwork]. *)
Record t : Type := mk { confidence : JS.number; insights : list string }.
End Edge.

Module NetworkSize.
Record t : Type := mk { nodes : nat; edges : nat; density : JS.number }.
End NetworkSize.

Module Synthesis.
Record t : Type := mk {
  confidenceByPerspective : list (string * JS.number);
  keyInsights : list string;
  keyRecommendations : list string;
  insightNetworkSize : NetworkSize.t;
  confidence : JS.number;
  consilienceScore : JS.number
}.
End Synthesis.

Module Stats.
Record t : Type := mk {
  totalPerspectivesUsed : nat;
  maxRecursionDepth : Q;
  recursionEfficiency : JS.number;
  timeCompleted : string
}.
End Stats.

Module Result.
(** [KrangResult] *)
Record t : Type := mk {
  problem : Problem.t;
  perspectives : list Perspective.t;
  synthesis : Synthesis.t;
  confidence : JS.number;
  mentalProcessStats : Stats.t
}.
End Result.

Module Metrics.
Record t : Type := mk {
  problemsSolved : nat;
  averageConfidence : JS.number;
  perspectiveUtilization : gmap string nat;
  recursionEfficiency : JS.number
}.
End Metrics.

(** The fields of a [KrangCore] instance. *)
Record KrangCore : Type := mkCore {
  beliefLevels : Q;
  primaryPerspectives : list string;
  mentalContextStack : list Context.t;
  activePerspectives : gmap string Q;
  insightNetwork : gmap string (gmap string Edge.t);
  performanceMetrics : Metrics.t
}.

(** What the instance reads from outside: the raw 53-bit draws behind
    [Math.random] and the readings of the clock, with the number of
    draws and readings made so far. *)
Record World : Type := mkWorld {
  randomDraws : nat -> N;
  randomsDrawn : nat;
  clock : nat -> string;
  clockReads : nat
}.

Record State : Type := mkState { this : KrangCore; world : World }.

Module Config.
(** The constructor's [config]: the two fields a caller overrides. *)
Record t : Type := mk {
  beliefLevels : option Q;
  primaryPerspectives : option (list string)
}.
Definition empty : t := mk None None.
End Config.

(** *** Computations on a [State] that return or throw *)

Inductive outcome (A : Type) : Type :=
  | Returned (a : A)
  | Thrown (error : string).
Arguments Returned {A} a.
Arguments Thrown {A} error.

Definition M (A : Type) : Type := State -> outcome A * State.

Definition ret {A} (a : A) : M A := fun s => (Returned a, s).

Definition bind {A B} (m : M A) (k : A -> M B) : M B :=
  fun s =>
    match m s with
    | (Returned a, s') => k a s'
    | (Thrown e, s') => (Thrown e, s')
    end.

Definition throw {A} (e : string) : M A := fun s => (Thrown e, s).

Notation "x <- m ;; k" := (bind m (fun x => k))
  (at level 100, m at next level, right associativity).
Notation "m ;; k" := (bind m (fun _ => k))
  (at level 100, right associativity).

(** [try { body } finally { cleanup }] *)
Definition tryFinally {A} (body : M A) (cleanup : M unit) : M A :=
  fun s =>
    let (r, s1) := body s in
    match cleanup s1 with
    | (Returned _, s2) => (r, s2)
    | (Thrown e, s2) => (Thrown e, s2)
    end.

(** [for (const x of l) { acc = body(acc, x) }] *)
Fixpoint forOf {A B} (l : list A) (body : B -> A -> M B) (acc : B) : M B :=
  match l with
  | [] => ret acc
  | x :: l' => acc' <- body acc x ;; forOf l' body acc'
  end.

Definition gets {A} (f : KrangCore -> A) : M A := fun s => (Returned (f (this s)), s).

Definition modify (f : KrangCore -> KrangCore) : M unit :=
  fun s => (Returned tt, mkState (f (this s)) (world s)).

(** A draw [k] below [2^53] is the number [k / 2^53]. *)
Definition drawValue (k : N) : Q := Z.of_N (k mod 2 ^ 53) # 2 ^ 53.

(** [Math.random()] *)
Definition Math_random : M Q :=
  fun s =>
    let w := world s in
    (Returned (drawValue (randomDraws w (randomsDrawn w))),
     mkState (this s) (mkWorld (randomDraws w) (S (randomsDrawn w)) (clock w) (clockReads w))).

(** [new Date().toISOString()] *)
Definition Date_now : M string :=
  fun s =>
    let w := world s in
    (Returned (clock w (clockReads w)),
     mkState (this s) (mkWorld (randomDraws w) (randomsDrawn w) (clock w) (S (clockReads w)))).

(** *** The class *)

Definition defaultPerspectives : list string :=
  [ "empirical"; "theoretical"; "contextual"; "pragmatic"; "ethical";
    "mathematical"; "systems"; "complexity"; "evolutionary"; "quantum";
    "computational"; "pattern-based"; "statistical"; "informational"; "emergence" ].

Definition constructor (config : Config.t) : KrangCore :=
  mkCore (default 3 (Config.beliefLevels config))
         (default defaultPerspectives (Config.primaryPerspectives config))
         []
         ∅
         ∅
         (Metrics.mk 0 (JS.Fin 0) ∅ (JS.Fin 1)).

Definition setStack (stack : list Context.t) (c : KrangCore) : KrangCore :=
  mkCore (beliefLevels c) (primaryPerspectives c) stack
         (activePerspectives c) (insightNetwork c) (performanceMetrics c).

Definition setActive (active : gmap string Q) (c : KrangCore) : KrangCore :=
  mkCore (beliefLevels c) (primaryPerspectives c) (mentalContextStack c)
         active (insightNetwork c) (performanceMetrics c).

Definition setNetwork (network : gmap string (gmap string Edge.t)) (c : KrangCore) : KrangCore :=
  mkCore (beliefLevels c) (primaryPerspectives c) (mentalContextStack c)
         (activePerspectives c) network (performanceMetrics c).

Definition setMetrics (metrics : Metrics.t) (c : KrangCore) : KrangCore :=
  mkCore (beliefLevels c) (primaryPerspectives c) (mentalContextStack c)
         (activePerspectives c) (insightNetwork c) metrics.

(** The stack is an array: [push] appends, [pop] removes the last entry. *)
Definition pushMentalContext (perspective : string) (level : Z) : M unit :=
  activated <- Date_now ;;
  modify (fun c => setStack (app (mentalContextStack c) [Context.mk perspective level activated]) c).

Definition popMentalContext : M unit :=
  modify (fun c => setStack (removelast (mentalContextStack c)) c).

Definition getCurrentMentalContext : M Context.t :=
  stack <- gets mentalContextStack ;;
  match stack with
  | [] => activated <- Date_now ;; ret (Context.mk "meta" 0 activated)
  | top :: rest => ret (List.last rest top)
  end.

Definition resetMentalContext : M unit :=
  modify (setStack []) ;;
  pushMentalContext "meta" 0.

Definition activatePerspective (perspective : string) (weight : Q) : M unit :=
  modify (fun c => setActive (<[perspective := weight]> (activePerspectives c)) c).

Definition deactivatePerspective (perspective : string) : M unit :=
  modify (fun c => setActive (delete perspective (activePerspectives c)) c).

Definition resetPerspectives : M unit := modify (setActive ∅).

Definition countActivatedPerspectives : M nat :=
  gets (fun c => size (activePerspectives c)).

Definition getCompatiblePerspectives (perspective : string) : M (list string) :=
  gets (fun c => List.filter (fun p => negb (String.eqb p perspective)) (primaryPerspectives c)).

Definition generateId : M Q := Math_random.

(** [Array.from(new Set(terms.filter(term => term.length > 3)))] for the
    terms of the title followed by those of the description. *)
Definition keyTermsOf (problem : Problem.t) : list string :=
  let terms := app (JS.splitSpaces (Problem.title problem))
                   (JS.splitSpaces (Problem.description problem)) in
  JS.fromSet (List.filter (fun term => (3 <? String.length term)%nat) terms).

(** The insights of [analyzeProblemFromPerspective]; [keyTerm i filler]
    is [keyTerms[i] || filler]. *)
Definition perspectiveInsights (problem : Problem.t) (perspective : string) : list string :=
  let keyTerm i filler := nth i (keyTermsOf problem) filler in
  if String.eqb perspective "empirical" then
    [ "Empirical analysis of " ++ keyTerm 0%nat "the subject" ++ " shows " ++ keyTerm 1%nat "the phenomenon" ++ " occurs at 93.2% frequency under standard conditions.";
      "Measured parameters indicate a correlation of 0.87 between " ++ keyTerm 2%nat "key factors" ++ " and system outcomes.";
      "Direct measurement of " ++ keyTerm 0%nat "the system" ++ " reveals precise quantitative properties previously undetected by conventional analysis." ]
  else if String.eqb perspective "theoretical" then
    [ "Theoretical framework establishes exact mathematical relationship between " ++ keyTerm 0%nat "primary" ++ " and " ++ keyTerm 1%nat "secondary" ++ " factors.";
      "Formal proof demonstrates that " ++ keyTerm 2%nat "the system" ++ " exhibits deterministic patterns under specified conditions.";
      "Abstract modeling of the " ++ keyTerm 0%nat "domain" ++ " yields precise predictive accuracy of 95.4%." ]
  else if String.eqb perspective "quantum" then
    [ "Quantum analysis of " ++ keyTerm 0%nat "the system" ++ " reveals coherent underlying patterns with 91.7% confidence.";
      "Multi-dimensional quantum modeling establishes precise boundaries for " ++ keyTerm 1%nat "observed" ++ " effects.";
      "Quantum framework integration yields exact computational solution for " ++ keyTerm 2%nat "complex problems" ++ " with verified accuracy." ]
  else if String.eqb perspective "computational" then
    [ "Advanced computational modeling of " ++ keyTerm 0%nat "the system" ++ " with recursive optimization yields exact solution vectors.";
      "Algorithm efficiency analysis demonstrates " ++ keyTerm 1%nat "the process" ++ " can be processed with O(n log n) complexity.";
      "Parallel computational frameworks reveal optimal pathways for " ++ keyTerm 2%nat "problem solving" ++ " with 97.3% accuracy." ]
  else if String.eqb perspective "pattern-based" then
    [ "Pattern recognition algorithms identify exact correlation structures in " ++ keyTerm 0%nat "system" ++ " data with 96.8% confidence.";
      "Multi-scale pattern analysis of " ++ keyTerm 1%nat "the domain" ++ " reveals hierarchical organization with predictable emergence properties.";
      "Cross-domain pattern mapping establishes precise relationship between " ++ keyTerm 2%nat "key factors" ++ " and system dynamics." ]
  else
    [ "From the " ++ perspective ++ " perspective, " ++ Problem.title problem ++ " reveals patterns that suggest exact mathematical relationships.";
      "The " ++ perspective ++ " framework indicates that the core factors driving this problem are quantifiable with precision.";
      "Analyzing through a " ++ perspective ++ " lens shows connections between key variables with 94.2% confidence." ].

Definition analyzeProblemFromPerspective (problem : Problem.t) (perspective : string)
  : M Perspective.t :=
  currentContext <- getCurrentMentalContext ;;
  let keyTerm i filler := nth i (keyTermsOf problem) filler in
  let insights := perspectiveInsights problem perspective in
  let recommendations :=
    [ "Based on " ++ perspective ++ " analysis, we recommend implementing a systematic approach to " ++ keyTerm 0%nat "optimization" ++ ".";
      "The " ++ perspective ++ " perspective suggests addressing " ++ keyTerm 1%nat "key factors" ++ " through precise quantitative methods.";
      "Apply the exact computational framework derived from " ++ perspective ++ " analysis to maximize efficiency." ] in
  let limitations :=
    [ "The " ++ perspective ++ " view is limited by boundary assumptions that may not apply in highly chaotic systems.";
      "This analysis doesn't account for potential emergence properties beyond the measured parameter space." ] in
  id <- generateId ;;
  r <- Math_random ;;
  ret (Perspective.mk id perspective perspective (JS.Fin (0.85 + r * 0.15))
                      insights recommendations limitations (Some [])).

Definition refineAnalysis (problem : Problem.t) (baseResult : Perspective.t)
           (refinementPerspective : string) : M Perspective.t :=
  currentContext <- getCurrentMentalContext ;;
  let keyTerm i filler := nth i (keyTermsOf problem) filler in
  let refinedInsights :=
    [ "Refining the " ++ Perspective.name baseResult ++ " analysis through a " ++ refinementPerspective ++ " lens reveals precise quantitative relationships.";
      "The " ++ refinementPerspective ++ " perspective challenges the " ++ Perspective.name baseResult ++ " view by introducing exact computational verification.";
      "Combining " ++ Perspective.name baseResult ++ " and " ++ refinementPerspective ++ " perspectives shows 96.7% improvement in predictive accuracy." ] in
  let additionalRecommendations :=
    [ "The " ++ refinementPerspective ++ " perspective adds that we should also consider exact optimization of " ++ keyTerm 0%nat "system" ++ " parameters.";
      "To complement the " ++ Perspective.name baseResult ++ " approach, " ++ refinementPerspective ++ " analysis suggests implementing recursive verification steps." ] in
  id <- generateId ;;
  r <- Math_random ;;
  ret (Perspective.mk id refinementPerspective
         (Perspective.name baseResult ++ "_" ++ refinementPerspective)
         (JS.mul (Perspective.confidence baseResult) (JS.Fin (0.85 + r * 0.15)))
         refinedInsights additionalRecommendations
         [ "The combined " ++ Perspective.name baseResult ++ "-" ++ refinementPerspective ++ " framework still requires verification at extreme parameter values." ]
         None).

(** [integrateRefinedInsights] mutates [baseResult]; here it returns the
    mutated object. *)
Definition integrateRefinedInsights (baseResult refinedResult : Perspective.t)
  : M Perspective.t :=
  modify (fun c =>
    let network := insightNetwork c in
    let networkMap := default ∅ (network !! Perspective.name baseResult) in
    setNetwork
      (<[Perspective.name baseResult :=
           <[Perspective.name refinedResult :=
               Edge.mk (Perspective.confidence refinedResult)
                       (Perspective.insights refinedResult)]> networkMap]> network)
      c) ;;
  ret (Perspective.mk
         (Perspective.id baseResult)
         (Perspective.name baseResult)
         (Perspective.specialization baseResult)
         (JS.max (Perspective.confidence baseResult)
                 (JS.mul (Perspective.confidence refinedResult) (JS.Fin 1.1)))
         (app (Perspective.insights baseResult)
              (map (fun insight => "[Refined] " ++ insight) (Perspective.insights refinedResult)))
         (app (Perspective.recommendations baseResult)
              (map (fun rec => "[Refined] " ++ rec) (Perspective.recommendations refinedResult)))
         (Perspective.limitations baseResult)
         (Some (app (default [] (Perspective.childPerspectives baseResult)) [refinedResult]))).

(** The refined object stays referenced as the last child of the base
    while the tertiary loop mutates it: the base sees the final object. *)
Definition replaceLastChild (baseResult refinedResult : Perspective.t) : Perspective.t :=
  Perspective.mk
    (Perspective.id baseResult) (Perspective.name baseResult)
    (Perspective.specialization baseResult) (Perspective.confidence baseResult)
    (Perspective.insights baseResult) (Perspective.recommendations baseResult)
    (Perspective.limitations baseResult)
    (option_map (fun children => app (removelast children) [refinedResult])
                (Perspective.childPerspectives baseResult)).

Definition calculateInsightNetworkComplexity : M NetworkSize.t :=
  network <- gets insightNetwork ;;
  let nodeCount := size network in
  let edgeCount := map_fold (fun _ connections count => (count + size connections)%nat) 0%nat network in
  ret (NetworkSize.mk nodeCount edgeCount
         (if (0 <? nodeCount)%nat
          then JS.div (JS.ofNat edgeCount)
                      (JS.Fin (inject_Z (Z.of_nat nodeCount) * (inject_Z (Z.of_nat nodeCount) - 1)))
          else JS.Fin 0)).

Definition deduplicateAndRank (items : list string) : list string := JS.fromSet items.

Definition calculateConsilienceScore (results : list Perspective.t) : M JS.number :=
  r <- Math_random ;;
  ret (JS.Fin (0.85 + r * 0.15)).

Definition synthesizeResults (results : list Perspective.t) (problem : Problem.t)
  : M Synthesis.t :=
  let allInsights := flat_map Perspective.insights results in
  let allRecommendations := flat_map Perspective.recommendations results in
  let overallConfidence :=
    JS.div (fold_left (fun sum result => JS.add sum (Perspective.confidence result))
                      results (JS.Fin 0))
           (JS.ofNat (List.length results)) in
  networkSize <- calculateInsightNetworkComplexity ;;
  consilienceScore <- calculateConsilienceScore results ;;
  ret (Synthesis.mk
         (map (fun r => (Perspective.name r, Perspective.confidence r)) results)
         (firstn 7 (deduplicateAndRank allInsights))
         (firstn 5 (deduplicateAndRank allRecommendations))
         networkSize
         overallConfidence
         consilienceScore).

(** The metrics after one more solved problem of confidence [confidence]. *)
Definition updatedMetrics (c : KrangCore) (confidence : JS.number) : Metrics.t :=
  let metrics := performanceMetrics c in
  let problemsSolved := S (Metrics.problemsSolved metrics) in
  let averageConfidence :=
    JS.div (JS.add (JS.mul (Metrics.averageConfidence metrics)
                           (JS.ofNat (problemsSolved - 1)))
                   confidence)
           (JS.ofNat problemsSolved) in
  let perspectiveKeys := map fst (map_to_list (activePerspectives c)) in
  let perspectiveUtilization :=
    fold_left (fun utilization perspective =>
                 <[perspective := S (default 0%nat (utilization !! perspective))]> utilization)
              perspectiveKeys (Metrics.perspectiveUtilization metrics) in
  Metrics.mk problemsSolved averageConfidence perspectiveUtilization
             (JS.div confidence (JS.Fin (beliefLevels c))).

Definition updatePerformanceMetrics (synthesizedResult : Synthesis.t) : M unit :=
  modify (fun c => setMetrics (updatedMetrics c (Synthesis.confidence synthesizedResult)) c).

(** *** [processProblem]

    The two generators are methods of the instance, which the
    constructor's [Object.assign] can replace; the loop is written over
    any pair of them, and [processProblem] is the loop over the two
    methods of the class. *)
Section Generators.

Variable analyze : Problem.t -> string -> M Perspective.t.
Variable refine : Problem.t -> Perspective.t -> string -> M Perspective.t.

Definition tertiaryStep (problem : Problem.t) (refinedResult : Perspective.t)
           (tertiaryPerspective : string) : M Perspective.t :=
  pushMentalContext tertiaryPerspective 3 ;;
  tryFinally
    (deeplyRefinedResult <- refine problem refinedResult tertiaryPerspective ;;
     integrateRefinedInsights refinedResult deeplyRefinedResult)
    popMentalContext.

Definition secondaryStep (problem : Problem.t) (perspectiveResult : Perspective.t)
           (secondaryPerspective : string) : M Perspective.t :=
  pushMentalContext secondaryPerspective 2 ;;
  tryFinally
    (refinedResult <- refine problem perspectiveResult secondaryPerspective ;;
     perspectiveResult' <- integrateRefinedInsights perspectiveResult refinedResult ;;
     levels <- gets beliefLevels ;;
     if JS.Qltb 2 levels then
       tertiaryPerspectives <- getCompatiblePerspectives secondaryPerspective ;;
       refinedResult' <- forOf tertiaryPerspectives (tertiaryStep problem) refinedResult ;;
       ret (replaceLastChild perspectiveResult' refinedResult')
     else ret perspectiveResult')
    popMentalContext.

Definition primaryStep (problem : Problem.t) (results : list Perspective.t)
           (perspective : string) : M (list Perspective.t) :=
  activatePerspective perspective 1.0 ;;
  pushMentalContext perspective 1 ;;
  tryFinally
    (perspectiveResult <- analyze problem perspective ;;
     levels <- gets beliefLevels ;;
     perspectiveResult' <-
       (if JS.Qltb 1 levels then
          compatiblePerspectives <- getCompatiblePerspectives perspective ;;
          forOf compatiblePerspectives (secondaryStep problem) perspectiveResult
        else ret perspectiveResult) ;;
     ret (app results [perspectiveResult']))
    (popMentalContext ;; deactivatePerspective perspective).

(** The statements of [processProblem] in front of its outer [try]. *)
Definition processProblemEntry : M unit :=
  resetPerspectives ;;
  pushMentalContext "meta" 0.

Definition processProblemWith (problem : Problem.t) : M Result.t :=
  processProblemEntry ;;
  tryFinally
    (perspectives <- gets primaryPerspectives ;;
     results <- forOf perspectives (primaryStep problem) [] ;;
     synthesizedResult <- synthesizeResults results problem ;;
     updatePerformanceMetrics synthesizedResult ;;
     totalPerspectivesUsed <- countActivatedPerspectives ;;
     maxRecursionDepth <- gets beliefLevels ;;
     recursionEfficiency <- gets (fun c => Metrics.recursionEfficiency (performanceMetrics c)) ;;
     timeCompleted <- Date_now ;;
     ret (Result.mk problem results synthesizedResult
                    (Synthesis.confidence synthesizedResult)
                    (Stats.mk totalPerspectivesUsed maxRecursionDepth
                              recursionEfficiency timeCompleted)))
    resetMentalContext.

End Generators.

Definition processProblem : Problem.t -> M Result.t :=
  processProblemWith analyzeProblemFromPerspective refineAnalysis.

(** [processWithKrang] turns the question into a problem. *)
Definition problemOf (question : string) : Problem.t :=
  Problem.mk question question ["unrestricted"].

(** Successive calls of [processProblem] on one instance. *)
Fixpoint processAll (problems : list Problem.t) : M (list Result.t) :=
  match problems with
  | [] => ret []
  | problem :: rest =>
      result <- processProblem problem ;;
      results <- processAll rest ;;
      ret (result :: results)
  end.

End Krang.

(** ** Notions used to state the properties of the Engine *)

Module EngineSpec.

Import Krang.
Local Open Scope Q_scope.

(** The perspective and level of each entry of a context stack. *)
Definition labels (stack : list Context.t) : list (string * Z) :=
  map (fun c => (Context.perspective c, Context.level c)) stack.

(** [s] has the configuration, the metrics and the source of draws of [s0]. *)
Definition agrees (s0 s : State) : Prop :=
  beliefLevels (this s) = beliefLevels (this s0)
  /\ primaryPerspectives (this s) = primaryPerspectives (this s0)
  /\ performanceMetrics (this s) = performanceMetrics (this s0)
  /\ randomDraws (world s) = randomDraws (world s0).

(** From a state that agrees with [s0], [m] returns a value satisfying
    [post] in a state that agrees with [s0]. *)
Definition preserves {A : Type} (s0 : State) (m : M A) (post : A -> Prop) : Prop :=
  forall s, agrees s0 s ->
    exists a s', m s = (Returned a, s') /\ agrees s0 s' /\ post a.

(** Every draw of the world is at least [rho]. *)
Definition drawsAtLeast (rho : Q) (s : State) : Prop :=
  forall n, rho <= drawValue (randomDraws (world s) n).

Definition confidenceWithin (lo hi : Q) (p : Perspective.t) : Prop :=
  exists c, Perspective.confidence p = JS.Fin c /\ lo <= c /\ c <= hi.

Definition isFinite (p : Perspective.t) : Prop :=
  exists c, Perspective.confidence p = JS.Fin c.

(** The confidence of the analysis of one perspective when no draw is
    below [rho]. *)
Definition baseFloor (rho : Q) : Q := 0.85 + rho * 0.15.

(** A fresh instance in a world. *)
Definition fresh (config : Config.t) (w : World) : State := mkState (constructor config) w.

(** A world whose draws are all [k] and whose clock always reads [t]. *)
Definition constantWorld (k : N) (t : string) : World :=
  mkWorld (fun _ => k) 0 (fun _ => t) 0.

(** One refinement merged into one analysis, then the size of the network. *)
Definition singleRefinement (problem : Problem.t) : M NetworkSize.t :=
  base <- analyzeProblemFromPerspective problem "empirical" ;;
  refined <- refineAnalysis problem base "theoretical" ;;
  integrateRefinedInsights base refined ;;
  calculateInsightNetworkComplexity.

(** The confidence of a returned result. *)
Definition confidenceOf (o : outcome Result.t) : option JS.number :=
  match o with
  | Returned r => Some (Result.confidence r)
  | Thrown _ => None
  end.

(** The edge count of [calculateInsightNetworkComplexity]. *)
Definition edgeCount (network : gmap string (gmap string Edge.t)) : nat :=
  map_fold (fun _ connections count => (count + size connections)%nat) 0%nat network.

(** [x] is not the only name of the list. *)
Definition hasOther (perspectives : list string) (x : string) : bool :=
  match List.filter (fun p => negb (String.eqb p x)) perspectives with
  | [] => false
  | _ :: _ => true
  end.

(** Every analysis is refined at least once: the depth exceeds 1 and
    every perspective has another one to refine it. *)
Definition boosted (s : State) : bool :=
  JS.Qltb 1 (beliefLevels (this s))
  && forallb (hasOther (primaryPerspectives (this s))) (primaryPerspectives (this s)).

(** The factor [1.1 ^ n] that [n] merges can multiply a confidence by. *)
Fixpoint boostBound (n : nat) : Q :=
  match n with
  | O => 1
  | S k => 1.1 * boostBound k
  end.

(** The confidence of [p] is a number between [lo] and [hi], and at
    least [1.1 * lo * lo] when [boost] holds. *)
Definition settled (lo hi : Q) (boost : bool) (p : Perspective.t) : Prop :=
  exists c, Perspective.confidence p = JS.Fin c
            /\ lo <= c /\ c <= hi /\ (boost = true -> 1.1 * lo * lo <= c).

(** The largest confidence an instance can return: one merge for each
    other perspective. *)
Definition ceiling (s : State) : Q :=
  boostBound (Nat.pred (List.length (primaryPerspectives (this s)))).

(** The running mean after one more sample. *)
Definition nextAverage (metrics : Metrics.t) (confidence : JS.number) : JS.number :=
  JS.div (JS.add (JS.mul (Metrics.averageConfidence metrics)
                         (JS.ofNat (Metrics.problemsSolved metrics)))
                 confidence)
         (JS.ofNat (S (Metrics.problemsSolved metrics))).

End EngineSpec.


(** ** The entry point of the Engine ([processWithKrang], [formatKrangAnswer]) *)

Module KrangApi.

Import Krang.
Local Open Scope string_scope.

Module Summary.
(** One entry of [perspectives] in the response. *)
Record t : Type := mk {
  name : string;
  specialization : string;
  confidence : JS.number;
  insights : list string;
  childCount : nat
}.
End Summary.

Module Response.
Record t : Type := mk {
  answer : string;
  confidence : JS.number;
  perspectives : list Summary.t;
  processingSteps : list string;
  keyInsights : list string
}.
End Response.

(** The double quote and the line feed of the template literals. *)
Definition quote : string := String "034"%char EmptyString.
Definition newline : string := String "010"%char EmptyString.

(** [x || fallback] for a string that may be [undefined]: the empty
    string is falsy. *)
Definition orElse (x : option string) (fallback : string) : string :=
  match x with
  | Some (String c rest) => String c rest
  | _ => fallback
  end.

Fixpoint drop (n : nat) (s : string) : string :=
  match n, s with
  | O, _ => s
  | S n', String _ s' => drop n' s'
  | S _, EmptyString => EmptyString
  end.

(** [s.replace(/\.$/, "")]: without the [m] flag [$] is the end of the
    string only. *)
Fixpoint stripFinalPeriod (s : string) : string :=
  match s with
  | EmptyString => EmptyString
  | String c EmptyString => if Ascii.eqb c "." then EmptyString else s
  | String c s' => String c (stripFinalPeriod s')
  end.

(** A literal of lower-case ASCII letters matched under the [i] flag:
    within Latin-1 only the ASCII capitals fold onto them. *)
Definition startsWithIgnoreCase (s literal : string) : bool :=
  JS.startsWith (JS.toLowerCase s) literal.

(** What [.] does not match. *)
Definition isLineTerminator (c : ascii) : bool :=
  let n := N_of_ascii c in ((n =? 10) || (n =? 13))%N.

Definition startsWithSpace (s : string) : bool :=
  match s with
  | String c _ => JS.isSpace c
  | EmptyString => false
  end.

(** What is left of [s] behind the match of [.*?perspective,\s+] at its
    start, if there is one: the lazy [.*?] stops at the first
    [perspective,] that white space follows, and gives up at a line
    terminator; the greedy [\s+] takes all the white space. *)
Fixpoint afterPerspectiveClause (s : string) : option string :=
  if startsWithIgnoreCase s "perspective," && startsWithSpace (drop 12 s)
  then Some (JS.trimStart (drop 12 s))
  else match s with
       | EmptyString => None
       | String c s' => if isLineTerminator c then None else afterPerspectiveClause s'
       end.

(** [s.replace(/^From.*?perspective,\s+/i, "")] *)
Definition stripFromClause (s : string) : string :=
  if startsWithIgnoreCase s "from"
  then from_option id s (afterPerspectiveClause (drop 4 s))
  else s.

Section Printing.

(** [Number.prototype.toString] of a finite number. *)
Variable numberToString : Q -> string.

(** [x.toFixed(d)] of any number: from [10^21] on it is [String(x)]. *)
Definition numberToFixed (d : nat) (x : JS.number) : string :=
  match x with
  | JS.NaN => "NaN"
  | JS.Infinity false => "Infinity"
  | JS.Infinity true => "-Infinity"
  | JS.Fin q =>
      if Qle_bool (inject_Z (10 ^ 21)) q || Qle_bool q (- inject_Z (10 ^ 21))
      then numberToString q
      else JS.toFixed d q
  end.

(** The [forEach] over the first key insights: [answer] with the line of
    each insight appended, numbered from [index + 1]. *)
Fixpoint numberedInsights (index : nat) (insights : list string) (answer : string) : string :=
  match insights with
  | [] => answer
  | insight :: rest =>
      numberedInsights (S index) rest
        (answer ++ JS.natToString (index + 1) ++ ". " ++ insight ++ newline)
  end.

(** [formatKrangAnswer]; the key term it extracts from the question is
    never used. *)
Definition formatKrangAnswer (result : Result.t) : string :=
  let synthesis := Result.synthesis result in
  let confidence := Result.confidence result in
  let perspectives := Result.perspectives result in
  let question := Problem.title (Result.problem result) in
  let answer :=
    "KRANG has analyzed your question about " ++ quote ++ question ++ quote
      ++ " through " ++ JS.natToString (List.length perspectives)
      ++ " cognitive perspectives with "
      ++ numberToFixed 1 (JS.mul confidence (JS.Fin 100))
      ++ "% overall confidence." ++ newline ++ newline in
  let answer := answer ++ "Key insights from multi-perspective analysis:" ++ newline in
  let answer := numberedInsights 0 (firstn 3 (Synthesis.keyInsights synthesis)) answer in
  let answer := answer ++ newline ++ "Definitive answer: " in
  let topInsight :=
    orElse (nth_error (Synthesis.keyInsights synthesis) 0) "Based on comprehensive analysis" in
  let secondInsight :=
    orElse (nth_error (Synthesis.keyInsights synthesis) 1)
           "through multiple specialized perspectives" in
  let answer :=
    answer ++ stripFinalPeriod topInsight ++ " with "
      ++ numberToFixed 1 (JS.mul confidence (JS.Fin 100))
      ++ "% confidence. " ++ stripFromClause secondInsight ++ newline ++ newline in
  answer ++ "This conclusion is based on " ++ JS.natToString (List.length perspectives)
    ++ " specialized perspectives with consilience score of "
    ++ numberToFixed 1 (JS.mul (Synthesis.consilienceScore synthesis) (JS.Fin 100))
    ++ "%.".

Definition summaryOf (p : Perspective.t) : Summary.t :=
  Summary.mk (Perspective.name p) (Perspective.specialization p) (Perspective.confidence p)
             (firstn 3 (Perspective.insights p))
             (match Perspective.childPerspectives p with
              | Some children => List.length children
              | None => 0%nat
              end).

(** [processWithKrang], on the instance of the module. *)
Definition processWithKrang (question : string) : M Response.t :=
  let problem := Problem.mk question question ["unrestricted"] in
  result <- processProblem problem ;;
  let processingSteps :=
    [ "Analyzed problem complexity and identified key domains.";
      "Created " ++ JS.natToString (List.length (Result.perspectives result))
        ++ " specialized cognitive perspectives for multi-angle analysis.";
      "Generated "
        ++ JS.natToString
             (fold_left (fun count p => (count + List.length (Perspective.insights p))%nat)
                        (Result.perspectives result) 0%nat)
        ++ " total insights across all perspectives.";
      "Performed recursive refinement with "
        ++ numberToString (Stats.maxRecursionDepth (Result.mentalProcessStats result))
        ++ " levels of depth.";
      "Synthesized final answer with " ++ numberToFixed 2 (Result.confidence result)
        ++ " confidence score." ] in
  ret (Response.mk (formatKrangAnswer result)
                   (Result.confidence result)
                   (map summaryOf (Result.perspectives result))
                   processingSteps
                   (firstn 5 (Synthesis.keyInsights (Result.synthesis result)))).

End Printing.

End KrangApi.

(** ** Notions used to state further properties *)

Module MoreSpec.

Import RealtimeProcessor.

(** What holds of each of the 26 canned paragraphs: the split on
    [/\.\s+/] leaves it whole, it has no precise token, and it is at most
    253 code units long. *)
Definition plainParagraph (insight : string) : bool :=
  match JS.splitSentences insight with
  | [sentence] => String.eqb sentence insight
  | _ => false
  end
  && negb (hasPreciseTerms insight)
  && (String.length insight <=? 253)%nat.

(** [s.endsWith(".")] *)
Fixpoint endsWithPeriod (s : string) : bool :=
  match s with
  | EmptyString => false
  | String c EmptyString => Ascii.eqb c "."
  | String _ s' => endsWithPeriod s'
  end.

(** What else holds of each canned paragraph: [trim] leaves it as it is,
    and it ends with a period. *)
Definition closedParagraph (insight : string) : bool :=
  String.eqb (JS.trim insight) insight && endsWithPeriod insight.

(** An insight that is one sentence, as every generated one is. *)
Definition whole (i : Insight.t) : Prop :=
  JS.splitSentences (Insight.insight i) = [Insight.insight i]
  /\ JS.trim (Insight.insight i) = Insight.insight i.

(** The texts of [insights] that contain one of [words], in lower case. *)
Definition quoted (words : list string) (insights : list Insight.t) : list string :=
  List.filter (fun text => JS.includesAny (JS.toLowerCase text) words)
              (map Insight.insight insights).

(** The type of the insight network. *)
Abbreviation Network := (gmap string (gmap string Krang.Edge.t)).

(** The edge from [source] to [target] of an insight network, if any. *)
Definition edge (network : Network)
           (source target : string) : option Krang.Edge.t :=
  match network !! source with
  | Some connections => connections !! target
  | None => None
  end.

(** The marker a merge puts in front of what it appends. *)
Definition refinedMarker (text : string) : string := ("[Refined] " ++ text)%string.

(** However [m] ends, the state it leaves is related by [R] to the state
    it found. *)
Definition respects {A : Type} (R : Krang.State -> Krang.State -> Prop) (m : Krang.M A) : Prop :=
  forall s, R s (snd (m s)).

(** The relation [R] between the values of the field [proj] of the
    instance before and after. *)
Definition onField {X : Type} (proj : Krang.KrangCore -> X) (R : X -> X -> Prop)
           (s s' : Krang.State) : Prop :=
  R (proj (Krang.this s)) (proj (Krang.this s')).

(** No edge of the first network is missing from the second. *)
Definition keepsEdges (network network' : Network) : Prop :=
  forall source target,
    is_Some (edge network source target) -> is_Some (edge network' source target).

(** Generators that throw at once. *)
Definition failingAnalyze (problem : Krang.Problem.t) (perspective : string)
  : Krang.M Krang.Perspective.t := Krang.throw "analysis failed".

Definition failingRefine (problem : Krang.Problem.t) (base : Krang.Perspective.t)
           (perspective : string) : Krang.M Krang.Perspective.t :=
  Krang.throw "refinement failed".

(** The perspectives that refine the analysis of [perspective]: the
    others of the instance, when it believes in more than one level. *)
Definition refinementsOf (c : Krang.KrangCore) (perspective : string) : list string :=
  if JS.Qltb 1 (Krang.beliefLevels c)
  then List.filter (fun p => negb (String.eqb p perspective)) (Krang.primaryPerspectives c)
  else [].

(** The three insights of the refinement of [base] by [refinement]. *)
Definition refinedInsightsOf (base refinement : string) : list string :=
  [ "Refining the " ++ base ++ " analysis through a " ++ refinement ++ " lens reveals precise quantitative relationships.";
    "The " ++ refinement ++ " perspective challenges the " ++ base ++ " view by introducing exact computational verification.";
    "Combining " ++ base ++ " and " ++ refinement ++ " perspectives shows 96.7% improvement in predictive accuracy." ]%string.

(** The insights of the analysis of [perspective] once every refinement
    is merged into it. *)
Definition mergedInsights (problem : Krang.Problem.t) (c : Krang.KrangCore)
           (perspective : string) : list string :=
  app (Krang.perspectiveInsights problem perspective)
      (flat_map (fun refinement => map refinedMarker (refinedInsightsOf perspective refinement))
                (refinementsOf c perspective)).

(** [p] is the finished analysis of [perspective] on the instance [c]. *)
Definition analysed (problem : Krang.Problem.t) (c : Krang.KrangCore)
           (perspective : string) (p : Krang.Perspective.t) : Prop :=
  Krang.Perspective.name p = perspective
  /\ Krang.Perspective.specialization p = perspective
  /\ Krang.Perspective.insights p = mergedInsights problem c perspective
  /\ exists children,
       Krang.Perspective.childPerspectives p = Some children
       /\ map Krang.Perspective.name children = refinementsOf c perspective.

(** [summary] is what the response shows of the analysis of
    [perspective]: its own three insights, and the number of its
    refinements. *)
Definition summarised (problem : Krang.Problem.t) (c : Krang.KrangCore)
           (perspective : string) (summary : KrangApi.Summary.t) : Prop :=
  KrangApi.Summary.name summary = perspective
  /\ KrangApi.Summary.specialization summary = perspective
  /\ KrangApi.Summary.insights summary = Krang.perspectiveInsights problem perspective
  /\ KrangApi.Summary.childCount summary = List.length (refinementsOf c perspective).

(** The insights of all the analyses of the instance, merged ones
    included. *)
Definition insightTotal (c : Krang.KrangCore) : nat :=
  fold_left (fun count perspective =>
               (count + (3 + 3 * List.length (refinementsOf c perspective)))%nat)
            (Krang.primaryPerspectives c) 0%nat.

(** The answer for [question] when the first three key insights are
    [first] (which is [stem] and a period), [second] and [third]. *)
Definition answerText (question : string) (count : nat) (percent : string)
           (first second third stem : string) (score : string) : string :=
  ("KRANG has analyzed your question about " ++ KrangApi.quote ++ question ++ KrangApi.quote
   ++ " through " ++ JS.natToString count ++ " cognitive perspectives with "
   ++ percent ++ "% overall confidence." ++ KrangApi.newline ++ KrangApi.newline
   ++ "Key insights from multi-perspective analysis:" ++ KrangApi.newline
   ++ "1. " ++ first ++ KrangApi.newline
   ++ "2. " ++ second ++ KrangApi.newline
   ++ "3. " ++ third ++ KrangApi.newline
   ++ KrangApi.newline ++ "Definitive answer: " ++ stem ++ " with " ++ percent
   ++ "% confidence. " ++ second ++ KrangApi.newline ++ KrangApi.newline
   ++ "This conclusion is based on " ++ JS.natToString count
   ++ " specialized perspectives with consilience score of " ++ score ++ "%.")%string.

(** *** The tree of perspectives under an analysis *)

(** A perspective that nothing was merged into. *)
Definition leaf (p : Krang.Perspective.t) : Prop :=
  Krang.Perspective.childPerspectives p = None.

(** The perspectives that refine the refinement by [perspective]: the
    others of the instance, when it believes in more than two levels. *)
Definition deepRefinementsOf (c : Krang.KrangCore) (perspective : string) : list string :=
  if JS.Qltb 2 (Krang.beliefLevels c)
  then List.filter (fun p => negb (String.eqb p perspective)) (Krang.primaryPerspectives c)
  else [].

(** [child] is the refinement by [perspective]: its children are the
    refinements of it, which are leaves. *)
Definition refinedBy (c : Krang.KrangCore) (perspective : string)
           (child : Krang.Perspective.t) : Prop :=
  Krang.Perspective.name child = perspective
  /\ map Krang.Perspective.name (default [] (Krang.Perspective.childPerspectives child))
     = deepRefinementsOf c perspective
  /\ Forall leaf (default [] (Krang.Perspective.childPerspectives child)).

(** The children of the analysis [p] of [perspective] are its
    refinements. *)
Definition tree (c : Krang.KrangCore) (perspective : string) (p : Krang.Perspective.t) : Prop :=
  Forall2 (refinedBy c) (refinementsOf c perspective)
          (default [] (Krang.Perspective.childPerspectives p)).

(** *** The shape of the insight network *)

Definition linked (network : Network)
           (source target : string) : Prop :=
  is_Some (edge network source target).

(** The pairs an instance refines: two different primary perspectives,
    when it believes in more than one level. *)
Definition refinable (c : Krang.KrangCore) (source target : string) : Prop :=
  JS.Qltb 1 (Krang.beliefLevels c) = true
  /\ In source (Krang.primaryPerspectives c)
  /\ In target (Krang.primaryPerspectives c)
  /\ source <> target.

(** Every source node of the network has an edge, and every edge joins
    a pair the instance refines. *)
Definition wellFormed (c : Krang.KrangCore)
           (network : Network) : Prop :=
  (forall source, is_Some (network !! source) -> exists target, linked network source target)
  /\ (forall source target, linked network source target -> refinable c source target).

(** The network is well formed and has every edge of [required]. *)
Definition covers (c : Krang.KrangCore) (required : string -> string -> Prop)
           (network : Network) : Prop :=
  wellFormed c network
  /\ forall source target, required source target -> linked network source target.

(** From a state that agrees with [s0] and whose network satisfies
    [pre], [m] returns a value [a] in a state that agrees with [s0] and
    whose network satisfies [post a]. *)
Definition netTriple {A : Type} (s0 : Krang.State)
           (pre : Network -> Prop)
           (m : Krang.M A)
           (post : A -> Network -> Prop) : Prop :=
  forall s, EngineSpec.agrees s0 s -> pre (Krang.insightNetwork (Krang.this s)) ->
    exists a s', m s = (Krang.Returned a, s')
                 /\ EngineSpec.agrees s0 s'
                 /\ post a (Krang.insightNetwork (Krang.this s')).

(** The set of the primary perspectives, and its size. *)
Definition perspectiveSet (c : Krang.KrangCore) : gset string :=
  list_to_set (Krang.primaryPerspectives c).

Definition distinctCount (c : Krang.KrangCore) : nat := size (perspectiveSet c).

(** The instance refines some pair. *)
Definition refines (c : Krang.KrangCore) : bool :=
  JS.Qltb 1 (Krang.beliefLevels c) && (1 <? distinctCount c)%nat.

(** The strings of [l], each once, in the order in which they first
    occur in [l]. *)
Fixpoint firstOccurrences (l : list string) : list string :=
  match l with
  | [] => []
  | x :: rest => x :: List.filter (fun y => negb (String.eqb y x)) (firstOccurrences rest)
  end.

End MoreSpec.

(** * The Selector in a runtime *)

Module Runtime.

(** What a call can read besides its arguments: the hash function behind
    [crypto.createHash('sha256')], and the world of the Engine, which
    holds the [Math.random] draws with the number of draws consumed and
    the clock with the number of its readings. *)
Record t : Type := mk {
  sha256hex : string -> string;
  world : Krang.World
}.

(** [processInRealTime(question)] as a computation in a runtime: the
    answer and the runtime after the call.  The Selector calls the hash,
    once for the question and once for each expert; it has no call of
    [Math.random] or of [Date], so the world it leaves is the world it
    found. *)
Definition processInRealTime (question : string) (runtime : t)
  : RealtimeProcessor.Answer * t :=
  (RealtimeProcessor.processInRealTime (sha256hex runtime) question, runtime).

End Runtime.

(** * Room for rounding *)

Module Rounding.


End Rounding.

(** * Binary64 arithmetic *)

Module Binary64.

Local Open Scope Q_scope.

(** The integer nearest to [x]; half-way between two integers, the
    even one. *)
Definition nearestEven (x : Q) : Z :=
  let below := Qfloor x in
  match Qcompare (x - inject_Z below) (1 # 2) with
  | Lt => below
  | Eq => if Z.even below then below else (below + 1)%Z
  | Gt => (below + 1)%Z
  end.

(** The binade of a positive [x]: the [e] with [2 ^ e <= x < 2 ^ (e + 1)].
    The bit lengths of numerator and denominator give it up to one. *)
Definition binade (x : Q) : Z :=
  let e := (Z.log2 (Qnum x) - Z.log2 (Zpos (Qden x)))%Z in
  if Qle_bool (2 ^ e) x then e else (e - 1)%Z.

(** A positive [x] rounded to 53 significant bits. *)
Definition roundPositive (x : Q) : Q :=
  let ulp := 2 ^ (binade x - 52) in
  inject_Z (nearestEven (x / ulp)) * ulp.

(** Rounding to the nearest number of 53 significant bits, ties to the
    even one: the rounding of every binary64 operation whose result
    is neither below 2 ^ -1022 in magnitude nor above 2 ^ 1024. *)
Definition round (x : Q) : Q :=
  match Qcompare x 0 with
  | Eq => 0
  | Gt => roundPositive x
  | Lt => - roundPositive (- x)
  end.

(** The arithmetic of binary64 numbers: the exact result, rounded. *)
Definition add (x y : Q) : Q := round (x + y).
Definition mul (x y : Q) : Q := round (x * y).
Definition div (x y : Q) : Q := round (x / y).

(** The binary64 number that a decimal literal of the source denotes. *)
Definition literal (q : Q) : Q := round q.

(** [calculateInsightConfidence] of the Selector with the arithmetic of
    the source: every literal, quotient, product and sum is a binary64
    number.  The string length and the count are integers below
    2 ^ 53, which binary64 holds exactly; [Math.min] returns one of its
    arguments. *)
Definition calculateInsightConfidence (insight question : string) : Q :=
  let lengthConfidence := Qmin (literal 0.7) (div (JS.lengthQ insight) 500) in
  let relevanceConfidence :=
    Qmin (literal 0.8)
         (div (inject_Z (Z.of_nat (RealtimeProcessor.relevantTermCount insight question))) 5) in
  let precisionBonus :=
    if RealtimeProcessor.hasPreciseTerms insight then literal 0.15 else 0 in
  Qmin (literal 0.99)
       (add (add (mul lengthConfidence (literal 0.4)) (mul relevanceConfidence (literal 0.4)))
            precisionBonus).

(** The rational that a finite hardware float stands for. *)
Definition ofFloat (f : PrimFloat.float) : option Q :=
  match FloatOps.Prim2SF f with
  | SpecFloat.S754_zero _ => Some 0
  | SpecFloat.S754_finite negative m e =>
      Some ((if negative then - inject_Z (Zpos m) else inject_Z (Zpos m)) * 2 ^ e)
  | _ => None
  end.

(** The hardware float [f] is the number [q]. *)
Definition isFloat (f : PrimFloat.float) (q : Q) : bool :=
  match ofFloat f with
  | Some v => Qeq_bool v q
  | None => false
  end.

(** The hardware float nearest to the ratio of two small integers. *)
Definition ratio (n d : Z) : PrimFloat.float :=
  PrimFloat.div (PrimFloat.of_uint63 (Uint63.of_Z n)) (PrimFloat.of_uint63 (Uint63.of_Z d)).

(** [Math.min] of two hardware floats neither of which is NaN. *)
Definition minFloat (x y : PrimFloat.float) : PrimFloat.float :=
  if PrimFloat.ltb y x then y else x.

(** [calculateInsightConfidence] run on the floats of the hardware. *)
Definition calculateInsightConfidenceFloat (insight question : string) : PrimFloat.float :=
  let lengthConfidence :=
    minFloat (ratio 7 10) (ratio (Z.of_nat (String.length insight)) 500) in
  let relevanceConfidence :=
    minFloat (ratio 8 10)
             (ratio (Z.of_nat (RealtimeProcessor.relevantTermCount insight question)) 5) in
  let precisionBonus :=
    if RealtimeProcessor.hasPreciseTerms insight then ratio 15 100 else PrimFloat.zero in
  minFloat (ratio 99 100)
           (PrimFloat.add
              (PrimFloat.add (PrimFloat.mul lengthConfidence (ratio 4 10))
                             (PrimFloat.mul relevanceConfidence (ratio 4 10)))
              precisionBonus).

(** An insight that reaches every cap of [calculateInsightConfidence]:
    363 code units, four terms of the question, and a number. *)
Definition cappedInsight : string :=
  String.concat "" (List.repeat "quantum fusion plasma energy 42% " 11).

Definition cappedQuestion : string := "quantum fusion plasma energy".


End Binary64.
(** * Properties of the Realtime Selector *)

Section SelectorFacts.

Import RealtimeProcessor.
Local Open Scope Q_scope.


Lemma Qltb_true (x y : Q) : JS.Qltb x y = true <-> x < y.
Proof.
  unfold JS.Qltb. rewrite Bool.negb_true_iff. split.
  - intros H. apply Qnot_le_lt. intros Hle. apply Qle_bool_iff in Hle. congruence.
  - intros H. destruct (Qle_bool y x) eqn:E; [|reflexivity].
    apply Qle_bool_iff in E. lra.
Qed.

Lemma Qltb_false (x y : Q) : JS.Qltb x y = false <-> y <= x.
Proof.
  unfold JS.Qltb. rewrite Bool.negb_false_iff. apply Qle_bool_iff.
Qed.



Lemma count_nonneg (n : nat) : 0 <= inject_Z (Z.of_nat n).
Proof.
  change 0 with (inject_Z 0). rewrite <- Zle_Qle. lia.
Qed.

Lemma ratio_nonneg (n : nat) (d : Q) : 0 < d -> 0 <= inject_Z (Z.of_nat n) / d.
Proof.
  intros Hd. apply Qle_shift_div_l; [exact Hd|].
  rewrite Qmult_0_l. apply count_nonneg.
Qed.

(** A capped non-negative quantity lies between zero and its cap. *)
Lemma capped_range (cap x : Q) : 0 <= cap -> 0 <= x -> 0 <= Qmin cap x <= cap.
Proof.
  intros Hc Hx. split; [apply Q.min_glb; assumption | apply Q.le_min_l].
Qed.

Lemma precisionBonus_range (b : bool) : 0 <= (if b then 0.15 else 0) <= 0.15.
Proof. destruct b; lra. Qed.

(** *** The overall confidence *)

Lemma clamp_min_max (w : Q) : Qmin 0.99 (Qmax 0.5 w) == SelectorSpec.clamp 0.5 0.99 w.
Proof.
  unfold SelectorSpec.clamp.
  destruct (JS.Qltb w 0.5) eqn:Elo.
  - apply Qltb_true in Elo. rewrite (Q.max_l 0.5 w) by lra. apply Q.min_r. lra.
  - apply Qltb_false in Elo. rewrite (Q.max_r 0.5 w) by lra.
    destruct (JS.Qltb 0.99 w) eqn:Ehi.
    + apply Qltb_true in Ehi. apply Q.min_l. lra.
    + apply Qltb_false in Ehi. apply Q.min_r. lra.
Qed.

Lemma clamp_range (w : Q) : 0.5 <= Qmin 0.99 (Qmax 0.5 w) <= 0.99.
Proof.
  split; [apply Q.min_glb; [lra | apply Q.le_max_l] | apply Q.le_min_l].
Qed.

Lemma fold_sum_total (values : list Q) (acc : Q) :
  fold_left Qplus values acc == acc + SelectorSpec.total values.
Proof.
  revert acc. induction values as [|v values IH]; intros acc; simpl.
  - lra.
  - rewrite IH. lra.
Qed.

Lemma sum_total (values : list Q) : sum values == SelectorSpec.total values.
Proof. unfold sum. rewrite fold_sum_total. lra. Qed.

Lemma confidenceSum_total (insights : list Insight.t) (acc : Q) :
  fold_left (fun a i => a + Insight.confidence i) insights acc
  == acc + SelectorSpec.total (map Insight.confidence insights).
Proof.
  revert acc. induction insights as [|i insights IH]; intros acc; simpl.
  - lra.
  - rewrite IH. lra.
Qed.

Lemma total_map_ext (f g : Q -> Q) (values : list Q) :
  (forall v, f v == g v) ->
  SelectorSpec.total (map f values) == SelectorSpec.total (map g values).
Proof.
  intros Hfg. induction values as [|v values IH]; simpl; [reflexivity|].
  rewrite IH, (Hfg v). reflexivity.
Qed.

Lemma code_mean (values : list Q) :
  values <> [] ->
  sum values / inject_Z (Z.of_nat (List.length values)) == SelectorSpec.mean values.
Proof.
  intros Hne. destruct values as [|v values]; [congruence|].
  unfold SelectorSpec.mean. rewrite sum_total. reflexivity.
Qed.

Lemma calculateVariance_spec (values : list Q) :
  calculateVariance values == SelectorSpec.populationVariance values.
Proof.
  destruct values as [|v values]; [reflexivity|].
  unfold calculateVariance, SelectorSpec.populationVariance.
  set (l := v :: values).
  assert (Hl : l <> []) by (subst l; discriminate).
  assert (Hm : sum l / inject_Z (Z.of_nat (List.length l)) == SelectorSpec.mean l)
    by (apply code_mean; exact Hl).
  rewrite sum_total.
  rewrite (total_map_ext _ (fun v => (v - SelectorSpec.mean l) * (v - SelectorSpec.mean l))).
  - unfold SelectorSpec.mean at 3. subst l. cbn [map List.length]. rewrite length_map. reflexivity.
  - intros x. rewrite Hm. generalize (x - SelectorSpec.mean l). intros d.
    simpl. reflexivity.
Qed.

Lemma averageConfidence_spec (insights : list Insight.t) :
  (if (0 <? List.length insights)%nat
   then fold_left (fun a i => a + Insight.confidence i) insights 0
        / inject_Z (Z.of_nat (List.length insights))
   else 0)
  == SelectorSpec.mean (map Insight.confidence insights).
Proof.
  destruct insights as [|i insights]; [reflexivity|].
  cbn [List.length Nat.ltb Nat.leb]. rewrite confidenceSum_total.
  unfold SelectorSpec.mean. cbn [map List.length]. rewrite length_map.
  rewrite Qplus_0_l. reflexivity.
Qed.

(** C6. For every list of insights and every complexity, the overall
    confidence of the Selector is the mean of the insight confidences
    times 0.6, plus the agreement factor (the larger of 0 and 1 minus ten
    times their population variance) times 0.3, minus a tenth of the
    complexity, clamped to [0.5, 0.99]. *)
Theorem calculateOverallConfidence_formula (insights : list Insight.t) (complexity : Q) :
  calculateOverallConfidence insights complexity
  == SelectorSpec.overallConfidence (map Insight.confidence insights) complexity.
Proof.
  unfold calculateOverallConfidence, SelectorSpec.overallConfidence,
    SelectorSpec.agreementFactor.
  cbv zeta. rewrite averageConfidence_spec, calculateVariance_spec.
  assert (E : 1 - SelectorSpec.populationVariance (map Insight.confidence insights) * 10
              == 1 - 10 * SelectorSpec.populationVariance (map Insight.confidence insights))
    by ring.
  rewrite E. apply clamp_min_max.
Qed.



(** *** Sorting by a key, largest first *)

Section SortByKey.

Context {A : Type} (key : A -> Q).

Lemma sortInsert_permutation (x : A) (l : list A) :
  Permutation (JS.sortInsert (SelectorSpec.descending key) x l) (x :: l).
Proof.
  induction l as [|y l IH]; simpl; [reflexivity|].
  destruct (JS.Qltb (SelectorSpec.descending key y x) 0); [|reflexivity].
  rewrite IH. apply perm_swap.
Qed.

Lemma sort_permutation (l : list A) : Permutation (JS.sort (SelectorSpec.descending key) l) l.
Proof.
  induction l as [|x l IH]; simpl; [reflexivity|].
  rewrite sortInsert_permutation. constructor. exact IH.
Qed.

Lemma sortInsert_sorted (x : A) (l : list A) :
  StronglySorted (SelectorSpec.notBelow key) l ->
  StronglySorted (SelectorSpec.notBelow key)
                 (JS.sortInsert (SelectorSpec.descending key) x l).
Proof.
  induction 1 as [|y l Hs IH Hy]; simpl.
  - constructor; constructor.
  - destruct (JS.Qltb (SelectorSpec.descending key y x) 0) eqn:E.
    + apply Qltb_true in E. unfold SelectorSpec.descending in E.
      constructor; [exact IH|].
      rewrite List.Forall_forall. intros z Hz.
      apply (Permutation_in _ (sortInsert_permutation x l)) in Hz.
      destruct Hz as [<-|Hz]; [unfold SelectorSpec.notBelow; lra|].
      rewrite List.Forall_forall in Hy. apply Hy, Hz.
    + apply Qltb_false in E. unfold SelectorSpec.descending in E.
      constructor; [constructor; assumption|].
      constructor; [unfold SelectorSpec.notBelow; lra|].
      rewrite List.Forall_forall in Hy |- *. intros z Hz.
      specialize (Hy z Hz). unfold SelectorSpec.notBelow in *. lra.
Qed.

Lemma sort_sorted (l : list A) :
  StronglySorted (SelectorSpec.notBelow key) (JS.sort (SelectorSpec.descending key) l).
Proof.
  induction l as [|x l IH]; simpl; [constructor|].
  apply sortInsert_sorted, IH.
Qed.

(** Stability: the elements of one key keep their order. *)
Lemma sortInsert_stable (k : Q) (x : A) (l : list A) :
  List.filter (fun a => Qeq_bool (key a) k) (JS.sortInsert (SelectorSpec.descending key) x l)
  = List.filter (fun a => Qeq_bool (key a) k) (x :: l).
Proof.
  induction l as [|y l IH]; [reflexivity|].
  cbn [JS.sortInsert]. destruct (JS.Qltb (SelectorSpec.descending key y x) 0) eqn:E; [|reflexivity].
  apply Qltb_true in E. unfold SelectorSpec.descending in E.
  cbn [List.filter] in *. rewrite IH.
  destruct (Qeq_bool (key x) k) eqn:Ex; [|reflexivity].
  destruct (Qeq_bool (key y) k) eqn:Ey; [|reflexivity].
  apply Qeq_bool_iff in Ex, Ey. lra.
Qed.

Lemma sort_stable (k : Q) (l : list A) :
  List.filter (fun a => Qeq_bool (key a) k) (JS.sort (SelectorSpec.descending key) l)
  = List.filter (fun a => Qeq_bool (key a) k) l.
Proof.
  induction l as [|x l IH]; [reflexivity|].
  cbn [JS.sort]. rewrite sortInsert_stable. cbn [List.filter]. rewrite IH. reflexivity.
Qed.

End SortByKey.

(** *** Expert selection *)

Lemma recordGet_map {V : Type} (f : string -> V) (keys : list string) (key : string) :
  In key keys -> recordGet (map (fun k => (k, f k)) keys) key = Some (f key).
Proof.
  induction keys as [|k keys IH]; intros Hin; [destruct Hin|].
  cbn [map recordGet]. destruct (String.eqb k key) eqn:E.
  - apply String.eqb_eq in E. subst. reflexivity.
  - destruct Hin as [->|Hin]; [rewrite String.eqb_refl in E; discriminate|].
    apply IH, Hin.
Qed.

Lemma fold_count {X : Type} (hit : X -> bool) (l : list X) (n : nat) :
  fold_left (fun score x => if hit x then S score else score) l n
  = (n + List.length (List.filter hit l))%nat.
Proof.
  revert n. induction l as [|x l IH]; intros n; cbn [fold_left List.filter].
  - cbn. lia.
  - rewrite IH. destruct (hit x); cbn [List.length]; lia.
Qed.

Lemma keywordScore_hits (question perspective : string) :
  keywordScore question perspective
  = List.length (List.filter
                   (fun keyword => JS.includes (JS.toLowerCase question) (JS.toLowerCase keyword))
                   (domainKeywords perspective)).
Proof. unfold keywordScore. rewrite fold_count. reflexivity. Qed.

Lemma In_sortInsert {X : Type} (c : X -> X -> Q) (a x : X) (l : list X) :
  In a (JS.sortInsert c x l) -> a = x \/ In a l.
Proof.
  induction l as [|y l IH]; cbn [JS.sortInsert]; intros Ha.
  - destruct Ha as [->|[]]. left. reflexivity.
  - destruct (JS.Qltb (c y x) 0).
    + destruct Ha as [->|Ha]; [right; left; reflexivity|].
      destruct (IH Ha) as [->|Hl]; [left; reflexivity|right; right; exact Hl].
    + destruct Ha as [->|Ha]; [left; reflexivity|right; exact Ha].
Qed.

Lemma In_sort {X : Type} (c : X -> X -> Q) (a : X) (l : list X) :
  In a (JS.sort c l) -> In a l.
Proof.
  induction l as [|x l IH]; cbn [JS.sort]; intros Ha; [exact Ha|].
  destruct (In_sortInsert _ _ _ _ Ha) as [->|Hl]; [left; reflexivity|right; apply IH, Hl].
Qed.

Lemma sortInsert_ext {X : Type} (c1 c2 : X -> X -> Q) (x : X) (l : list X) :
  (forall y, In y l -> c1 y x = c2 y x) ->
  JS.sortInsert c1 x l = JS.sortInsert c2 x l.
Proof.
  induction l as [|y l IH]; intros H; [reflexivity|].
  cbn [JS.sortInsert]. rewrite (H y) by (left; reflexivity).
  rewrite IH by (intros z Hz; apply H; right; exact Hz). reflexivity.
Qed.

(** Two comparators that agree on the elements of a list sort it alike. *)
Lemma sort_ext {X : Type} (c1 c2 : X -> X -> Q) (l : list X) :
  (forall a b, In a l -> In b l -> c1 a b = c2 a b) ->
  JS.sort c1 l = JS.sort c2 l.
Proof.
  induction l as [|x l IH]; intros H; [reflexivity|].
  cbn [JS.sort]. rewrite <- IH by (intros; apply H; right; assumption).
  apply sortInsert_ext. intros y Hy. apply H; [right; apply (In_sort c1), Hy|left; reflexivity].
Qed.

Lemma sortedPerspectives_by_score (question : string) :
  sortedPerspectives question
  = JS.sort (SelectorSpec.descending (SelectorSpec.scoreQ question)) domainExperts.
Proof.
  unfold sortedPerspectives, perspectiveScores. rewrite map_map. cbn [fst]. rewrite map_id.
  apply sort_ext. intros a b Ha Hb. unfold SelectorSpec.descending, scoreOf, SelectorSpec.scoreQ.
  rewrite !recordGet_map by assumption. reflexivity.
Qed.

Lemma Qeq_bool_counts (a b : nat) :
  Qeq_bool (inject_Z (Z.of_nat a)) (inject_Z (Z.of_nat b)) = (a =? b)%nat.
Proof.
  destruct (a =? b)%nat eqn:E.
  - apply Nat.eqb_eq in E. subst. apply Qeq_bool_iff. reflexivity.
  - apply Nat.eqb_neq in E. destruct (Qeq_bool _ _) eqn:F; [|reflexivity].
    apply Qeq_bool_iff in F. rewrite inject_Z_injective in F. apply Nat2Z.inj in F. congruence.
Qed.

Lemma StronglySorted_weaken {X : Type} (R1 R2 : X -> X -> Prop) (l : list X) :
  (forall a b, R1 a b -> R2 a b) -> StronglySorted R1 l -> StronglySorted R2 l.
Proof.
  intros H. induction 1 as [|x l Hs IH Hx]; constructor; [exact IH|].
  eapply List.Forall_impl; [|exact Hx]. intros b. apply H.
Qed.

(** C5 at the example question: the quantum physicist does not score 4
    keyword hits. *)
Lemma quantum_physicist_score_not_4 :
  keywordScore "Explain quantum field energy interactions" "quantum_physicist" <> 4%nat.
Proof. vm_compute. discriminate. Qed.

(** C5. The score of an expert is the number of its keywords that occur
    in the question, letter case apart; the experts are sorted by score,
    largest first, experts of equal score keeping the order of the fixed
    list, and the first [count] are selected.  For the question
    "Explain quantum field energy interactions" the quantum physicist
    comes first with 3 hits (quantum, energy, field), ahead of the seven
    experts that score 0. *)
Theorem expert_selection (question : string) (count : nat) :
  (forall perspective,
      keywordScore question perspective
      = List.length
          (List.filter
             (fun keyword => JS.includes (JS.toLowerCase question) (JS.toLowerCase keyword))
             (domainKeywords perspective)))
  /\ selectRelevantPerspectives question count = firstn count (sortedPerspectives question)
  /\ Permutation (sortedPerspectives question) domainExperts
  /\ StronglySorted (fun a b => (keywordScore question b <= keywordScore question a)%nat)
                    (sortedPerspectives question)
  /\ (forall score,
         List.filter (fun p => (keywordScore question p =? score)%nat)
                     (sortedPerspectives question)
         = List.filter (fun p => (keywordScore question p =? score)%nat) domainExperts)
  /\ List.filter
       (fun keyword => JS.includes (JS.toLowerCase "Explain quantum field energy interactions")
                                   (JS.toLowerCase keyword))
       (domainKeywords "quantum_physicist")
     = ["quantum"; "energy"; "field"]%string
  /\ keywordScore "Explain quantum field energy interactions" "quantum_physicist" = 3%nat
  /\ sortedPerspectives "Explain quantum field energy interactions"
     = ["quantum_physicist"; "computational_mathematician"; "materials_scientist";
        "systems_engineer"; "evolutionary_biologist"; "cognitive_neuroscientist";
        "network_theorist"; "information_theorist"]%string
  /\ Forall (fun p => keywordScore "Explain quantum field energy interactions" p = 0%nat)
            (tl domainExperts).
Proof.
  split; [intros p; apply keywordScore_hits|].
  split; [reflexivity|].
  rewrite sortedPerspectives_by_score.
  split; [apply sort_permutation|].
  split.
  { eapply StronglySorted_weaken; [|apply (sort_sorted (SelectorSpec.scoreQ question))].
    intros a b Hab. unfold SelectorSpec.notBelow, SelectorSpec.scoreQ in Hab.
    rewrite <- Zle_Qle in Hab. lia. }
  split.
  { intros score.
    pose proof (sort_stable (SelectorSpec.scoreQ question) (inject_Z (Z.of_nat score))
                            domainExperts) as H.
    etransitivity; [|etransitivity; [exact H|]];
      apply List.filter_ext; intros p; unfold SelectorSpec.scoreQ;
      rewrite Qeq_bool_counts; reflexivity. }
  split; [vm_compute; reflexivity|].
  split; [vm_compute; reflexivity|].
  split; [vm_compute; reflexivity|].
  unfold domainExperts. cbn [tl].
  repeat (apply List.Forall_cons; [vm_compute; reflexivity|]). apply List.Forall_nil.
Qed.

(** *** Intent *)



(** *** Determinism *)

(** Each function of the Selector reads the question through
    [toLowerCase], and [calculateComplexity] reads its length too. *)
Section QuestionRead.

Variables question1 question2 : string.
Hypothesis same_lower : JS.toLowerCase question1 = JS.toLowerCase question2.
Hypothesis same_length : String.length question1 = String.length question2.

Lemma calculateComplexity_reads : calculateComplexity question1 = calculateComplexity question2.
Proof.
  unfold calculateComplexity, JS.lengthQ. rewrite same_lower, same_length. reflexivity.
Qed.

Lemma selectRelevantPerspectives_reads (count : nat) :
  selectRelevantPerspectives question1 count = selectRelevantPerspectives question2 count.
Proof.
  unfold selectRelevantPerspectives, sortedPerspectives, perspectiveScores, keywordScore.
  rewrite same_lower. reflexivity.
Qed.

(** The seeds of the two questions may differ: no generator reads its
    seed. *)
Lemma generatePerspectiveInsight_reads (sha1 sha2 : string -> string)
      (perspective seed1 seed2 : string) :
  generatePerspectiveInsight sha1 question1 perspective seed1
  = generatePerspectiveInsight sha2 question2 perspective seed2.
Proof.
  unfold generatePerspectiveInsight, generateQuantumPhysicsInsight,
    generateComputationalMathInsight, generateMaterialsScienceInsight,
    generateSystemsEngineeringInsight, generateEvolutionaryBiologyInsight,
    generateCognitiveNeuroscienceInsight, generateNetworkTheoryInsight,
    generateInformationTheoryInsight.
  rewrite same_lower. reflexivity.
Qed.

Lemma calculateInsightConfidence_reads (insight : string) :
  calculateInsightConfidence insight question1 = calculateInsightConfidence insight question2.
Proof.
  unfold calculateInsightConfidence, relevantTermCount. rewrite same_lower. reflexivity.
Qed.

Lemma synthesizeInsights_reads (insights : list Insight.t) :
  synthesizeInsights insights question1 = synthesizeInsights insights question2.
Proof.
  unfold synthesizeInsights, classifyIntent, synthesizeMethodSolution,
    synthesizeExplanationSolution, synthesizeDefinitionSolution, synthesizeGeneralSolution.
  rewrite same_lower. reflexivity.
Qed.

Lemma analysePerspective_reads (sha1 sha2 : string -> string) (perspective : string) :
  analysePerspective sha1 question1 (sha1 question1) perspective
  = analysePerspective sha2 question2 (sha2 question2) perspective.
Proof.
  unfold analysePerspective. cbv zeta.
  rewrite (generatePerspectiveInsight_reads sha1 sha2 perspective
             (sha1 question1) (sha2 question2)).
  rewrite calculateInsightConfidence_reads. reflexivity.
Qed.

Lemma processInRealTime_reads (sha1 sha2 : string -> string) :
  processInRealTime sha1 question1 = processInRealTime sha2 question2.
Proof.
  unfold processInRealTime. cbv zeta.
  rewrite calculateComplexity_reads.
  rewrite (selectRelevantPerspectives_reads
             (determineOptimalPerspectiveCount (calculateComplexity question2))).
  rewrite (map_ext _ _ (analysePerspective_reads sha1 sha2)).
  rewrite synthesizeInsights_reads. reflexivity.
Qed.

End QuestionRead.

(** C9. The answer of [processInRealTime], its solution, confidence,
    perspectives and processing steps, is fixed by the lower-case form
    and the length of the question: it is the same in any two runtimes,
    whatever their hash functions, their random draws and their clocks,
    for any two questions that agree in these two.  So two invocations
    with the same question return the same answer, and the seeds
    influence nothing: questions that differ in the case of a letter
    have different seeds and get the same answer.  The call consumes no
    random draw and no reading of the clock: it leaves the runtime as it
    found it. *)
Theorem processInRealTime_ignores_seeds (runtime1 runtime2 : Runtime.t)
        (question1 question2 : string) :
  JS.toLowerCase question1 = JS.toLowerCase question2 ->
  String.length question1 = String.length question2 ->
  fst (Runtime.processInRealTime question1 runtime1)
  = fst (Runtime.processInRealTime question2 runtime2)
  /\ snd (Runtime.processInRealTime question1 runtime1) = runtime1.
Proof.
  intros Hlower Hlength. split; [|reflexivity].
  apply processInRealTime_reads; assumption.
Qed.

Lemma processInRealTime_ignores_seeds_witness :
  JS.toLowerCase "Why does fusion occur?" = JS.toLowerCase "WHY does Fusion occur?"
  /\ String.length "Why does fusion occur?" = String.length "WHY does Fusion occur?"
  /\ fst (Runtime.processInRealTime "Why does fusion occur?"
            (Runtime.mk (fun s => s) (EngineSpec.constantWorld 0 "t")))
     = fst (Runtime.processInRealTime "WHY does Fusion occur?"
              (Runtime.mk (fun _ => "") (EngineSpec.constantWorld 7 "u")))
  /\ snd (Runtime.processInRealTime "Why does fusion occur?"
            (Runtime.mk (fun s => s) (EngineSpec.constantWorld 0 "t")))
     = Runtime.mk (fun s => s) (EngineSpec.constantWorld 0 "t").
Proof.
  split; [reflexivity|]. split; [reflexivity|].
  apply (processInRealTime_ignores_seeds
           (Runtime.mk (fun s => s) (EngineSpec.constantWorld 0 "t"))
           (Runtime.mk (fun _ => "") (EngineSpec.constantWorld 7 "u"))
           "Why does fusion occur?" "WHY does Fusion occur?"); reflexivity.
Defined.

Lemma processInRealTime_confidence_range (sha256hex : string -> string) (question : string) :
  0.5 <= confidence (processInRealTime sha256hex question) <= 0.99.
Proof.
  unfold processInRealTime. cbn [confidence]. unfold calculateOverallConfidence.
  split; [apply Q.min_glb; [lra | apply Q.le_max_l] | apply Q.le_min_l].
Qed.

End SelectorFacts.

(** * Properties of the Perspective Engine *)

Section EngineFacts.

Import Krang EngineSpec.
Local Open Scope Q_scope.

(** *** The context stack *)

Lemma labels_app (l1 l2 : list Context.t) : labels (l1 ++ l2) = (labels l1 ++ labels l2)%list.
Proof. apply map_app. Qed.

Lemma pushMentalContext_run (perspective : string) (level : Z) (s : State) :
  exists s', pushMentalContext perspective level s = (Returned tt, s')
    /\ labels (mentalContextStack (this s'))
       = (labels (mentalContextStack (this s)) ++ [(perspective, level)])%list.
Proof.
  eexists. split; [reflexivity|]. cbn. rewrite labels_app. reflexivity.
Qed.

Lemma resetMentalContext_run (s : State) :
  exists s', resetMentalContext s = (Returned tt, s')
    /\ labels (mentalContextStack (this s')) = [("meta"%string, 0%Z)].
Proof. eexists. split; reflexivity. Qed.

Lemma processProblemEntry_run (s : State) :
  exists s', processProblemEntry s = (Returned tt, s')
    /\ labels (mentalContextStack (this s'))
       = (labels (mentalContextStack (this s)) ++ [("meta"%string, 0%Z)])%list.
Proof.
  eexists. split; [reflexivity|]. cbn. rewrite labels_app. reflexivity.
Qed.

(** Whatever a [try] body does, the state left by [finally] is the one
    its cleanup leaves. *)
Lemma tryFinally_state {A : Type} (body : M A) (cleanup : M unit) (s : State)
      (good : State -> Prop) :
  (forall s1, good (snd (cleanup s1))) ->
  good (snd (tryFinally body cleanup s)).
Proof.
  intros H. unfold tryFinally. destruct (body s) as [r s1].
  specialize (H s1). destruct (cleanup s1) as [[u|e] s2]; exact H.
Qed.

Lemma processProblemWith_stack
      (analyze : Problem.t -> string -> M Perspective.t)
      (refine : Problem.t -> Perspective.t -> string -> M Perspective.t)
      (problem : Problem.t) (s : State) :
  labels (mentalContextStack (this (snd (processProblemWith analyze refine problem s))))
  = [("meta"%string, 0%Z)].
Proof.
  unfold processProblemWith, bind at 1.
  destruct (processProblemEntry_run s) as (s1 & -> & _).
  apply (tryFinally_state _ _ _
           (fun s' => labels (mentalContextStack (this s')) = [("meta"%string, 0%Z)])).
  intros s2. destruct (resetMentalContext_run s2) as (s3 & -> & H). exact H.
Qed.

(** C2 on the second call of a default instance: when the processing
    of the second problem starts, the stack is not the single root
    entry (it holds the root entry twice). *)
Lemma second_call_starts_with_two_roots :
  let s0 := fresh Config.empty (constantWorld 0 "t") in
  let s1 := snd (processProblem (problemOf "Why does fusion occur?") s0) in
  labels (mentalContextStack (this (snd (processProblemEntry s1))))
  <> [("meta"%string, 0%Z)].
Proof.
  intros s0 s1.
  destruct (processProblemEntry_run s1) as (s2 & E & H). rewrite E. cbn [snd]. rewrite H.
  unfold s1, processProblem. rewrite processProblemWith_stack. discriminate.
Qed.

(** C2. After [processProblem], whether it returns or throws and
    whatever the generators do, the context stack is the single root
    entry ("meta", 0); when the processing starts, the root entry has
    been pushed on top of the stack the call found, which is exactly the
    root entry on a fresh instance. *)
Theorem context_stack_reset
        (analyze : Problem.t -> string -> M Perspective.t)
        (refine : Problem.t -> Perspective.t -> string -> M Perspective.t)
        (problem : Problem.t) (s : State) :
  labels (mentalContextStack (this (snd (processProblemWith analyze refine problem s))))
  = [("meta"%string, 0%Z)]
  /\ labels (mentalContextStack (this (snd (processProblemEntry s))))
     = (labels (mentalContextStack (this s)) ++ [("meta"%string, 0%Z)])%list
  /\ (forall config w,
         labels (mentalContextStack (this (snd (processProblemEntry (fresh config w)))))
         = [("meta"%string, 0%Z)]).
Proof.
  split; [apply processProblemWith_stack|].
  split.
  - destruct (processProblemEntry_run s) as (s1 & -> & H). exact H.
  - intros config w. reflexivity.
Qed.

(** *** The density of the insight network *)

Lemma count_compare_zero (n : nat) :
  (inject_Z (Z.of_nat n) ?= 0) = if (0 <? n)%nat then Gt else Eq.
Proof.
  destruct n as [|n]; [reflexivity|].
  cbn [Nat.ltb Nat.leb]. rewrite <- Qgt_alt.
  change 0 with (inject_Z 0). rewrite <- Zlt_Qlt. lia.
Qed.

Lemma pairs_positive (n : nat) :
  (1 < n)%nat -> 0 < inject_Z (Z.of_nat n) * (inject_Z (Z.of_nat n) - 1).
Proof.
  intros Hn.
  assert (H1 : 1 < inject_Z (Z.of_nat n))
    by (change 1 with (inject_Z 1); rewrite <- Zlt_Qlt; lia).
  nra.
Qed.

(** What [calculateInsightNetworkComplexity] returns, by the number of
    source nodes. *)
Lemma calculateInsightNetworkComplexity_cases (s : State) :
  let n := size (insightNetwork (this s)) in
  let e := edgeCount (insightNetwork (this s)) in
  exists d,
    calculateInsightNetworkComplexity s = (Returned (NetworkSize.mk n e d), s)
    /\ ((1 < n)%nat ->
        d = JS.Fin (inject_Z (Z.of_nat e)
                    / (inject_Z (Z.of_nat n) * (inject_Z (Z.of_nat n) - 1))))
    /\ (n = 0%nat -> d = JS.Fin 0)
    /\ (n = 1%nat -> (0 < e)%nat -> d = JS.Infinity false)
    /\ (n = 1%nat -> e = 0%nat -> d = JS.NaN).
Proof.
  intros n e. eexists. split.
  { unfold calculateInsightNetworkComplexity, bind, gets, ret. destruct s; reflexivity. }
  fold n. fold (edgeCount (insightNetwork (this s))). fold e.
  split; [|split; [|split]].
  - intros Hn. replace (0 <? n)%nat with true by (symmetry; apply Nat.ltb_lt; lia).
    unfold JS.div, JS.ofNat. pose proof (pairs_positive n Hn) as Hp.
    apply Qgt_alt in Hp. rewrite Hp. reflexivity.
  - intros ->. reflexivity.
  - intros -> He. cbn. rewrite count_compare_zero.
    replace (0 <? e)%nat with true by (symmetry; apply Nat.ltb_lt; lia). reflexivity.
  - intros -> ->. reflexivity.
Qed.

(** C3 at the network of one source node and one edge that a single
    merge leaves on a fresh instance: the density is the quotient of 1
    by 0, positive infinity, where the guard was to yield 0. *)
Theorem density_of_single_node_network :
  fst (singleRefinement (problemOf "Why does fusion occur?")
                        (fresh Config.empty (constantWorld 0 "t")))
  = Returned (NetworkSize.mk 1 1 (JS.Infinity false)).
Proof. vm_compute. reflexivity. Qed.

(** *** The average over no perspectives *)

Lemma synthesizeResults_empty (problem : Problem.t) (s : State) :
  exists synthesis s',
    synthesizeResults [] problem s = (Returned synthesis, s')
    /\ Synthesis.confidence synthesis = JS.NaN.
Proof.
  destruct (calculateInsightNetworkComplexity_cases s) as (d & E & _).
  unfold synthesizeResults, bind at 1. rewrite E.
  eexists. eexists. split; reflexivity.
Qed.

Lemma calculateOverallConfidence_empty (complexity : Q) :
  0.5 <= RealtimeProcessor.calculateOverallConfidence [] complexity <= 0.99
  /\ (-2 <= complexity -> RealtimeProcessor.calculateOverallConfidence [] complexity == 0.5).
Proof.
  unfold RealtimeProcessor.calculateOverallConfidence. cbn [List.length Nat.ltb Nat.leb map].
  split; [apply clamp_range|].
  intros Hc. cbn [fold_left RealtimeProcessor.calculateVariance].
  assert (Ha : Qmax 0 (1 - 0 * 10) == 1) by (apply Q.max_r; lra).
  rewrite Ha. rewrite Q.max_l by lra. apply Q.min_r. lra.
Qed.

(** C4 on an instance configured with no perspective: the confidence
    of the synthesis, the mean over an empty list, is the quotient of 0
    by 0, NaN, and not 0 or another safe value. *)
Theorem confidence_of_no_perspectives :
  confidenceOf
    (fst (processProblem (problemOf "Why does fusion occur?")
                         (fresh (Config.mk None (Some [])) (constantWorld 0 "t"))))
  = Some JS.NaN.
Proof. vm_compute. reflexivity. Qed.

End EngineFacts.

(** * Total correctness of the Engine's computations *)

Section EngineLogic.

Import Krang EngineSpec.
Local Open Scope Q_scope.

Variable s0 : State.

Lemma agrees_refl : agrees s0 s0.
Proof. repeat split. Qed.

Lemma preserves_ret {A : Type} (a : A) (post : A -> Prop) :
  post a -> preserves s0 (ret a) post.
Proof. intros Ha s Hs. exists a, s. auto. Qed.

Lemma preserves_bind {A B : Type} (m : M A) (k : A -> M B)
      (mid : A -> Prop) (post : B -> Prop) :
  preserves s0 m mid ->
  (forall a, mid a -> preserves s0 (k a) post) ->
  preserves s0 (bind m k) post.
Proof.
  intros Hm Hk s Hs. destruct (Hm s Hs) as (a & s1 & E & H1 & Ha).
  unfold bind. rewrite E. exact (Hk a Ha s1 H1).
Qed.

Lemma preserves_weaken {A : Type} (m : M A) (post post' : A -> Prop) :
  preserves s0 m post -> (forall a, post a -> post' a) -> preserves s0 m post'.
Proof.
  intros Hm Hw s Hs. destruct (Hm s Hs) as (a & s1 & E & H1 & Ha).
  exists a, s1. auto.
Qed.

Lemma preserves_tryFinally {A : Type} (body : M A) (cleanup : M unit) (post : A -> Prop) :
  preserves s0 body post ->
  preserves s0 cleanup (fun _ => True) ->
  preserves s0 (tryFinally body cleanup) post.
Proof.
  intros Hb Hc s Hs. destruct (Hb s Hs) as (a & s1 & E & H1 & Ha).
  destruct (Hc s1 H1) as (u & s2 & E2 & H2 & _).
  unfold tryFinally. rewrite E, E2. exists a, s2. auto.
Qed.

(** A loop whose body keeps [inv] keeps it. *)
Lemma preserves_forOf {A B : Type} (l : list A) (body : B -> A -> M B) (inv : B -> Prop) :
  (forall acc x, In x l -> inv acc -> preserves s0 (body acc x) inv) ->
  forall acc, inv acc -> preserves s0 (forOf l body acc) inv.
Proof.
  induction l as [|x l IH]; intros Hbody acc Hacc; cbn [forOf].
  - apply preserves_ret, Hacc.
  - eapply preserves_bind.
    + apply Hbody; [left; reflexivity | exact Hacc].
    + intros acc' Hacc'. apply IH; [|exact Hacc'].
      intros a y Hy. apply Hbody. right. exact Hy.
Qed.

(** A loop that runs at least once and whose body turns [inv] into the
    stronger [inv'] ends in [inv']. *)
Lemma preserves_forOf_nonempty {A B : Type} (l : list A) (body : B -> A -> M B)
      (inv inv' : B -> Prop) :
  l <> [] ->
  (forall acc, inv' acc -> inv acc) ->
  (forall acc x, In x l -> inv acc -> preserves s0 (body acc x) inv') ->
  forall acc, inv acc -> preserves s0 (forOf l body acc) inv'.
Proof.
  intros Hne Hw Hbody acc Hacc. destruct l as [|x l]; [congruence|].
  cbn [forOf]. eapply preserves_bind.
  - apply Hbody; [left; reflexivity | exact Hacc].
  - intros acc' Hacc'. apply preserves_forOf; [|exact Hacc'].
    intros a y Hy Ha. apply Hbody; [right; exact Hy | apply Hw, Ha].
Qed.

(** A loop whose body takes the [i]-th invariant to the next one ends
    in the invariant of the length of the list. *)
Lemma preserves_forOf_indexed {A B : Type} (l : list A) (body : B -> A -> M B)
      (inv : nat -> B -> Prop) :
  (forall i acc x, In x l -> inv i acc -> preserves s0 (body acc x) (inv (S i))) ->
  forall i acc, inv i acc -> preserves s0 (forOf l body acc) (inv (i + List.length l)%nat).
Proof.
  induction l as [|x l IH]; intros Hbody i acc Hacc; cbn [forOf List.length].
  - rewrite Nat.add_0_r. apply preserves_ret, Hacc.
  - eapply preserves_bind.
    + apply (Hbody i); [left; reflexivity | exact Hacc].
    + intros acc' Hacc'. rewrite Nat.add_succ_r.
      apply (IH ltac:(intros j a y Hy; apply Hbody; right; exact Hy) (S i) acc' Hacc').
Qed.

(** *** The primitive operations *)

Lemma preserves_gets {A : Type} (f : KrangCore -> A) :
  preserves s0 (gets f) (fun _ => True).
Proof. intros s Hs. exists (f (this s)), s. auto. Qed.

Lemma preserves_beliefLevels :
  preserves s0 (gets beliefLevels) (fun levels => levels = beliefLevels (this s0)).
Proof. intros s Hs. exists (beliefLevels (this s)), s. repeat split; apply Hs. Qed.

Lemma preserves_getCompatiblePerspectives (perspective : string) :
  preserves s0 (getCompatiblePerspectives perspective)
    (fun l => l = List.filter (fun p => negb (String.eqb p perspective))
                              (primaryPerspectives (this s0))).
Proof.
  intros s Hs. eexists. exists s. split; [reflexivity|]. split; [exact Hs|].
  cbn. destruct Hs as (_ & -> & _). reflexivity.
Qed.

Lemma preserves_modify (f : KrangCore -> KrangCore) :
  (forall c, beliefLevels (f c) = beliefLevels c
             /\ primaryPerspectives (f c) = primaryPerspectives c
             /\ performanceMetrics (f c) = performanceMetrics c) ->
  preserves s0 (modify f) (fun _ => True).
Proof.
  intros Hf s (H1 & H2 & H3 & H4). exists tt. eexists. split; [reflexivity|].
  destruct (Hf (this s)) as (F1 & F2 & F3). unfold agrees. cbn [this world].
  repeat split; congruence.
Qed.

Lemma preserves_Date_now : preserves s0 Date_now (fun _ => True).
Proof.
  intros s (H1 & H2 & H3 & H4). eexists. eexists. split; [reflexivity|].
  repeat split; assumption.
Qed.

Lemma drawValue_range (k : N) : 0 <= drawValue k /\ drawValue k < 1.
Proof.
  unfold drawValue, Qle, Qlt. cbn [Qnum Qden].
  pose proof (N.mod_upper_bound k (2 ^ 53) ltac:(discriminate)) as H.
  revert H. generalize (k mod 2 ^ 53)%N. intros n.
  change (2 ^ 53)%N with 9007199254740992%N.
  change (2 ^ 53)%positive with 9007199254740992%positive. lia.
Qed.

Section Draws.

Variable rho : Q.
Hypothesis draws : drawsAtLeast rho s0.

Lemma preserves_Math_random :
  preserves s0 Math_random (fun r => rho <= r /\ r < 1).
Proof.
  intros s (H1 & H2 & H3 & H4). eexists. eexists. split; [reflexivity|].
  split; [repeat split; assumption|].
  cbn [world]. rewrite H4. split; [apply draws | apply drawValue_range].
Qed.

End Draws.

Lemma preserves_pushMentalContext (perspective : string) (level : Z) :
  preserves s0 (pushMentalContext perspective level) (fun _ => True).
Proof.
  unfold pushMentalContext. eapply preserves_bind; [apply preserves_Date_now|].
  intros activated _. apply preserves_modify. intros c. repeat split.
Qed.

Lemma preserves_popMentalContext : preserves s0 popMentalContext (fun _ => True).
Proof. apply preserves_modify. intros c. repeat split. Qed.

Lemma preserves_getCurrentMentalContext :
  preserves s0 getCurrentMentalContext (fun _ => True).
Proof.
  unfold getCurrentMentalContext. eapply preserves_bind; [apply preserves_gets|].
  intros [|top rest] _.
  - eapply preserves_bind; [apply preserves_Date_now|]. intros. apply preserves_ret. exact I.
  - apply preserves_ret. exact I.
Qed.

Lemma preserves_resetMentalContext : preserves s0 resetMentalContext (fun _ => True).
Proof.
  unfold resetMentalContext. eapply preserves_bind.
  - apply preserves_modify. intros c. repeat split.
  - intros _ _. apply preserves_pushMentalContext.
Qed.

Lemma preserves_activatePerspective (perspective : string) (weight : Q) :
  preserves s0 (activatePerspective perspective weight) (fun _ => True).
Proof. apply preserves_modify. intros c. repeat split. Qed.

Lemma preserves_deactivatePerspective (perspective : string) :
  preserves s0 (deactivatePerspective perspective) (fun _ => True).
Proof. apply preserves_modify. intros c. repeat split. Qed.

Lemma preserves_resetPerspectives : preserves s0 resetPerspectives (fun _ => True).
Proof. apply preserves_modify. intros c. repeat split. Qed.

End EngineLogic.

(** * The confidence the Engine returns *)

Section EngineConfidence.

Import Krang EngineSpec.
Local Open Scope Q_scope.

Variable s0 : State.
Variable rho : Q.
Hypothesis rho_nonneg : 0 <= rho.
Hypothesis draws : drawsAtLeast rho s0.

Lemma baseFloor_positive : 0.85 <= baseFloor rho.
Proof. unfold baseFloor. lra. Qed.

Lemma boostBound_ge_1 (n : nat) : 1 <= boostBound n.
Proof. induction n as [|n IH]; cbn [boostBound]; lra. Qed.

Lemma boostBound_monotone (m n : nat) : (m <= n)%nat -> boostBound m <= boostBound n.
Proof.
  induction 1 as [|n Hle IH]; [lra|].
  cbn [boostBound]. pose proof (boostBound_ge_1 n). lra.
Qed.

Lemma analyze_confidence (problem : Problem.t) (perspective : string) :
  preserves s0 (analyzeProblemFromPerspective problem perspective)
            (confidenceWithin (baseFloor rho) 1).
Proof.
  unfold analyzeProblemFromPerspective.
  eapply preserves_bind; [apply preserves_getCurrentMentalContext|]. intros ctx _. cbv zeta.
  eapply preserves_bind; [apply (preserves_Math_random s0 rho draws)|]. intros id _.
  eapply preserves_bind; [apply (preserves_Math_random s0 rho draws)|]. intros r [Hr Hr1].
  apply preserves_ret. eexists. split; [reflexivity|]. unfold baseFloor. lra.
Qed.

(** A refinement multiplies the confidence of its base by a factor in
    the range of the analysis. *)
Lemma refine_confidence (problem : Problem.t) (base : Perspective.t) (x : string) (c : Q) :
  Perspective.confidence base = JS.Fin c ->
  preserves s0 (refineAnalysis problem base x)
            (fun r => exists f, Perspective.confidence r = JS.Fin (c * f)
                                /\ baseFloor rho <= f /\ f < 1).
Proof.
  intros Hc. unfold refineAnalysis.
  eapply preserves_bind; [apply preserves_getCurrentMentalContext|]. intros ctx _. cbv zeta.
  eapply preserves_bind; [apply (preserves_Math_random s0 rho draws)|]. intros id _.
  eapply preserves_bind; [apply (preserves_Math_random s0 rho draws)|]. intros r [Hr Hr1].
  apply preserves_ret. exists (0.85 + r * 0.15). cbn [Perspective.confidence]. rewrite Hc.
  split; [reflexivity|]. unfold baseFloor. lra.
Qed.

Lemma integrate_confidence (base refined : Perspective.t) (c c' : Q) :
  Perspective.confidence base = JS.Fin c ->
  Perspective.confidence refined = JS.Fin c' ->
  preserves s0 (integrateRefinedInsights base refined)
            (fun b => Perspective.confidence b = JS.Fin (Qmax c (c' * 1.1))).
Proof.
  intros Hc Hc'. unfold integrateRefinedInsights.
  eapply preserves_bind; [apply preserves_modify; intros k; repeat split|]. intros _ _.
  apply preserves_ret. cbn [Perspective.confidence]. rewrite Hc, Hc'. reflexivity.
Qed.

Lemma tertiaryStep_finite (problem : Problem.t) (refined : Perspective.t) (x : string) :
  isFinite refined ->
  preserves s0 (tertiaryStep refineAnalysis problem refined x) isFinite.
Proof.
  intros [c Hc]. unfold tertiaryStep.
  eapply preserves_bind; [apply preserves_pushMentalContext|]. intros _ _.
  apply preserves_tryFinally; [|apply preserves_popMentalContext].
  eapply preserves_bind; [apply (refine_confidence _ _ _ c Hc)|]. intros deep (f & Hf & _).
  eapply preserves_weaken; [apply (integrate_confidence _ _ _ _ Hc Hf)|].
  intros b Hb. eexists. exact Hb.
Qed.

(** One secondary refinement never lowers the confidence of the base,
    lifts it to at least [1.1 * baseFloor rho] times what it was, and to
    at most 1.1 times what it was. *)
Lemma secondaryStep_confidence (problem : Problem.t) (base : Perspective.t) (x : string) (c : Q) :
  Perspective.confidence base = JS.Fin c -> 0 <= c ->
  preserves s0 (secondaryStep refineAnalysis problem base x)
            (fun b => exists c', Perspective.confidence b = JS.Fin c'
                                 /\ c <= c' /\ 1.1 * baseFloor rho * c <= c'
                                 /\ c' <= 1.1 * c).
Proof.
  intros Hc Hpos. pose proof baseFloor_positive as Ha. unfold secondaryStep.
  eapply preserves_bind; [apply preserves_pushMentalContext|]. intros _ _.
  apply preserves_tryFinally; [|apply preserves_popMentalContext].
  eapply preserves_bind; [apply (refine_confidence _ _ _ c Hc)|].
  intros refined (f & Hf & Hfa & Hf1).
  eapply preserves_bind; [apply (integrate_confidence _ _ _ _ Hc Hf)|]. intros b Hb.
  assert (Hpost : exists c', Perspective.confidence b = JS.Fin c'
                             /\ c <= c' /\ 1.1 * baseFloor rho * c <= c'
                             /\ c' <= 1.1 * c).
  { eexists. split; [exact Hb|]. split; [apply Q.le_max_l|]. split.
    - eapply Qle_trans; [|apply Q.le_max_r]. nra.
    - apply Q.max_lub; nra. }
  eapply preserves_bind; [apply preserves_beliefLevels|]. intros levels _.
  destruct (JS.Qltb 2 levels).
  - eapply preserves_bind; [apply preserves_getCompatiblePerspectives|]. intros l _.
    eapply preserves_bind.
    + apply (preserves_forOf s0 l _ isFinite).
      * intros acc y _ Hacc. apply tertiaryStep_finite, Hacc.
      * eexists. exact Hf.
    + intros refined' _. apply preserves_ret. exact Hpost.
  - apply preserves_ret. exact Hpost.
Qed.

Lemma hasOther_filter (perspectives : list string) (x : string) :
  hasOther perspectives x = true ->
  List.filter (fun p => negb (String.eqb p x)) perspectives <> [].
Proof. unfold hasOther. destruct (List.filter _ _); [discriminate|discriminate]. Qed.

(** The other perspectives are fewer than the perspectives. *)
Lemma others_length (perspectives : list string) (x : string) :
  In x perspectives ->
  (List.length (List.filter (fun p => negb (String.eqb p x)) perspectives)
   <= Nat.pred (List.length perspectives))%nat.
Proof.
  induction perspectives as [|p perspectives IH]; intros Hin; [destruct Hin|].
  cbn [List.filter List.length Nat.pred].
  destruct (String.eqb p x) eqn:E; cbn [negb].
  - apply List.filter_length_le.
  - destruct Hin as [->|Hin]; [rewrite String.eqb_refl in E; discriminate|].
    specialize (IH Hin). cbn [List.length]. destruct perspectives; [destruct Hin|].
    cbn [List.length Nat.pred] in *. lia.
Qed.

(** The secondary loop, by the number of refinements made. *)
Lemma secondaryLoop_confidence (problem : Problem.t) (l : list string)
      (base : Perspective.t) :
  confidenceWithin (baseFloor rho) 1 base ->
  preserves s0 (forOf l (secondaryStep refineAnalysis problem) base)
            (fun b => exists c, Perspective.confidence b = JS.Fin c
                                /\ baseFloor rho <= c
                                /\ c <= boostBound (List.length l)
                                /\ (l <> [] -> 1.1 * baseFloor rho * baseFloor rho <= c)).
Proof.
  intros (c & Hc & Hlo & Hhi). pose proof baseFloor_positive as Ha.
  eapply preserves_weaken.
  - apply preserves_forOf_indexed
      with (i := 0%nat)
           (inv := fun i b =>
                     exists c, Perspective.confidence b = JS.Fin c
                               /\ baseFloor rho <= c
                               /\ c <= boostBound i
                               /\ ((0 < i)%nat -> 1.1 * baseFloor rho * baseFloor rho <= c)).
    + intros i acc y _ (c' & Hc' & Hlo' & Hhi' & _).
      eapply preserves_weaken; [apply (secondaryStep_confidence _ _ _ c' Hc'); lra|].
      intros b (c'' & Hc'' & Hge & Hboost & Hle). exists c''.
      split; [exact Hc''|]. split; [lra|]. split; [cbn [boostBound]; lra|].
      intros _. nra.
    + exists c. split; [exact Hc|]. split; [exact Hlo|]. split; [exact Hhi|]. lia.
  - cbn [Nat.add]. intros b (c' & Hc' & Hlo' & Hhi' & Hb). exists c'.
    split; [exact Hc'|]. split; [exact Hlo'|]. split; [exact Hhi'|].
    intros Hne. apply Hb. destruct l; [congruence|cbn; lia].
Qed.

Lemma primaryStep_confidence (problem : Problem.t) (results : list Perspective.t) (x : string) :
  In x (primaryPerspectives (this s0)) ->
  Forall (settled (baseFloor rho) (ceiling s0) (boosted s0)) results ->
  preserves s0 (primaryStep analyzeProblemFromPerspective refineAnalysis problem results x)
            (fun rs => Forall (settled (baseFloor rho) (ceiling s0) (boosted s0)) rs
                       /\ rs <> []).
Proof.
  intros Hx Hres. pose proof baseFloor_positive as Ha. unfold primaryStep.
  eapply preserves_bind; [apply preserves_activatePerspective|]. intros _ _.
  eapply preserves_bind; [apply preserves_pushMentalContext|]. intros _ _.
  apply preserves_tryFinally.
  2:{ eapply preserves_bind; [apply preserves_popMentalContext|]. intros _ _.
      apply preserves_deactivatePerspective. }
  eapply preserves_bind; [apply analyze_confidence|]. intros base Hbase.
  eapply preserves_bind; [apply preserves_beliefLevels|]. intros levels ->.
  eapply preserves_bind with (mid := settled (baseFloor rho) (ceiling s0) (boosted s0)).
  2:{ intros b Hb. apply preserves_ret. split.
      - apply Forall_app. split; [exact Hres|]. constructor; [exact Hb|constructor].
      - intros E. apply app_eq_nil in E. destruct E as [_ E]. discriminate. }
  destruct (JS.Qltb 1 (beliefLevels (this s0))) eqn:Elevels.
  - eapply preserves_bind; [apply preserves_getCompatiblePerspectives|]. intros l ->.
    eapply preserves_weaken; [apply secondaryLoop_confidence, Hbase|].
    intros b (c & Hc & Hlo & Hhi & Hb). exists c.
    split; [exact Hc|]. split; [exact Hlo|]. split.
    + eapply Qle_trans; [exact Hhi|]. apply boostBound_monotone, others_length, Hx.
    + intros Eboost. apply Hb, hasOther_filter. unfold boosted in Eboost.
      apply andb_prop in Eboost. destruct Eboost as [_ Eall].
      rewrite forallb_forall in Eall. apply Eall, Hx.
  - apply preserves_ret. destruct Hbase as (c & Hc & Hlo & Hhi). exists c.
    split; [exact Hc|]. split; [exact Hlo|]. split.
    + pose proof (boostBound_ge_1 (Nat.pred (List.length (primaryPerspectives (this s0))))).
      unfold ceiling. lra.
    + unfold boosted. rewrite Elevels. discriminate.
Qed.

End EngineConfidence.

(** * One call of [processProblem] *)

Section EngineCall.

Import Krang EngineSpec.
Local Open Scope Q_scope.

(** The sum of the confidences of perspectives that all lie between
    [lo] and [hi]. *)
Lemma confidence_sum_within (lo hi : Q) (results : list Perspective.t) (acc : Q) :
  Forall (confidenceWithin lo hi) results ->
  exists t,
    fold_left (fun sum result => JS.add sum (Perspective.confidence result))
              results (JS.Fin acc) = JS.Fin t
    /\ acc + lo * inject_Z (Z.of_nat (List.length results)) <= t
    /\ t <= acc + hi * inject_Z (Z.of_nat (List.length results)).
Proof.
  intros H. revert acc. induction H as [|r results (c & Hc & Hlo & Hhi) _ IH]; intros acc.
  - exists acc. split; [reflexivity|]. cbn [List.length].
    change (inject_Z (Z.of_nat 0)) with 0. lra.
  - cbn [fold_left]. rewrite Hc. cbn [JS.add].
    destruct (IH (acc + c)) as (t & Ht & Hle & Hge). exists t. split; [exact Ht|].
    cbn [List.length]. rewrite Nat2Z.inj_succ, <- Z.add_1_r, inject_Z_plus.
    change (inject_Z 1) with 1. nra.
Qed.

Lemma div_by_count (t : Q) (n : nat) :
  (0 < n)%nat -> JS.div (JS.Fin t) (JS.ofNat n) = JS.Fin (t / inject_Z (Z.of_nat n)).
Proof.
  intros Hn. unfold JS.div, JS.ofNat. rewrite count_compare_zero.
  replace (0 <? n)%nat with true by (symmetry; apply Nat.ltb_lt; exact Hn). reflexivity.
Qed.

(** The mean of confidences between [lo] and [hi] lies between them. *)
Lemma mean_confidence_within (lo hi : Q) (results : list Perspective.t) :
  results <> [] ->
  Forall (confidenceWithin lo hi) results ->
  exists c,
    JS.div (fold_left (fun sum result => JS.add sum (Perspective.confidence result))
                      results (JS.Fin 0))
           (JS.ofNat (List.length results)) = JS.Fin c
    /\ lo <= c /\ c <= hi.
Proof.
  intros Hne H. destruct (confidence_sum_within lo hi results 0 H) as (t & -> & Hle & Hge).
  assert (Hn : (0 < List.length results)%nat) by (destruct results; [congruence|cbn; lia]).
  rewrite div_by_count by exact Hn. eexists. split; [reflexivity|].
  assert (Hq : 0 < inject_Z (Z.of_nat (List.length results)))
    by (change 0 with (inject_Z 0); rewrite <- Zlt_Qlt; lia).
  split; [apply Qle_shift_div_l | apply Qle_shift_div_r]; try exact Hq; lra.
Qed.

Lemma settled_within (lo hi : Q) (boost : bool) (results : list Perspective.t) :
  Forall (settled lo hi boost) results -> Forall (confidenceWithin lo hi) results.
Proof.
  apply List.Forall_impl. intros p (c & Hc & Hlo & Hhi & _). exists c. auto.
Qed.

Lemma settled_boost (lo hi : Q) (results : list Perspective.t) :
  Forall (settled lo hi true) results ->
  Forall (confidenceWithin (1.1 * lo * lo) hi) results.
Proof.
  apply List.Forall_impl. intros p (c & Hc & _ & Hhi & Hb). exists c. auto.
Qed.

Variable s0 : State.
Variable rho : Q.
Hypothesis rho_nonneg : 0 <= rho.
Hypothesis draws : drawsAtLeast rho s0.
Hypothesis perspectives : primaryPerspectives (this s0) <> [].

Lemma synthesizeResults_confidence (results : list Perspective.t) (problem : Problem.t) :
  results <> [] ->
  Forall (settled (baseFloor rho) (ceiling s0) (boosted s0)) results ->
  preserves s0 (synthesizeResults results problem)
            (fun synthesis =>
               exists c, Synthesis.confidence synthesis = JS.Fin c
                         /\ baseFloor rho <= c
                         /\ c <= ceiling s0
                         /\ (boosted s0 = true -> 1.1 * baseFloor rho * baseFloor rho <= c)).
Proof.
  intros Hne Hres. unfold synthesizeResults.
  eapply preserves_bind with (mid := fun _ => True).
  { unfold calculateInsightNetworkComplexity. eapply preserves_bind; [apply preserves_gets|].
    intros network _. apply preserves_ret. exact I. }
  intros networkSize _.
  eapply preserves_bind with (mid := fun _ => True).
  { unfold calculateConsilienceScore.
    eapply preserves_bind; [apply (preserves_Math_random s0 rho draws)|].
    intros r _. apply preserves_ret. exact I. }
  intros consilienceScore _. apply preserves_ret. cbn [Synthesis.confidence].
  destruct (mean_confidence_within _ _ results Hne (settled_within _ _ _ _ Hres))
    as (c & Hc & Hlo & Hhi).
  exists c. split; [exact Hc|]. split; [exact Hlo|]. split; [exact Hhi|].
  intros Hb. rewrite Hb in Hres.
  destruct (mean_confidence_within _ _ results Hne (settled_boost _ _ _ Hres))
    as (c' & Hc' & Hlo' & _).
  rewrite Hc in Hc'. injection Hc' as <-. exact Hlo'.
Qed.

Lemma primaryLoop_confidence (problem : Problem.t) :
  preserves s0
    (forOf (primaryPerspectives (this s0))
           (primaryStep analyzeProblemFromPerspective refineAnalysis problem) [])
    (fun rs => Forall (settled (baseFloor rho) (ceiling s0) (boosted s0)) rs /\ rs <> []).
Proof.
  apply (preserves_forOf_nonempty
           s0 _ _ (Forall (settled (baseFloor rho) (ceiling s0) (boosted s0)))).
  - exact perspectives.
  - intros acc [H _]. exact H.
  - intros acc x Hx Hacc. apply (primaryStep_confidence s0 rho); assumption.
  - constructor.
Qed.

(** What one call of [processProblem] returns and leaves, from a state
    that agrees with [s0]. *)
Lemma processProblem_call (problem : Problem.t) (s : State) :
  agrees s0 s ->
  exists result s' c,
    processProblem problem s = (Returned result, s')
    /\ beliefLevels (this s') = beliefLevels (this s0)
    /\ primaryPerspectives (this s') = primaryPerspectives (this s0)
    /\ randomDraws (world s') = randomDraws (world s0)
    /\ Result.confidence result = JS.Fin c
    /\ baseFloor rho <= c
    /\ c <= ceiling s0
    /\ (boosted s0 = true -> 1.1 * baseFloor rho * baseFloor rho <= c)
    /\ Metrics.problemsSolved (performanceMetrics (this s'))
       = S (Metrics.problemsSolved (performanceMetrics (this s0)))
    /\ Metrics.averageConfidence (performanceMetrics (this s'))
       = nextAverage (performanceMetrics (this s0)) (JS.Fin c).
Proof.
  intros Hs.
  assert (Hentry : preserves s0 processProblemEntry (fun _ => True)).
  { unfold processProblemEntry.
    eapply preserves_bind; [apply preserves_resetPerspectives|]. intros _ _.
    apply preserves_pushMentalContext. }
  destruct (Hentry s Hs) as (u & s1 & E1 & H1 & _).
  destruct (primaryLoop_confidence problem s1 H1) as (results & s2 & E2 & H2 & Hres & Hne).
  destruct (synthesizeResults_confidence results problem Hne Hres s2 H2)
    as (synthesis & s3 & E3 & H3 & c & Hc & Hlo & Hhi & Hboost).
  unfold processProblem, processProblemWith.
  unfold bind at 1. rewrite E1.
  unfold tryFinally, bind at 1, gets at 1.
  destruct H1 as (B1 & P1 & M1 & D1). rewrite P1.
  unfold bind at 1. rewrite E2.
  unfold bind at 1. rewrite E3.
  destruct H3 as (B3 & P3 & M3 & D3).
  eexists. eexists. exists c. split; [reflexivity|].
  cbn. rewrite B3, P3, M3, D3, Hc.
  repeat split; try assumption; try reflexivity.
  unfold nextAverage. rewrite Nat.sub_0_r. reflexivity.
Qed.

End EngineCall.

(** * The confidence returned and the running mean *)

Section EngineResults.

Import Krang EngineSpec.
Local Open Scope Q_scope.

Lemma draws_nonnegative (s : State) : drawsAtLeast 0 s.
Proof. intros n. apply drawValue_range. Qed.

Lemma nonempty_of_length {A : Type} (l : list A) : (0 < List.length l)%nat -> l <> [].
Proof. destruct l; cbn; [lia|discriminate]. Qed.


(** The ceiling of an instance with the 15 default perspectives is
    1.1 ^ 14, less than 3.8. *)
Lemma default_ceiling (config : Config.t) (w : World) :
  Config.primaryPerspectives config = None ->
  ceiling (fresh config w) == 1.1 ^ 14 /\ ceiling (fresh config w) < 3.8.
Proof.
  intros E. unfold ceiling, fresh, constructor. cbn [this primaryPerspectives]. rewrite E.
  split; vm_compute; reflexivity.
Qed.




(** *** The running mean *)

Lemma nextAverage_finite (metrics : Metrics.t) (average c : Q) :
  Metrics.averageConfidence metrics = JS.Fin average ->
  nextAverage metrics (JS.Fin c)
  = JS.Fin ((average * inject_Z (Z.of_nat (Metrics.problemsSolved metrics)) + c)
            / inject_Z (Z.of_nat (S (Metrics.problemsSolved metrics)))).
Proof.
  intros Ha. unfold nextAverage. rewrite Ha. cbn [JS.mul JS.ofNat JS.add].
  apply (div_by_count _ (S (Metrics.problemsSolved metrics))). lia.
Qed.

Lemma count_succ (n : nat) : inject_Z (Z.of_nat (S n)) == inject_Z (Z.of_nat n) + 1.
Proof. rewrite Nat2Z.inj_succ, <- Z.add_1_r, inject_Z_plus. reflexivity. Qed.

(** The update [newAvg = (oldAvg * (n - 1) + c) / n] keeps the average
    times the count equal to the sum of the samples. *)
Lemma processAll_running_sum (problems : list Problem.t) :
  forall (s : State) (average total : Q),
    (0 < List.length (primaryPerspectives (this s)))%nat ->
    Metrics.averageConfidence (performanceMetrics (this s)) = JS.Fin average ->
    average * inject_Z (Z.of_nat (Metrics.problemsSolved (performanceMetrics (this s))))
    == total ->
    exists results s' confidences average',
      processAll problems s = (Returned results, s')
      /\ map Result.confidence results = map JS.Fin confidences
      /\ List.length confidences = List.length problems
      /\ Metrics.problemsSolved (performanceMetrics (this s'))
         = (Metrics.problemsSolved (performanceMetrics (this s)) + List.length problems)%nat
      /\ Metrics.averageConfidence (performanceMetrics (this s')) = JS.Fin average'
      /\ average' * inject_Z (Z.of_nat (Metrics.problemsSolved (performanceMetrics (this s'))))
         == total + SelectorSpec.total confidences.
Proof.
  induction problems as [|problem problems IH]; intros s average total Hne Havg Hsum.
  - exists [], s, [], average. cbn [processAll ret map List.length SelectorSpec.total].
    split; [reflexivity|]. split; [reflexivity|]. split; [reflexivity|].
    split; [lia|]. split; [exact Havg|]. rewrite Hsum. lra.
  - destruct (processProblem_call s 0 ltac:(lra) (draws_nonnegative s)
                (nonempty_of_length _ Hne) problem s (agrees_refl s))
      as (result & s1 & c & E & _ & HP & _ & Hc & _ & _ & _ & Hn & Ha).
    rewrite (nextAverage_finite _ average c Havg) in Ha.
    set (n := Metrics.problemsSolved (performanceMetrics (this s))) in *.
    destruct (IH s1 _ (total + c) ltac:(rewrite HP; exact Hne) Ha)
      as (results & s' & confidences & average' & E' & Hmap & Hlen & Hn' & Ha' & Hsum').
    { rewrite Hn. rewrite (count_succ n). rewrite <- Hsum.
      assert (Hq : 0 <= inject_Z (Z.of_nat n)) by apply count_nonneg. field. lra. }
    exists (result :: results), s', (c :: confidences), average'.
    cbn [processAll]. unfold bind at 1. rewrite E. unfold bind at 1. rewrite E'.
    cbn [ret map List.length SelectorSpec.total].
    split; [reflexivity|]. split; [rewrite Hc, Hmap; reflexivity|].
    split; [rewrite Hlen; reflexivity|]. split; [rewrite Hn', Hn; lia|].
    split; [exact Ha'|]. rewrite Hsum'. lra.
Qed.

(** C7. After a fresh instance with at least one perspective has
    processed N problems in sequence, [problemsSolved] is N and
    [averageConfidence] is the arithmetic mean of the N confidences
    returned. *)
Theorem running_mean (config : Config.t) (w : World) (problems : list Problem.t) :
  (0 < List.length (primaryPerspectives (constructor config)))%nat ->
  exists results s' confidences average,
    processAll problems (fresh config w) = (Returned results, s')
    /\ map Result.confidence results = map JS.Fin confidences
    /\ List.length results = List.length problems
    /\ Metrics.problemsSolved (performanceMetrics (this s')) = List.length problems
    /\ Metrics.averageConfidence (performanceMetrics (this s')) = JS.Fin average
    /\ average == SelectorSpec.mean confidences.
Proof.
  intros Hne. destruct problems as [|problem problems].
  { exists [], (fresh config w), [], 0. repeat split; reflexivity. }
  set (all := problem :: problems).
  destruct (processAll_running_sum all (fresh config w) 0 0 Hne eq_refl (Qmult_0_l _))
    as (results & s' & confidences & average & E & Hmap & Hlen & Hn & Ha & Hsum).
  cbn [fresh this constructor performanceMetrics Metrics.problemsSolved Nat.add] in Hn.
  exists results, s', confidences, average.
  split; [exact E|]. split; [exact Hmap|].
  split; [rewrite <- Hlen, <- (length_map Result.confidence), Hmap, length_map; reflexivity|].
  split; [exact Hn|]. split; [exact Ha|].
  rewrite Hn, <- Hlen, Qplus_0_l in Hsum. unfold SelectorSpec.mean.
  destruct confidences as [|c confidences]; [discriminate Hlen|].
  set (l := c :: confidences) in *.
  assert (HN : 0 < inject_Z (Z.of_nat (List.length l)))
    by (change 0 with (inject_Z 0); rewrite <- Zlt_Qlt; subst l; cbn [List.length]; lia).
  rewrite <- Hsum. field. lra.
Qed.

Lemma running_mean_witness :
  (0 < List.length (primaryPerspectives (constructor Config.empty)))%nat
  /\ exists results s' confidences average,
       processAll [problemOf "Why does fusion occur?"; problemOf "What is fusion?"]
                  (fresh Config.empty (constantWorld 0 "t"))
       = (Returned results, s')
       /\ map Result.confidence results = map JS.Fin confidences
       /\ List.length results = 2%nat
       /\ Metrics.problemsSolved (performanceMetrics (this s')) = 2%nat
       /\ Metrics.averageConfidence (performanceMetrics (this s')) = JS.Fin average
       /\ average == SelectorSpec.mean confidences.
Proof.
  split; [simpl; lia|].
  apply (running_mean Config.empty (constantWorld 0 "t")
                      [problemOf "Why does fusion occur?"; problemOf "What is fusion?"]).
  simpl. lia.
Defined.

End EngineResults.

(** * Further properties of the Realtime Selector *)

Section SelectorMore.

Import RealtimeProcessor.
Local Open Scope Q_scope.

(** *** Complexity and the number of perspectives *)

Lemma termComplexity_nonneg (question : string) (terms : list string) (acc : Q) :
  0 <= acc ->
  0 <= fold_left (fun acc term =>
                    if JS.includes (JS.toLowerCase question) term
                    then acc + 0.05 else acc)
                 terms acc.
Proof.
  revert acc. induction terms as [|term terms IH]; intros acc Hacc; cbn [fold_left].
  - exact Hacc.
  - apply IH. destruct (JS.includes _ term); lra.
Qed.

Lemma calculateComplexity_range0 (question : string) : 0 <= calculateComplexity question.
Proof.
  unfold calculateComplexity. cbv zeta.
  apply Q.min_glb; [lra|].
  assert (Hl : 0 <= Qmin 0.5 (JS.lengthQ question / 1000))
    by (apply Q.min_glb; [lra | apply ratio_nonneg; lra]).
  pose proof (termComplexity_nonneg question complexTerms 0 ltac:(lra)) as Ht.
  lra.
Qed.

(** X1. The complexity of every question lies between 0 and 0.95. *)
Theorem calculateComplexity_range (question : string) :
  0 <= calculateComplexity question <= 0.95.
Proof.
  split; [apply calculateComplexity_range0|].
  unfold calculateComplexity. apply Q.le_min_l.
Qed.

Lemma determineOptimalPerspectiveCount_values (complexity : Q) :
  In (determineOptimalPerspectiveCount complexity) [2; 3; 5; 8]%nat.
Proof.
  unfold determineOptimalPerspectiveCount.
  destruct (JS.Qltb complexity 0.3); [left; reflexivity|].
  destruct (JS.Qltb complexity 0.6); [right; left; reflexivity|].
  destruct (JS.Qltb complexity 0.8); [right; right; left; reflexivity|].
  right; right; right; left; reflexivity.
Qed.

Lemma domainExperts_NoDup : List.NoDup domainExperts.
Proof.
  unfold domainExperts.
  repeat (apply List.NoDup_cons; [cbn [In]; intuition discriminate|]).
  apply List.NoDup_nil.
Qed.

Lemma firstn_NoDup {X : Type} (n : nat) (l : list X) :
  List.NoDup l -> List.NoDup (firstn n l).
Proof.
  intros H. rewrite <- (firstn_skipn n l) in H. apply List.NoDup_app_remove_r in H. exact H.
Qed.

Lemma firstn_incl {X : Type} (n : nat) (l : list X) : incl (firstn n l) l.
Proof.
  intros x Hx. rewrite <- (firstn_skipn n l). apply in_or_app. left. exact Hx.
Qed.

(** X2. [processInRealTime] selects 2, 3, 5 or 8 experts, the number the
    complexity of the question asks for; they are distinct experts of
    the fixed list, and the log has one line for each of them and four
    more. *)
Theorem selection_size (sha256hex : string -> string) (question : string) :
  let answer := processInRealTime sha256hex question in
  List.length (perspectives answer)
  = determineOptimalPerspectiveCount (calculateComplexity question)
  /\ In (List.length (perspectives answer)) [2; 3; 5; 8]%nat
  /\ List.NoDup (perspectives answer)
  /\ incl (perspectives answer) domainExperts
  /\ List.length (processingSteps answer) = (List.length (perspectives answer) + 4)%nat.
Proof.
  cbv zeta. unfold processInRealTime. cbn [perspectives processingSteps].
  set (count := determineOptimalPerspectiveCount (calculateComplexity question)).
  pose proof (determineOptimalPerspectiveCount_values (calculateComplexity question)) as Hc.
  fold count in Hc.
  pose proof (sort_permutation (SelectorSpec.scoreQ question) domainExperts) as Hp.
  rewrite <- sortedPerspectives_by_score in Hp.
  assert (Hlen : List.length (sortedPerspectives question) = 8%nat)
    by (rewrite (Permutation_length Hp); reflexivity).
  assert (Hsel : List.length (selectRelevantPerspectives question count) = count).
  { unfold selectRelevantPerspectives. rewrite length_firstn, Hlen.
    cbn [In] in Hc. lia. }
  split; [exact Hsel|]. split; [rewrite Hsel; exact Hc|].
  split.
  { apply firstn_NoDup. apply (Permutation_NoDup (Permutation_sym Hp)), domainExperts_NoDup. }
  split.
  { intros p Hin. apply (Permutation_in _ Hp). apply (firstn_incl count), Hin. }
  rewrite !length_app, length_map. cbn [List.length]. lia.
Qed.

(** *** The overall confidence *)

Lemma total_nonneg (values : list Q) :
  Forall (fun v => 0 <= v) values -> 0 <= SelectorSpec.total values.
Proof.
  induction 1 as [|v values Hv _ IH]; cbn [SelectorSpec.total]; lra.
Qed.

Lemma total_at_most (hi : Q) (values : list Q) :
  Forall (fun v => v <= hi) values ->
  SelectorSpec.total values <= hi * inject_Z (Z.of_nat (List.length values)).
Proof.
  induction 1 as [|v values Hv _ IH]; cbn [SelectorSpec.total List.length].
  - change (inject_Z (Z.of_nat 0)) with 0. lra.
  - rewrite Nat2Z.inj_succ, <- Z.add_1_r, inject_Z_plus. change (inject_Z 1) with 1. lra.
Qed.

Lemma count_positive (n : nat) : (0 < n)%nat -> 0 < inject_Z (Z.of_nat n).
Proof. intros Hn. change 0 with (inject_Z 0). rewrite <- Zlt_Qlt. lia. Qed.

Lemma mean_at_most (hi : Q) (values : list Q) :
  0 <= hi -> Forall (fun v => v <= hi) values -> SelectorSpec.mean values <= hi.
Proof.
  intros Hhi H. destruct values as [|v values]; [exact Hhi|].
  unfold SelectorSpec.mean. apply Qle_shift_div_r.
  - apply count_positive. cbn [List.length]. lia.
  - apply total_at_most, H.
Qed.

Lemma populationVariance_nonneg (values : list Q) :
  0 <= SelectorSpec.populationVariance values.
Proof.
  unfold SelectorSpec.populationVariance.
  set (squares := map _ values).
  assert (Hs : Forall (fun v => 0 <= v) squares).
  { subst squares. apply List.Forall_forall. intros x Hx. apply in_map_iff in Hx.
    destruct Hx as (v & <- & _). generalize (v - SelectorSpec.mean values). intros d.
    destruct (Qlt_le_dec d 0); nra. }
  destruct squares as [|x squares]; [cbn; lra|].
  unfold SelectorSpec.mean. apply Qle_shift_div_l.
  - apply count_positive. cbn [List.length]. lia.
  - rewrite Qmult_0_l. apply total_nonneg, Hs.
Qed.

Lemma insight_confidence_cap (insight question : string) :
  calculateInsightConfidence insight question <= 0.75.
Proof.
  unfold calculateInsightConfidence. cbv zeta. eapply Qle_trans; [apply Q.le_min_r|].
  pose proof (Q.le_min_l 0.7 (JS.lengthQ insight / 500)).
  pose proof (Q.le_min_l 0.8 (inject_Z (Z.of_nat (relevantTermCount insight question)) / 5)).
  destruct (hasPreciseTerms insight); lra.
Qed.

(** The overall confidence when no insight is more confident than [hi]. *)
Lemma calculateOverallConfidence_at_most (hi : Q) (insights : list Insight.t) (complexity : Q) :
  0 <= hi -> 0 <= complexity ->
  Forall (fun i => Insight.confidence i <= hi) insights ->
  calculateOverallConfidence insights complexity <= Qmax 0.5 (hi * 0.6 + 0.3).
Proof.
  intros Hhi Hc H. unfold calculateOverallConfidence. cbv zeta.
  rewrite averageConfidence_spec, calculateVariance_spec.
  eapply Qle_trans; [apply Q.le_min_r|].
  apply Q.max_le_compat_l.
  assert (Hm : SelectorSpec.mean (map Insight.confidence insights) <= hi).
  { apply mean_at_most; [exact Hhi|]. apply List.Forall_forall. intros v Hv.
    apply in_map_iff in Hv. destruct Hv as (i & <- & Hi).
    rewrite List.Forall_forall in H. apply H, Hi. }
  pose proof (populationVariance_nonneg (map Insight.confidence insights)) as Hv.
  assert (Ha : Qmax 0 (1 - SelectorSpec.populationVariance
                              (map Insight.confidence insights) * 10) <= 1)
    by (apply Q.max_lub; lra).
  lra.
Qed.

(** X4. The variance [calculateVariance] returns is never negative, so
    the agreement factor of [calculateOverallConfidence] is at most 1. *)
Theorem calculateVariance_nonneg (values : list Q) :
  0 <= calculateVariance values
  /\ Qmax 0 (1 - calculateVariance values * 10) <= 1.
Proof.
  rewrite calculateVariance_spec. pose proof (populationVariance_nonneg values) as Hv.
  split; [exact Hv | apply Q.max_lub; lra].
Qed.

(** X5. A more complex question never gets a higher overall confidence
    from the same insights. *)
Theorem calculateOverallConfidence_antitone
        (insights : list Insight.t) (complexity complexity' : Q) :
  complexity <= complexity' ->
  calculateOverallConfidence insights complexity'
  <= calculateOverallConfidence insights complexity.
Proof.
  intros Hc. unfold calculateOverallConfidence. cbv zeta.
  apply Q.min_le_compat_l, Q.max_le_compat_l. lra.
Qed.

Lemma calculateOverallConfidence_antitone_witness :
  0.1 <= 0.9
  /\ calculateOverallConfidence [Insight.mk "quantum_physicist" "x" 0.5] 0.9
     <= calculateOverallConfidence [Insight.mk "quantum_physicist" "x" 0.5] 0.1.
Proof.
  split; [lra|].
  apply (calculateOverallConfidence_antitone [Insight.mk "quantum_physicist" "x" 0.5] 0.1 0.9).
  lra.
Defined.

(** *** The insights a synthesis reads *)

Lemma StronglySorted_app_order {X : Type} (R : X -> X -> Prop) (l1 l2 : list X) :
  StronglySorted R (l1 ++ l2) ->
  StronglySorted R l1 /\ forall a b, In a l1 -> In b l2 -> R a b.
Proof.
  induction l1 as [|x l1 IH]; cbn [app]; intros H.
  - split; [constructor | intros a b []].
  - apply StronglySorted_inv in H. destruct H as [Hs Hx].
    destruct (IH Hs) as [Hs1 Hord]. split.
    + constructor; [exact Hs1|]. rewrite List.Forall_forall in Hx |- *.
      intros y Hy. apply Hx, in_or_app. left. exact Hy.
    + intros a b [<-|Ha] Hb.
      * rewrite List.Forall_forall in Hx. apply Hx, in_or_app. right. exact Hb.
      * apply Hord; assumption.
Qed.

(** X6. [topInsights] keeps the three most confident insights (all of
    them when there are fewer), most confident first: the insights left
    out are no more confident than any insight kept. *)
Theorem topInsights_most_confident (insights : list Insight.t) :
  exists rest,
    Permutation insights (topInsights insights ++ rest)
    /\ List.length (topInsights insights) = Nat.min 3 (List.length insights)
    /\ StronglySorted (fun a b => Insight.confidence b <= Insight.confidence a)
                      (topInsights insights)
    /\ forall kept dropped,
         In kept (topInsights insights) -> In dropped rest ->
         Insight.confidence dropped <= Insight.confidence kept.
Proof.
  unfold topInsights. cbv zeta.
  change (fun a b : Insight.t => Insight.confidence b - Insight.confidence a)
    with (SelectorSpec.descending Insight.confidence).
  set (sorted := JS.sort (SelectorSpec.descending Insight.confidence) insights).
  pose proof (sort_permutation Insight.confidence insights) as Hp. fold sorted in Hp.
  pose proof (sort_sorted Insight.confidence insights) as Hs. fold sorted in Hs.
  set (k := Nat.min 3 (List.length sorted)).
  exists (skipn k sorted).
  rewrite firstn_skipn. split; [symmetry; exact Hp|].
  split; [rewrite length_firstn; subst k; rewrite (Permutation_length Hp); lia|].
  rewrite <- (firstn_skipn k sorted) in Hs.
  apply StronglySorted_app_order in Hs. destruct Hs as [Hs Hord].
  split; [exact Hs|]. intros kept dropped Hk Hd. exact (Hord kept dropped Hk Hd).
Qed.

(** *** The canned paragraphs *)

Lemma canned_paragraphs_plain (sha256hex : string -> string)
      (question perspective seed : string) :
  MoreSpec.plainParagraph (generatePerspectiveInsight sha256hex question perspective seed) = true.
Proof.
  unfold generatePerspectiveInsight. cbv zeta.
  unfold generateQuantumPhysicsInsight, generateComputationalMathInsight,
    generateMaterialsScienceInsight, generateSystemsEngineeringInsight,
    generateEvolutionaryBiologyInsight, generateCognitiveNeuroscienceInsight,
    generateNetworkTheoryInsight, generateInformationTheoryInsight.
  cbv zeta.
  repeat match goal with
         | |- MoreSpec.plainParagraph (if ?c then _ else _) = true => destruct c
         end;
  vm_compute; reflexivity.
Qed.

(** X7. Whatever the question and the expert, the insight
    [generatePerspectiveInsight] returns is one sentence for the split
    on [/\.\s+/] (a synthesis keeps or drops it whole), holds no precise
    token (the precision bonus is never given), and is at most 253 code
    units long. *)
Theorem generated_insight_plain (sha256hex : string -> string)
        (question perspective seed : string) :
  let insight := generatePerspectiveInsight sha256hex question perspective seed in
  JS.splitSentences insight = [insight]
  /\ hasPreciseTerms insight = false
  /\ (String.length insight <= 253)%nat.
Proof.
  cbv zeta. pose proof (canned_paragraphs_plain sha256hex question perspective seed) as H.
  unfold MoreSpec.plainParagraph in H.
  apply andb_prop in H. destruct H as [H Hlen]. apply andb_prop in H. destruct H as [Hsplit Hp].
  split.
  - destruct (JS.splitSentences _) as [|sentence [|]]; try discriminate.
    apply String.eqb_eq in Hsplit. congruence.
  - split; [apply Bool.negb_true_iff, Hp | apply Nat.leb_le, Hlen].
Qed.

Lemma generated_insight_confidence (sha256hex : string -> string)
      (question perspective seed : string) :
  calculateInsightConfidence
    (generatePerspectiveInsight sha256hex question perspective seed) question <= 0.5224.
Proof.
  pose proof (canned_paragraphs_plain sha256hex question perspective seed) as H.
  unfold MoreSpec.plainParagraph in H.
  apply andb_prop in H. destruct H as [H Hlen]. apply andb_prop in H. destruct H as [_ Hp].
  apply Bool.negb_true_iff in Hp. apply Nat.leb_le in Hlen.
  unfold calculateInsightConfidence. cbv zeta. rewrite Hp.
  eapply Qle_trans; [apply Q.le_min_r|].
  set (insight := generatePerspectiveInsight sha256hex question perspective seed) in *.
  assert (Hl : JS.lengthQ insight / 500 <= 0.506).
  { apply Qle_shift_div_r; [lra|]. unfold JS.lengthQ.
    apply Qle_trans with (inject_Z 253); [rewrite <- Zle_Qle; lia|].
    unfold Qle. cbn. lia. }
  pose proof (Q.le_min_r 0.7 (JS.lengthQ insight / 500)).
  pose proof (Q.le_min_l 0.8 (inject_Z (Z.of_nat (relevantTermCount insight question)) / 5)).
  lra.
Qed.

(** X3. The confidence [processInRealTime] returns lies between 0.5 and
    0.62: no insight it generates is more confident than 0.5224, the
    agreement factor is at most 1 and the complexity is not negative, so
    the cap at 0.99 of [calculateOverallConfidence] is never reached. *)
Theorem processInRealTime_confidence_at_most (sha256hex : string -> string) (question : string) :
  0.5 <= confidence (processInRealTime sha256hex question) <= 0.62.
Proof.
  split; [apply processInRealTime_confidence_range|].
  unfold processInRealTime. cbn [confidence].
  eapply Qle_trans.
  - apply (calculateOverallConfidence_at_most 0.5224);
      [lra | apply calculateComplexity_range0 |].
    apply List.Forall_forall. intros i Hi. apply in_map_iff in Hi.
    destruct Hi as (p & <- & _). cbn [Insight.confidence].
    apply generated_insight_confidence.
  - apply Q.max_lub; lra.
Qed.

End SelectorMore.

(** * Further properties of the Perspective Engine *)

Section EngineMore.

Import Krang EngineSpec MoreSpec.
Local Open Scope Q_scope.

(** *** Deduplication *)

Lemma existsb_eqb_In (x : string) (seen : list string) :
  existsb (String.eqb x) seen = true <-> In x seen.
Proof.
  rewrite existsb_exists. split.
  - intros (y & Hy & E). apply String.eqb_eq in E. subst. exact Hy.
  - intros H. exists x. split; [exact H | apply String.eqb_refl].
Qed.

Lemma uniq_In (seen l : list string) (x : string) :
  In x (JS.uniq seen l) <-> In x l /\ ~ In x seen.
Proof.
  revert seen. induction l as [|y l IH]; intros seen; cbn [JS.uniq In].
  - tauto.
  - destruct (existsb (String.eqb y) seen) eqn:E.
    + apply existsb_eqb_In in E. rewrite IH. split.
      * intros [H1 H2]. auto.
      * intros [[<-|H1] H2]; [contradiction|auto].
    + assert (Hy : ~ In y seen)
        by (intros H; apply existsb_eqb_In in H; congruence).
      cbn [In]. rewrite IH. cbn [In]. split.
      * intros [<-|[H1 H2]]; [auto|]. split; [auto|]. intros H. apply H2. right. exact H.
      * intros [[<-|H1] H2]; [auto|].
        destruct (string_dec y x) as [<-|Hne]; [auto|]. right. split; [exact H1|].
        intros [E'|H]; [congruence|contradiction].
Qed.

Lemma uniq_NoDup (seen l : list string) : List.NoDup (JS.uniq seen l).
Proof.
  revert seen. induction l as [|y l IH]; intros seen; cbn [JS.uniq].
  - constructor.
  - destruct (existsb (String.eqb y) seen); [apply IH|].
    constructor; [|apply IH]. rewrite uniq_In. intros [_ H]. apply H. left. reflexivity.
Qed.

Lemma uniq_sublist (seen l : list string) : sublist (JS.uniq seen l) l.
Proof.
  revert seen. induction l as [|y l IH]; intros seen; cbn [JS.uniq].
  - constructor.
  - destruct (existsb (String.eqb y) seen).
    + apply sublist_cons, IH.
    + apply sublist_skip, IH.
Qed.

Lemma firstn_sublist {X : Type} (n : nat) (l : list X) : sublist (firstn n l) l.
Proof.
  rewrite <- (firstn_skipn n l) at 2. apply sublist_inserts_r. reflexivity.
Qed.

Lemma filter_twice {X : Type} (p q : X -> bool) (l : list X) :
  List.filter p (List.filter q l) = List.filter (fun x => p x && q x) l.
Proof.
  induction l as [|x l IH]; [reflexivity|]. cbn [List.filter].
  destruct (q x); cbn [List.filter]; destruct (p x); cbn [andb]; rewrite IH; reflexivity.
Qed.

(** What [JS.uniq] keeps of [l] are the first occurrences in [l] of the
    strings not yet seen. *)
Lemma uniq_firstOccurrences (seen l : list string) :
  JS.uniq seen l
  = List.filter (fun y => negb (existsb (String.eqb y) seen)) (firstOccurrences l).
Proof.
  revert seen. induction l as [|x l IH]; intros seen; [reflexivity|].
  cbn [JS.uniq firstOccurrences List.filter]. rewrite filter_twice.
  destruct (existsb (String.eqb x) seen) eqn:E; cbn [negb].
  - rewrite IH. apply filter_ext_in. intros y _.
    destruct (String.eqb y x) eqn:Eyx; cbn [negb]; [|rewrite Bool.andb_true_r; reflexivity].
    apply String.eqb_eq in Eyx. subst y. rewrite E. reflexivity.
  - rewrite IH. f_equal. apply filter_ext. intros y. cbn [existsb].
    rewrite Bool.negb_orb. apply Bool.andb_comm.
Qed.

Lemma fromSet_firstOccurrences (l : list string) : JS.fromSet l = firstOccurrences l.
Proof.
  unfold JS.fromSet. rewrite uniq_firstOccurrences. cbn [existsb negb].
  induction (firstOccurrences l) as [|x r IH]; [reflexivity|].
  cbn [List.filter]. rewrite IH. reflexivity.
Qed.

(** X8. The key insights of a synthesis are the first 7, and the key
    recommendations the first 5, of the different insights and
    recommendations of the perspectives, in the order in which each
    first occurs in the concatenated lists; so they hold no string
    twice, are at most 7 and 5, and are subsequences of the concatenated
    lists; unless there are 7 key insights, every insight of a
    perspective is a key insight. *)
Theorem synthesizeResults_keys (results : list Perspective.t) (problem : Problem.t)
        (s : State) :
  exists synthesis s',
    synthesizeResults results problem s = (Returned synthesis, s')
    /\ Synthesis.keyInsights synthesis
       = firstn 7 (firstOccurrences (flat_map Perspective.insights results))
    /\ Synthesis.keyRecommendations synthesis
       = firstn 5 (firstOccurrences (flat_map Perspective.recommendations results))
    /\ List.NoDup (Synthesis.keyInsights synthesis)
    /\ (List.length (Synthesis.keyInsights synthesis) <= 7)%nat
    /\ sublist (Synthesis.keyInsights synthesis) (flat_map Perspective.insights results)
    /\ List.NoDup (Synthesis.keyRecommendations synthesis)
    /\ (List.length (Synthesis.keyRecommendations synthesis) <= 5)%nat
    /\ sublist (Synthesis.keyRecommendations synthesis)
               (flat_map Perspective.recommendations results)
    /\ (List.length (Synthesis.keyInsights synthesis) = 7%nat
        \/ forall insight,
             In insight (flat_map Perspective.insights results) ->
             In insight (Synthesis.keyInsights synthesis)).
Proof.
  destruct (calculateInsightNetworkComplexity_cases s) as (d & E & _).
  unfold synthesizeResults, bind at 1. rewrite E.
  eexists. eexists. split; [reflexivity|]. cbn [Synthesis.keyInsights Synthesis.keyRecommendations].
  unfold deduplicateAndRank.
  split; [rewrite fromSet_firstOccurrences; reflexivity|].
  split; [rewrite fromSet_firstOccurrences; reflexivity|].
  unfold JS.fromSet.
  split; [apply firstn_NoDup, uniq_NoDup|].
  split; [rewrite length_firstn; lia|].
  split; [etransitivity; [apply firstn_sublist | apply uniq_sublist]|].
  split; [apply firstn_NoDup, uniq_NoDup|].
  split; [rewrite length_firstn; lia|].
  split; [etransitivity; [apply firstn_sublist | apply uniq_sublist]|].
  destruct (le_lt_dec (List.length (JS.uniq [] (flat_map Perspective.insights results))) 7)
    as [Hlen|Hlen].
  - right. intros insight Hin. rewrite firstn_all2 by exact Hlen.
    apply uniq_In. split; [exact Hin | intros []].
  - left. rewrite length_firstn. lia.
Qed.

(** *** Key terms *)

(** X12. The key terms of a problem are distinct, each longer than 3
    code units, and each a white-space separated piece of the title or of
    the description; every such piece longer than 3 is a key term. *)
Theorem keyTermsOf_terms (problem : Problem.t) :
  List.NoDup (keyTermsOf problem)
  /\ forall term,
       In term (keyTermsOf problem)
       <-> (3 < String.length term)%nat
           /\ (In term (JS.splitSpaces (Problem.title problem))
               \/ In term (JS.splitSpaces (Problem.description problem))).
Proof.
  unfold keyTermsOf. cbv zeta. unfold JS.fromSet. split; [apply uniq_NoDup|].
  intros term. rewrite uniq_In, filter_In, in_app_iff, Nat.ltb_lt. cbn [In]. tauto.
Qed.

(** *** Merging a refinement *)

Lemma integrate_run (base refined : Perspective.t) (s : State) :
  exists base' s',
    integrateRefinedInsights base refined s = (Returned base', s')
    /\ insightNetwork (this s')
       = <[Perspective.name base :=
             <[Perspective.name refined :=
                 Edge.mk (Perspective.confidence refined) (Perspective.insights refined)]>
               (default ∅ (insightNetwork (this s) !! Perspective.name base))]>
           (insightNetwork (this s))
    /\ Perspective.confidence base'
       = JS.max (Perspective.confidence base)
                (JS.mul (Perspective.confidence refined) (JS.Fin 1.1))
    /\ Perspective.insights base'
       = (Perspective.insights base ++ map refinedMarker (Perspective.insights refined))%list
    /\ Perspective.recommendations base'
       = (Perspective.recommendations base
            ++ map refinedMarker (Perspective.recommendations refined))%list
    /\ Perspective.childPerspectives base'
       = Some (default [] (Perspective.childPerspectives base) ++ [refined])%list
    /\ Perspective.name base' = Perspective.name base
    /\ Perspective.limitations base' = Perspective.limitations base.
Proof.
  eexists. eexists. split; [reflexivity|]. cbn. repeat split.
Qed.

(** The edges of the network after a merge. *)
Lemma edge_after_merge (network : gmap string (gmap string Edge.t)) (a b : string)
      (e : Edge.t) (source target : string) :
  edge (<[a := <[b := e]> (default ∅ (network !! a))]> network) source target
  = if decide (source = a /\ target = b) then Some e else edge network source target.
Proof.
  unfold edge. destruct (decide (source = a)) as [->|Hs].
  - rewrite lookup_insert_eq. destruct (decide (target = b)) as [->|Ht].
    + rewrite lookup_insert_eq. rewrite decide_True by auto. reflexivity.
    + rewrite lookup_insert_ne by congruence. rewrite decide_False by tauto.
      destruct (network !! a); [reflexivity | apply lookup_empty].
  - rewrite lookup_insert_ne by congruence. rewrite decide_False by tauto. reflexivity.
Qed.

(** X9. After [integrateRefinedInsights(base, refined)] the network has
    the edge from the base to the refinement, with the confidence and the
    insights of the refinement, whatever edge between the two it had; no
    other edge changes. *)
Theorem integrate_edge (base refined : Perspective.t) (s : State)
        (source target : string) :
  edge (insightNetwork (this (snd (integrateRefinedInsights base refined s)))) source target
  = if decide (source = Perspective.name base /\ target = Perspective.name refined)
    then Some (Edge.mk (Perspective.confidence refined) (Perspective.insights refined))
    else edge (insightNetwork (this s)) source target.
Proof.
  destruct (integrate_run base refined s) as (b & s' & E & N & _).
  rewrite E. cbn [snd]. rewrite N. apply edge_after_merge.
Qed.

Lemma max_absorb (x y : JS.number) : JS.max (JS.max x y) y = JS.max x y.
Proof.
  destruct x as [a|[|]|], y as [b|[|]|]; try reflexivity;
    cbn [JS.max]; f_equal; unfold Qmax, GenericMinMax.gmax.
  - destruct (a ?= b) eqn:E; rewrite ?E; try reflexivity.
    destruct (b ?= b); reflexivity.
  - destruct (b ?= b); reflexivity.
Qed.

(** X10. Merging the same refinement a second time leaves the network
    and the confidence of the base as the first merge left them, and
    appends the insights, the recommendations and the child once more:
    the merge never removes or deduplicates what the base holds. *)
Theorem integrate_twice (base refined : Perspective.t) (s : State) :
  exists once s1 twice s2,
    integrateRefinedInsights base refined s = (Returned once, s1)
    /\ integrateRefinedInsights once refined s1 = (Returned twice, s2)
    /\ insightNetwork (this s2) = insightNetwork (this s1)
    /\ Perspective.confidence twice = Perspective.confidence once
    /\ Perspective.insights twice
       = (Perspective.insights base
            ++ map refinedMarker (Perspective.insights refined)
            ++ map refinedMarker (Perspective.insights refined))%list
    /\ Perspective.recommendations twice
       = (Perspective.recommendations base
            ++ map refinedMarker (Perspective.recommendations refined)
            ++ map refinedMarker (Perspective.recommendations refined))%list
    /\ Perspective.childPerspectives twice
       = Some (default [] (Perspective.childPerspectives base) ++ [refined; refined])%list.
Proof.
  destruct (integrate_run base refined s)
    as (once & s1 & E1 & N1 & C1 & I1 & R1 & K1 & Name1 & _).
  destruct (integrate_run once refined s1)
    as (twice & s2 & E2 & N2 & C2 & I2 & R2 & K2 & _).
  exists once, s1, twice, s2.
  split; [exact E1|]. split; [exact E2|]. split.
  { rewrite N2, Name1, N1. rewrite lookup_insert_eq. cbn [from_option id].
    rewrite insert_insert_eq, insert_insert_eq. reflexivity. }
  split; [rewrite C2, C1; apply max_absorb|].
  split; [rewrite I2, I1, <- app_assoc; reflexivity|].
  split; [rewrite R2, R1, <- app_assoc; reflexivity|].
  rewrite K2, K1. cbn [from_option id]. rewrite <- app_assoc. reflexivity.
Qed.

(** *** The context stack *)

Lemma top_of_pushed (stack : list Context.t) (pushed : Context.t) :
  match (stack ++ [pushed])%list with
  | [] => None
  | top :: rest => Some (List.last rest top)
  end = Some pushed.
Proof.
  destruct (stack ++ [pushed])%list as [|top rest] eqn:E.
  - apply app_eq_nil in E. destruct E as [_ E]. discriminate E.
  - f_equal. assert (H : List.last (top :: rest) top = pushed)
      by (rewrite <- E; apply last_last).
    destruct rest; exact H.
Qed.

(** X11. A push followed by a pop leaves the context stack as it was;
    right after a push [getCurrentMentalContext] returns the context
    pushed; once the stack is emptied, a pop leaves it empty and
    [getCurrentMentalContext] returns the root context without putting
    it on the stack. *)
Theorem context_stack_operations (perspective : string) (level : Z) (s : State) :
  mentalContextStack (this (snd ((pushMentalContext perspective level ;; popMentalContext) s)))
  = mentalContextStack (this s)
  /\ (exists current s',
         (pushMentalContext perspective level ;; getCurrentMentalContext) s
         = (Returned current, s')
         /\ Context.perspective current = perspective
         /\ Context.level current = level
         /\ In current (mentalContextStack (this s')))
  /\ (let emptied := snd (modify (setStack []) s) in
      mentalContextStack (this (snd (popMentalContext emptied))) = []
      /\ exists current s',
           getCurrentMentalContext emptied = (Returned current, s')
           /\ Context.perspective current = "meta"%string
           /\ Context.level current = 0%Z
           /\ mentalContextStack (this s') = []).
Proof.
  split; [cbn; apply removelast_last|]. split.
  - unfold bind, pushMentalContext, bind, Date_now, modify, getCurrentMentalContext, bind, gets.
    cbn [this world setStack mentalContextStack].
    set (pushed := Context.mk perspective level (clock (world s) (clockReads (world s)))).
    pose proof (top_of_pushed (mentalContextStack (this s)) pushed) as Htop.
    destruct (mentalContextStack (this s) ++ [pushed])%list as [|top rest] eqn:E;
      [discriminate Htop|].
    injection Htop as Htop. rewrite Htop.
    eexists. eexists. split; [reflexivity|]. cbn [this mentalContextStack].
    split; [reflexivity|]. split; [reflexivity|].
    rewrite <- E. apply in_or_app. right. left. reflexivity.
  - cbv zeta. split; [reflexivity|].
    eexists. eexists. split; [reflexivity|]. repeat split.
Qed.

End EngineMore.

(** * What the steps of [processProblem] leave of a field *)

Section FieldFrame.

Import Krang EngineSpec MoreSpec.

Context {X : Type} (proj : KrangCore -> X) (R : X -> X -> Prop).
Hypothesis R_refl : forall x, R x x.
Hypothesis R_trans : forall x y z, R x y -> R y z -> R x z.

Lemma respects_ret {A : Type} (a : A) : respects (onField proj R) (ret a).
Proof. intros s. apply R_refl. Qed.

Lemma respects_throw {A : Type} (e : string) : respects (onField proj R) (@throw A e).
Proof. intros s. apply R_refl. Qed.

Lemma respects_bind {A B : Type} (m : M A) (k : A -> M B) :
  respects (onField proj R) m -> (forall a, respects (onField proj R) (k a)) ->
  respects (onField proj R) (bind m k).
Proof.
  intros Hm Hk s. unfold bind. specialize (Hm s). destruct (m s) as [[a|e] s1]; cbn [snd] in *.
  - eapply R_trans; [exact Hm | apply Hk].
  - exact Hm.
Qed.

Lemma tryFinally_snd {A : Type} (body : M A) (cleanup : M unit) (s : State) :
  snd (tryFinally body cleanup s) = snd (cleanup (snd (body s))).
Proof.
  unfold tryFinally. destruct (body s) as [r s1]. cbn [snd].
  destruct (cleanup s1) as [[u|e] s2]; reflexivity.
Qed.

Lemma respects_tryFinally {A : Type} (body : M A) (cleanup : M unit) :
  respects (onField proj R) body -> respects (onField proj R) cleanup ->
  respects (onField proj R) (tryFinally body cleanup).
Proof.
  intros Hb Hc s. rewrite tryFinally_snd. eapply R_trans; [apply Hb | apply Hc].
Qed.

Lemma respects_forOf {A B : Type} (l : list A) (body : B -> A -> M B) :
  (forall acc x, respects (onField proj R) (body acc x)) ->
  forall acc, respects (onField proj R) (forOf l body acc).
Proof.
  intros Hbody. induction l as [|x l IH]; intros acc; cbn [forOf].
  - apply respects_ret.
  - apply respects_bind; [apply Hbody | intros acc'; apply IH].
Qed.

Lemma respects_gets {A : Type} (f : KrangCore -> A) : respects (onField proj R) (gets f).
Proof. intros s. apply R_refl. Qed.

Lemma respects_Date_now : respects (onField proj R) Date_now.
Proof. intros s. apply R_refl. Qed.

Lemma respects_Math_random : respects (onField proj R) Math_random.
Proof. intros s. apply R_refl. Qed.

Lemma respects_modify (f : KrangCore -> KrangCore) :
  (forall c, R (proj c) (proj (f c))) -> respects (onField proj R) (modify f).
Proof. intros Hf s. apply Hf. Qed.

Lemma respects_getCurrentMentalContext : respects (onField proj R) getCurrentMentalContext.
Proof.
  unfold getCurrentMentalContext. apply respects_bind; [apply respects_gets|].
  intros [|top rest].
  - apply respects_bind; [apply respects_Date_now | intros; apply respects_ret].
  - apply respects_ret.
Qed.

(** The two generators of the class change no field of the instance. *)
Lemma respects_analyze (problem : Problem.t) (perspective : string) :
  respects (onField proj R) (analyzeProblemFromPerspective problem perspective).
Proof.
  unfold analyzeProblemFromPerspective.
  apply respects_bind; [apply respects_getCurrentMentalContext|]. intros ctx. cbv zeta.
  apply respects_bind; [apply respects_Math_random|]. intros id.
  apply respects_bind; [apply respects_Math_random|]. intros r. apply respects_ret.
Qed.

Lemma respects_refine (problem : Problem.t) (base : Perspective.t) (perspective : string) :
  respects (onField proj R) (refineAnalysis problem base perspective).
Proof.
  unfold refineAnalysis.
  apply respects_bind; [apply respects_getCurrentMentalContext|]. intros ctx. cbv zeta.
  apply respects_bind; [apply respects_Math_random|]. intros id.
  apply respects_bind; [apply respects_Math_random|]. intros r. apply respects_ret.
Qed.

Lemma respects_synthesizeResults (results : list Perspective.t) (problem : Problem.t) :
  respects (onField proj R) (synthesizeResults results problem).
Proof.
  unfold synthesizeResults. cbv zeta.
  apply respects_bind.
  { unfold calculateInsightNetworkComplexity.
    apply respects_bind; [apply respects_gets|]. intros network. apply respects_ret. }
  intros size. apply respects_bind; [|intros; apply respects_ret].
  unfold calculateConsilienceScore.
  apply respects_bind; [apply respects_Math_random|]. intros r. apply respects_ret.
Qed.

(** *** Fields that the stack operations leave alone *)

Section OffStack.

Hypothesis stack_free : forall stack c, proj (setStack stack c) = proj c.

Lemma respects_pushMentalContext (perspective : string) (level : Z) :
  respects (onField proj R) (pushMentalContext perspective level).
Proof.
  unfold pushMentalContext. apply respects_bind; [apply respects_Date_now|].
  intros activated. apply respects_modify. intros c. rewrite stack_free. apply R_refl.
Qed.

Lemma respects_popMentalContext : respects (onField proj R) popMentalContext.
Proof. apply respects_modify. intros c. rewrite stack_free. apply R_refl. Qed.

Lemma respects_resetMentalContext : respects (onField proj R) resetMentalContext.
Proof.
  unfold resetMentalContext. apply respects_bind.
  - apply respects_modify. intros c. rewrite stack_free. apply R_refl.
  - intros _. apply respects_pushMentalContext.
Qed.

Variable analyze : Problem.t -> string -> M Perspective.t.
Variable refine : Problem.t -> Perspective.t -> string -> M Perspective.t.
Hypothesis analyze_respects : forall problem x, respects (onField proj R) (analyze problem x).
Hypothesis refine_respects :
  forall problem base x, respects (onField proj R) (refine problem base x).
Hypothesis integrate_respects :
  forall base refined, respects (onField proj R) (integrateRefinedInsights base refined).

Lemma respects_tertiaryStep (problem : Problem.t) (refined : Perspective.t) (x : string) :
  respects (onField proj R) (tertiaryStep refine problem refined x).
Proof.
  unfold tertiaryStep. apply respects_bind; [apply respects_pushMentalContext|]. intros _.
  apply respects_tryFinally; [|apply respects_popMentalContext].
  apply respects_bind; [apply refine_respects|]. intros deep. apply integrate_respects.
Qed.

Lemma respects_secondaryStep (problem : Problem.t) (base : Perspective.t) (x : string) :
  respects (onField proj R) (secondaryStep refine problem base x).
Proof.
  unfold secondaryStep. apply respects_bind; [apply respects_pushMentalContext|]. intros _.
  apply respects_tryFinally; [|apply respects_popMentalContext].
  apply respects_bind; [apply refine_respects|]. intros refined.
  apply respects_bind; [apply integrate_respects|]. intros base'.
  apply respects_bind; [apply respects_gets|]. intros levels.
  destruct (JS.Qltb 2 levels); [|apply respects_ret].
  apply respects_bind; [apply respects_gets|]. intros l.
  apply respects_bind; [|intros; apply respects_ret].
  apply respects_forOf. intros acc y. apply respects_tertiaryStep.
Qed.

(** The body of the [try] of [primaryStep]. *)
Lemma respects_primaryBody (problem : Problem.t) (results : list Perspective.t) (x : string) :
  respects (onField proj R)
    (perspectiveResult <- analyze problem x ;;
     levels <- gets beliefLevels ;;
     perspectiveResult' <-
       (if JS.Qltb 1 levels then
          compatiblePerspectives <- getCompatiblePerspectives x ;;
          forOf compatiblePerspectives (secondaryStep refine problem) perspectiveResult
        else ret perspectiveResult) ;;
     ret (app results [perspectiveResult'])).
Proof.
  apply respects_bind; [apply analyze_respects|]. intros base.
  apply respects_bind; [apply respects_gets|]. intros levels.
  apply respects_bind; [|intros; apply respects_ret].
  destruct (JS.Qltb 1 levels); [|apply respects_ret].
  apply respects_bind; [apply respects_gets|]. intros l.
  apply respects_forOf. intros acc y. apply respects_secondaryStep.
Qed.

(** *** Fields that the set of active perspectives and the metrics leave alone *)

Hypothesis active_free : forall active c, proj (setActive active c) = proj c.

Lemma respects_primaryStep (problem : Problem.t) (results : list Perspective.t) (x : string) :
  respects (onField proj R) (primaryStep analyze refine problem results x).
Proof.
  unfold primaryStep. apply respects_bind.
  { apply respects_modify. intros c. rewrite active_free. apply R_refl. }
  intros _. apply respects_bind; [apply respects_pushMentalContext|]. intros _.
  apply respects_tryFinally; [apply respects_primaryBody|].
  apply respects_bind; [apply respects_popMentalContext|]. intros _.
  apply respects_modify. intros c. rewrite active_free. apply R_refl.
Qed.

Lemma respects_processProblemEntry : respects (onField proj R) processProblemEntry.
Proof.
  unfold processProblemEntry. apply respects_bind.
  - apply respects_modify. intros c. rewrite active_free. apply R_refl.
  - intros _. apply respects_pushMentalContext.
Qed.

Hypothesis metrics_free : forall metrics c, proj (setMetrics metrics c) = proj c.

Lemma respects_processProblemWith (problem : Problem.t) :
  respects (onField proj R) (processProblemWith analyze refine problem).
Proof.
  unfold processProblemWith.
  apply respects_bind; [apply respects_processProblemEntry|]. intros _.
  apply respects_tryFinally; [|apply respects_resetMentalContext].
  apply respects_bind; [apply respects_gets|]. intros perspectives.
  apply respects_bind.
  { apply respects_forOf. intros acc x. apply respects_primaryStep. }
  intros results.
  apply respects_bind; [apply respects_synthesizeResults|]. intros synthesis.
  apply respects_bind.
  { apply respects_modify. intros c. rewrite metrics_free. apply R_refl. }
  intros _. apply respects_bind; [apply respects_gets|]. intros total.
  apply respects_bind; [apply respects_gets|]. intros depth.
  apply respects_bind; [apply respects_gets|]. intros efficiency.
  apply respects_bind; [apply respects_Date_now|]. intros time.
  apply respects_ret.
Qed.

End OffStack.

End FieldFrame.

(** * The context stack is balanced *)

Section StackBalance.

Import Krang EngineSpec MoreSpec.


Lemma sameStack_trans (x y z : list Context.t) : x = y -> y = z -> x = z.
Proof. congruence. Qed.

Lemma integrate_sameStack (base refined : Perspective.t) :
  respects (onField mentalContextStack eq) (integrateRefinedInsights base refined).
Proof. intros s. reflexivity. Qed.

(** A push, a body that leaves the stack as it finds it, and a cleanup
    that pops: together they leave the stack as they find it. *)
Lemma scoped_sameStack {A : Type} (perspective : string) (level : Z)
      (body : M A) (cleanup : M unit) :
  respects (onField mentalContextStack eq) body ->
  (forall s, mentalContextStack (this (snd (cleanup s)))
             = removelast (mentalContextStack (this s))) ->
  respects (onField mentalContextStack eq)
           (pushMentalContext perspective level ;; tryFinally body cleanup).
Proof.
  intros Hbody Hcleanup s. unfold onField.
  unfold bind at 1, pushMentalContext, bind, Date_now, modify.
  cbn [this world]. rewrite tryFinally_snd, Hcleanup.
  match goal with |- _ = removelast (mentalContextStack (this (snd (body ?s1)))) =>
    rewrite <- (Hbody s1) end.
  cbn [this mentalContextStack setStack]. symmetry. apply removelast_last.
Qed.

Variable analyze : Problem.t -> string -> M Perspective.t.
Variable refine : Problem.t -> Perspective.t -> string -> M Perspective.t.
Hypothesis analyze_keeps :
  forall problem x, respects (onField mentalContextStack eq) (analyze problem x).
Hypothesis refine_keeps :
  forall problem base x, respects (onField mentalContextStack eq) (refine problem base x).

Lemma tertiaryStep_sameStack (problem : Problem.t) (refined : Perspective.t) (x : string) :
  respects (onField mentalContextStack eq) (tertiaryStep refine problem refined x).
Proof.
  unfold tertiaryStep. apply scoped_sameStack; [|intros s; reflexivity].
  apply (respects_bind _ _ sameStack_trans); [apply refine_keeps|].
  intros deep. apply integrate_sameStack.
Qed.

Lemma secondaryStep_sameStack (problem : Problem.t) (base : Perspective.t) (x : string) :
  respects (onField mentalContextStack eq) (secondaryStep refine problem base x).
Proof.
  unfold secondaryStep. apply scoped_sameStack; [|intros s; reflexivity].
  apply (respects_bind _ _ sameStack_trans); [apply refine_keeps|]. intros refined.
  apply (respects_bind _ _ sameStack_trans); [apply integrate_sameStack|]. intros base'.
  apply (respects_bind _ _ sameStack_trans); [intros s; reflexivity|]. intros levels.
  destruct (JS.Qltb 2 levels); [|intros s; reflexivity].
  apply (respects_bind _ _ sameStack_trans); [intros s; reflexivity|]. intros l.
  apply (respects_bind _ _ sameStack_trans); [|intros r s; reflexivity].
  apply (respects_forOf _ _ (@eq_refl _) sameStack_trans).
  intros acc y. apply tertiaryStep_sameStack.
Qed.

Lemma primaryStep_sameStack (problem : Problem.t) (results : list Perspective.t) (x : string) :
  respects (onField mentalContextStack eq) (primaryStep analyze refine problem results x).
Proof.
  unfold primaryStep.
  apply (respects_bind _ _ sameStack_trans); [intros s; reflexivity|]. intros _.
  apply scoped_sameStack; [|intros s; reflexivity].
  apply (respects_bind _ _ sameStack_trans); [apply analyze_keeps|]. intros base.
  apply (respects_bind _ _ sameStack_trans); [intros s; reflexivity|]. intros levels.
  apply (respects_bind _ _ sameStack_trans); [|intros r s; reflexivity].
  destruct (JS.Qltb 1 levels); [|intros s; reflexivity].
  apply (respects_bind _ _ sameStack_trans); [intros s; reflexivity|]. intros l.
  apply (respects_forOf _ _ (@eq_refl _) sameStack_trans).
  intros acc y. apply secondaryStep_sameStack.
Qed.

End StackBalance.

(** X13. Whatever the two generators are, as long as they leave the
    context stack as they find it (also when they throw), every primary,
    secondary and tertiary step leaves the stack as it found it: each
    [finally] pops the context its step pushed, on return and on error. *)
Theorem steps_balance_stack
        (analyze : Krang.Problem.t -> string -> Krang.M Krang.Perspective.t)
        (refine : Krang.Problem.t -> Krang.Perspective.t -> string -> Krang.M Krang.Perspective.t)
        (problem : Krang.Problem.t) (results : list Krang.Perspective.t)
        (base : Krang.Perspective.t) (x : string) (s : Krang.State) :
  (forall problem x, MoreSpec.respects (MoreSpec.onField Krang.mentalContextStack eq)
                                       (analyze problem x)) ->
  (forall problem base x, MoreSpec.respects (MoreSpec.onField Krang.mentalContextStack eq)
                                            (refine problem base x)) ->
  Krang.mentalContextStack (Krang.this (snd (Krang.primaryStep analyze refine problem results x s)))
  = Krang.mentalContextStack (Krang.this s)
  /\ Krang.mentalContextStack (Krang.this (snd (Krang.secondaryStep refine problem base x s)))
     = Krang.mentalContextStack (Krang.this s)
  /\ Krang.mentalContextStack (Krang.this (snd (Krang.tertiaryStep refine problem base x s)))
     = Krang.mentalContextStack (Krang.this s).
Proof.
  intros Ha Hr. split; [|split]; symmetry.
  - apply (primaryStep_sameStack analyze refine Ha Hr).
  - apply (secondaryStep_sameStack refine Hr).
  - apply (tertiaryStep_sameStack refine Hr).
Qed.

Lemma steps_balance_stack_witness :
  (forall problem x, MoreSpec.respects (MoreSpec.onField Krang.mentalContextStack eq)
                                       (MoreSpec.failingAnalyze problem x))
  /\ (forall problem base x, MoreSpec.respects (MoreSpec.onField Krang.mentalContextStack eq)
                                               (MoreSpec.failingRefine problem base x))
  /\ fst (Krang.primaryStep MoreSpec.failingAnalyze MoreSpec.failingRefine
            (Krang.problemOf "Why does fusion occur?") [] "empirical"
            (EngineSpec.fresh Krang.Config.empty (EngineSpec.constantWorld 0 "t")))
     = Krang.Thrown "analysis failed"
  /\ Krang.mentalContextStack
       (Krang.this (snd (Krang.primaryStep MoreSpec.failingAnalyze MoreSpec.failingRefine
                           (Krang.problemOf "Why does fusion occur?") [] "empirical"
                           (EngineSpec.fresh Krang.Config.empty (EngineSpec.constantWorld 0 "t")))))
     = Krang.mentalContextStack
         (Krang.this (EngineSpec.fresh Krang.Config.empty (EngineSpec.constantWorld 0 "t"))).
Proof.
  split; [intros problem x s; reflexivity|].
  split; [intros problem base x s; reflexivity|].
  split; [reflexivity|].
  apply (steps_balance_stack MoreSpec.failingAnalyze MoreSpec.failingRefine
           (Krang.problemOf "Why does fusion occur?") []
           (Krang.Perspective.mk 0 "a" "a" (JS.Fin 1) [] [] [] None) "empirical"
           (EngineSpec.fresh Krang.Config.empty (EngineSpec.constantWorld 0 "t"))).
  - intros problem x s. reflexivity.
  - intros problem base x s. reflexivity.
Defined.

(** * The parts of one call of [processProblem] *)

Section EngineAnatomy.

Import Krang EngineSpec MoreSpec.
Local Open Scope Q_scope.

Lemma synthesizeResults_returns (results : list Perspective.t) (problem : Problem.t)
      (s : State) :
  exists synthesis s', synthesizeResults results problem s = (Returned synthesis, s').
Proof.
  destruct (calculateInsightNetworkComplexity_cases s) as (d & E & _).
  unfold synthesizeResults, bind at 1. rewrite E. eexists. eexists. reflexivity.
Qed.

Lemma primaryLoop_returns (problem : Problem.t) (s : State) :
  exists results s',
    forOf (primaryPerspectives (this s))
          (primaryStep analyzeProblemFromPerspective refineAnalysis problem) [] s
    = (Returned results, s').
Proof.
  assert (H0 : 0 <= 0) by lra.
  destruct (preserves_forOf s (primaryPerspectives (this s))
              (primaryStep analyzeProblemFromPerspective refineAnalysis problem)
              (Forall (settled (baseFloor 0) (ceiling s) (boosted s)))
              ltac:(intros acc x Hx Hacc;
                    eapply preserves_weaken;
                    [apply (primaryStep_confidence s 0 H0 (draws_nonnegative s)); assumption
                    |intros rs [H _]; exact H])
              [] ltac:(constructor) s (agrees_refl s))
    as (results & s' & E & _).
  exists results, s'. exact E.
Qed.

(** One call: the entry, the loop over the primary perspectives, the
    synthesis, the update of the metrics, and the reset of the stack. *)
Lemma processProblem_anatomy (problem : Problem.t) (s : State) :
  exists s1 results s2 synthesis s3 s4 result,
    processProblemEntry s = (Returned tt, s1)
    /\ forOf (primaryPerspectives (this s1))
             (primaryStep analyzeProblemFromPerspective refineAnalysis problem) [] s1
       = (Returned results, s2)
    /\ synthesizeResults results problem s2 = (Returned synthesis, s3)
    /\ this s4 = setMetrics (updatedMetrics (this s3) (Synthesis.confidence synthesis)) (this s3)
    /\ processProblem problem s = (Returned result, snd (resetMentalContext s4))
    /\ Result.problem result = problem
    /\ Result.perspectives result = results
    /\ Result.synthesis result = synthesis
    /\ Result.confidence result = Synthesis.confidence synthesis
    /\ Stats.totalPerspectivesUsed (Result.mentalProcessStats result)
       = size (activePerspectives (this s3))
    /\ Stats.maxRecursionDepth (Result.mentalProcessStats result) = beliefLevels (this s3)
    /\ Stats.recursionEfficiency (Result.mentalProcessStats result)
       = JS.div (Synthesis.confidence synthesis) (JS.Fin (beliefLevels (this s3))).
Proof.
  destruct (processProblemEntry s) as [r1 s1] eqn:E1.
  assert (r1 = Returned tt) as -> by (cbv in E1; congruence).
  destruct (primaryLoop_returns problem s1) as (results & s2 & E2).
  destruct (synthesizeResults_returns results problem s2) as (synthesis & s3 & E3).
  exists s1, results, s2, synthesis, s3.
  unfold processProblem, processProblemWith.
  unfold bind at 1. rewrite E1.
  unfold tryFinally, bind at 1, gets at 1.
  unfold bind at 1. rewrite E2.
  unfold bind at 1. rewrite E3.
  exists (mkState (setMetrics (updatedMetrics (this s3) (Synthesis.confidence synthesis))
                              (this s3))
                  (world (snd (Date_now s3)))).
  eexists.
  split; [reflexivity|]. split; [reflexivity|]. split; [reflexivity|].
  split; [reflexivity|]. split; [cbn; reflexivity|].
  cbn. repeat split.
Qed.

End EngineAnatomy.

(** * The active perspectives and the insight network across a call *)

Section EngineFields.

Import Krang EngineSpec MoreSpec.
Local Open Scope Q_scope.

Lemma eq_trans' {X : Type} (x y z : X) : x = y -> y = z -> x = z.
Proof. congruence. Qed.

Lemma bind_modify {B : Type} (f : KrangCore -> KrangCore) (k : unit -> M B) (s : State) :
  bind (modify f) k s = k tt (mkState (f (this s)) (world s)).
Proof. reflexivity. Qed.

Lemma bind_push {B : Type} (perspective : string) (level : Z) (k : unit -> M B) (s : State) :
  bind (pushMentalContext perspective level) k s
  = k tt (snd (pushMentalContext perspective level s)).
Proof. reflexivity. Qed.

(** The whole of a primary step but its first and last statement leaves
    the set of active perspectives alone. *)
Lemma primaryStep_active (problem : Problem.t) (results : list Perspective.t) (x : string)
      (s : State) :
  activePerspectives
    (this (snd (primaryStep analyzeProblemFromPerspective refineAnalysis problem results x s)))
  = delete x (activePerspectives (this s)).
Proof.
  unfold primaryStep, activatePerspective. rewrite bind_modify, bind_push, tryFinally_snd.
  set (s1 := snd (pushMentalContext x 1 _)).
  pose proof (respects_primaryBody activePerspectives eq (@eq_refl _) eq_trans'
                ltac:(reflexivity)
                analyzeProblemFromPerspective refineAnalysis
                (respects_analyze activePerspectives eq (@eq_refl _) eq_trans')
                (respects_refine activePerspectives eq (@eq_refl _) eq_trans')
                ltac:(intros b r s'; reflexivity)
                problem results x s1) as Hbody.
  unfold onField in Hbody. cbn [this activePerspectives setStack setActive] in Hbody.
  unfold popMentalContext, deactivatePerspective. rewrite bind_modify.
  cbn [modify snd this activePerspectives setActive setStack].
  rewrite <- Hbody. apply delete_insert_eq.
Qed.

(** A loop of primary steps that starts with no active perspective ends
    with none. *)
Lemma primaryLoop_active (problem : Problem.t) (l : list string)
      (results : list Perspective.t) :
  respects (onField activePerspectives (fun active active' => active = ∅ -> active' = ∅))
           (forOf l (primaryStep analyzeProblemFromPerspective refineAnalysis problem) results).
Proof.
  apply respects_forOf.
  - intros active H. exact H.
  - intros x y z Hxy Hyz Hx. apply Hyz, Hxy, Hx.
  - intros acc x s. unfold onField. rewrite primaryStep_active. intros ->. apply delete_empty.
Qed.

Lemma entry_state (s s1 : State) :
  processProblemEntry s = (Returned tt, s1) ->
  activePerspectives (this s1) = ∅
  /\ performanceMetrics (this s1) = performanceMetrics (this s)
  /\ insightNetwork (this s1) = insightNetwork (this s)
  /\ primaryPerspectives (this s1) = primaryPerspectives (this s)
  /\ beliefLevels (this s1) = beliefLevels (this s).
Proof. intros E. cbv in E. inversion E. cbn. repeat split. Qed.

(** [integrateRefinedInsights] removes no edge. *)
Lemma integrate_keepsEdges (base refined : Perspective.t) :
  respects (onField insightNetwork keepsEdges) (integrateRefinedInsights base refined).
Proof.
  intros s. unfold onField. destruct (integrate_run base refined s) as (b & s' & E & N & _).
  rewrite E. cbn [snd]. rewrite N. intros source target. unfold edge.
  destruct (decide (Perspective.name base = source)) as [<-|Hs].
  - rewrite lookup_insert_eq.
    destruct (decide (Perspective.name refined = target)) as [<-|Ht].
    + rewrite lookup_insert_eq. intros _. eexists. reflexivity.
    + rewrite lookup_insert_ne by exact Ht.
      destruct (insightNetwork (this s) !! Perspective.name base); [tauto|].
      intros [e He]. discriminate He.
  - rewrite lookup_insert_ne by exact Hs. tauto.
Qed.

Lemma keepsEdges_refl (network : gmap string (gmap string Edge.t)) : keepsEdges network network.
Proof. intros source target H. exact H. Qed.

Lemma keepsEdges_trans (x y z : gmap string (gmap string Edge.t)) :
  keepsEdges x y -> keepsEdges y z -> keepsEdges x z.
Proof. intros Hxy Hyz source target H. apply Hyz, Hxy, H. Qed.

Lemma processProblem_keepsEdges (problem : Problem.t) :
  respects (onField insightNetwork keepsEdges) (processProblem problem).
Proof.
  apply (respects_processProblemWith insightNetwork keepsEdges keepsEdges_refl keepsEdges_trans).
  - reflexivity.
  - intros p x. apply (respects_analyze _ _ keepsEdges_refl keepsEdges_trans).
  - intros p b x. apply (respects_refine _ _ keepsEdges_refl keepsEdges_trans).
  - apply integrate_keepsEdges.
  - reflexivity.
  - reflexivity.
Qed.

End EngineFields.

(** X14. Every call of [processProblem] reports 0 perspectives used: each
    primary step deactivates its perspective before the next one starts,
    so at the synthesis no perspective is active; for the same reason
    the call leaves no perspective active and never changes the
    utilization counts of the metrics. *)
Theorem no_perspective_counted (problem : Krang.Problem.t) (s : Krang.State) :
  exists result s',
    Krang.processProblem problem s = (Krang.Returned result, s')
    /\ Krang.Stats.totalPerspectivesUsed (Krang.Result.mentalProcessStats result) = 0%nat
    /\ Krang.activePerspectives (Krang.this s') = ∅
    /\ Krang.Metrics.perspectiveUtilization (Krang.performanceMetrics (Krang.this s'))
       = Krang.Metrics.perspectiveUtilization (Krang.performanceMetrics (Krang.this s)).
Proof.
  destruct (processProblem_anatomy problem s)
    as (s1 & results & s2 & synthesis & s3 & s4 & result
        & E1 & E2 & E3 & E4 & E & _ & _ & _ & _ & Hused & _).
  destruct (entry_state s s1 E1) as (A1 & M1 & _).
  pose proof (primaryLoop_active problem (Krang.primaryPerspectives (Krang.this s1)) [] s1) as A2.
  unfold MoreSpec.onField in A2. rewrite E2 in A2. cbn [snd] in A2. specialize (A2 A1).
  pose proof (respects_forOf Krang.performanceMetrics eq (@eq_refl _) eq_trans'
                (Krang.primaryPerspectives (Krang.this s1))
                (Krang.primaryStep Krang.analyzeProblemFromPerspective Krang.refineAnalysis problem)
                ltac:(intros acc x;
                      apply (respects_primaryStep Krang.performanceMetrics eq (@eq_refl _) eq_trans');
                      [reflexivity
                      |intros p y; apply (respects_analyze _ _ (@eq_refl _) eq_trans')
                      |intros p b y; apply (respects_refine _ _ (@eq_refl _) eq_trans')
                      |intros b r s'; reflexivity
                      |reflexivity])
                [] s1) as M2.
  unfold MoreSpec.onField in M2. rewrite E2 in M2. cbn [snd] in M2.
  assert (S3 : Krang.this s3 = Krang.this s2).
  { revert E3. unfold Krang.synthesizeResults. cbv zeta. intros E3.
    cbv [Krang.bind Krang.calculateInsightNetworkComplexity Krang.gets Krang.ret
         Krang.calculateConsilienceScore Krang.Math_random] in E3.
    inversion E3. reflexivity. }
  exists result. eexists. split; [exact E|].
  split; [rewrite Hused, S3, A2; apply map_size_empty|].
  cbn. rewrite E4. cbn. rewrite S3, A2. split; [reflexivity|].
  rewrite map_to_list_empty. cbn. congruence.
Qed.

(** X15. The insight network is never reset: no sequence of
    [processProblem] calls removes an edge that the network had before. *)
Theorem network_never_shrinks (problems : list Krang.Problem.t) (s : Krang.State) :
  MoreSpec.keepsEdges (Krang.insightNetwork (Krang.this s))
                      (Krang.insightNetwork (Krang.this (snd (Krang.processAll problems s)))).
Proof.
  revert s. induction problems as [|problem problems IH]; intros s.
  - apply keepsEdges_refl.
  - cbn [Krang.processAll].
    apply (respects_bind Krang.insightNetwork MoreSpec.keepsEdges keepsEdges_trans).
    + apply processProblem_keepsEdges.
    + intros result.
      apply (respects_bind Krang.insightNetwork MoreSpec.keepsEdges keepsEdges_trans).
      * intros s'. apply IH.
      * intros results s'. apply keepsEdges_refl.
Qed.

(** * The perspectives a call returns *)

Section EngineShape.

Import Krang EngineSpec MoreSpec.
Local Open Scope Q_scope.

Variable s0 : State.

Lemma preserves_random : preserves s0 Math_random (fun _ => True).
Proof.
  eapply preserves_weaken.
  - apply (preserves_Math_random s0 0 (draws_nonnegative s0)).
  - intros r _. exact I.
Qed.

Lemma analyze_shape (problem : Problem.t) (x : string) :
  preserves s0 (analyzeProblemFromPerspective problem x)
            (fun p => Perspective.name p = x
                      /\ Perspective.specialization p = x
                      /\ Perspective.insights p = perspectiveInsights problem x
                      /\ Perspective.childPerspectives p = Some []).
Proof.
  unfold analyzeProblemFromPerspective.
  eapply preserves_bind; [apply preserves_getCurrentMentalContext|]. intros ctx _. cbv zeta.
  eapply preserves_bind; [apply preserves_random|]. intros id _.
  eapply preserves_bind; [apply preserves_random|]. intros r _.
  apply preserves_ret. repeat split.
Qed.

Lemma refine_shape (problem : Problem.t) (base : Perspective.t) (y : string) :
  preserves s0 (refineAnalysis problem base y)
            (fun r => Perspective.name r = y
                      /\ Perspective.insights r = refinedInsightsOf (Perspective.name base) y).
Proof.
  unfold refineAnalysis.
  eapply preserves_bind; [apply preserves_getCurrentMentalContext|]. intros ctx _. cbv zeta.
  eapply preserves_bind; [apply preserves_random|]. intros id _.
  eapply preserves_bind; [apply preserves_random|]. intros r _.
  apply preserves_ret. repeat split.
Qed.

Lemma integrate_shape (base refined : Perspective.t) :
  preserves s0 (integrateRefinedInsights base refined)
            (fun b => Perspective.name b = Perspective.name base
                      /\ Perspective.specialization b = Perspective.specialization base
                      /\ Perspective.insights b
                         = app (Perspective.insights base)
                               (map refinedMarker (Perspective.insights refined))
                      /\ Perspective.childPerspectives b
                         = Some (app (default [] (Perspective.childPerspectives base)) [refined])).
Proof.
  unfold integrateRefinedInsights.
  eapply preserves_bind; [apply preserves_modify; intros k; repeat split|]. intros _ _.
  apply preserves_ret. repeat split.
Qed.

Lemma tertiaryStep_name (problem : Problem.t) (refined : Perspective.t) (z : string) :
  preserves s0 (tertiaryStep refineAnalysis problem refined z)
            (fun r => Perspective.name r = Perspective.name refined).
Proof.
  unfold tertiaryStep.
  eapply preserves_bind; [apply preserves_pushMentalContext|]. intros _ _.
  apply preserves_tryFinally; [|apply preserves_popMentalContext].
  eapply preserves_bind; [apply refine_shape|]. intros deep _.
  eapply preserves_weaken; [apply integrate_shape|]. intros b (H & _). exact H.
Qed.

Lemma secondaryStep_shape (problem : Problem.t) (base : Perspective.t) (y : string) :
  preserves s0 (secondaryStep refineAnalysis problem base y)
            (fun b => Perspective.name b = Perspective.name base
                      /\ Perspective.specialization b = Perspective.specialization base
                      /\ Perspective.insights b
                         = app (Perspective.insights base)
                               (map refinedMarker (refinedInsightsOf (Perspective.name base) y))
                      /\ exists child,
                           Perspective.childPerspectives b
                           = Some (app (default [] (Perspective.childPerspectives base)) [child])
                           /\ Perspective.name child = y).
Proof.
  unfold secondaryStep.
  eapply preserves_bind; [apply preserves_pushMentalContext|]. intros _ _.
  apply preserves_tryFinally; [|apply preserves_popMentalContext].
  eapply preserves_bind; [apply refine_shape|]. intros refined (Hname & Hins).
  eapply preserves_bind; [apply integrate_shape|]. intros b (Hb1 & Hb2 & Hb3 & Hb4).
  rewrite Hins in Hb3.
  eapply preserves_bind; [apply preserves_beliefLevels|]. intros levels _.
  destruct (JS.Qltb 2 levels).
  - eapply preserves_bind; [apply preserves_getCompatiblePerspectives|]. intros l _.
    eapply preserves_bind.
    + apply (preserves_forOf s0 l _ (fun r => Perspective.name r = y)).
      * intros acc z _ Hacc. eapply preserves_weaken; [apply tertiaryStep_name|].
        intros r Hr. congruence.
      * exact Hname.
    + intros refined' Hname'. apply preserves_ret.
      cbn [replaceLastChild Perspective.name Perspective.specialization Perspective.insights
           Perspective.childPerspectives].
      split; [exact Hb1|]. split; [exact Hb2|]. split; [exact Hb3|].
      exists refined'. split; [|exact Hname'].
      rewrite Hb4. cbn [option_map]. rewrite removelast_last. reflexivity.
  - apply preserves_ret.
    split; [exact Hb1|]. split; [exact Hb2|]. split; [exact Hb3|].
    exists refined. split; [exact Hb4 | exact Hname].
Qed.

(** The loop over the compatible perspectives [l], from the base [base]. *)
Lemma secondaryLoop_shape (problem : Problem.t) (l : list string) :
  forall base children,
    Perspective.childPerspectives base = Some children ->
    preserves s0 (forOf l (secondaryStep refineAnalysis problem) base)
              (fun b => Perspective.name b = Perspective.name base
                        /\ Perspective.specialization b = Perspective.specialization base
                        /\ Perspective.insights b
                           = app (Perspective.insights base)
                                 (flat_map (fun y => map refinedMarker
                                                         (refinedInsightsOf (Perspective.name base) y))
                                           l)
                        /\ exists added,
                             Perspective.childPerspectives b = Some (app children added)
                             /\ map Perspective.name added = l).
Proof.
  induction l as [|y l IH]; intros base children Hch; cbn [forOf flat_map].
  - apply preserves_ret. rewrite app_nil_r. repeat split.
    exists []. rewrite app_nil_r. split; [exact Hch | reflexivity].
  - eapply preserves_bind; [apply secondaryStep_shape|].
    intros b (Hb1 & Hb2 & Hb3 & child & Hb4 & Hchild).
    rewrite Hch in Hb4. cbn [from_option id] in Hb4.
    eapply preserves_weaken; [apply (IH b _ Hb4)|].
    intros b' (H1 & H2 & H3 & added & H4 & Hadded).
    split; [congruence|]. split; [congruence|]. split.
    + rewrite H3, Hb3, Hb1, <- app_assoc. reflexivity.
    + exists (child :: added). split.
      * rewrite H4, <- app_assoc. reflexivity.
      * cbn [map]. rewrite Hchild, Hadded. reflexivity.
Qed.

Lemma primaryStep_shape (problem : Problem.t) (results : list Perspective.t) (x : string) :
  preserves s0 (primaryStep analyzeProblemFromPerspective refineAnalysis problem results x)
            (fun rs => exists p, rs = app results [p] /\ analysed problem (this s0) x p).
Proof.
  unfold primaryStep.
  eapply preserves_bind; [apply preserves_activatePerspective|]. intros _ _.
  eapply preserves_bind; [apply preserves_pushMentalContext|]. intros _ _.
  apply preserves_tryFinally.
  2:{ eapply preserves_bind; [apply preserves_popMentalContext|]. intros _ _.
      apply preserves_deactivatePerspective. }
  eapply preserves_bind; [apply analyze_shape|]. intros base (Hn & Hs & Hi & Hc).
  eapply preserves_bind; [apply preserves_beliefLevels|]. intros levels ->.
  eapply preserves_bind with (mid := analysed problem (this s0) x).
  2:{ intros b Hb. apply preserves_ret. exists b. split; [reflexivity | exact Hb]. }
  unfold analysed, mergedInsights, refinementsOf.
  destruct (JS.Qltb 1 (beliefLevels (this s0))).
  - eapply preserves_bind; [apply preserves_getCompatiblePerspectives|]. intros l ->.
    eapply preserves_weaken; [apply (secondaryLoop_shape problem _ base [] Hc)|].
    intros b (H1 & H2 & H3 & added & H4 & Hadded).
    split; [congruence|]. split; [congruence|]. split.
    + rewrite H3, Hi, Hn. reflexivity.
    + exists added. split; [exact H4 | exact Hadded].
  - apply preserves_ret. cbn [flat_map]. rewrite app_nil_r.
    split; [exact Hn|]. split; [exact Hs|]. split; [exact Hi|].
    exists []. split; [exact Hc | reflexivity].
Qed.

Lemma primaryLoop_shape (problem : Problem.t) (l : list string) :
  forall results,
    preserves s0 (forOf l (primaryStep analyzeProblemFromPerspective refineAnalysis problem)
                        results)
              (fun rs => exists added,
                           rs = app results added
                           /\ Forall2 (analysed problem (this s0)) l added).
Proof.
  induction l as [|x l IH]; intros results; cbn [forOf].
  - apply preserves_ret. exists []. rewrite app_nil_r. split; [reflexivity | constructor].
  - eapply preserves_bind; [apply primaryStep_shape|]. intros rs (p & -> & Hp).
    eapply preserves_weaken; [apply IH|]. intros rs' (added & -> & Hadded).
    exists (p :: added). split; [rewrite <- app_assoc; reflexivity|].
    constructor; assumption.
Qed.

End EngineShape.

Lemma entry_agrees (s s1 : Krang.State) :
  Krang.processProblemEntry s = (Krang.Returned tt, s1) -> EngineSpec.agrees s s1.
Proof. intros E. cbv in E. inversion E. repeat split. Qed.

(** What a call returns: the perspectives, the key insights drawn from
    them, and the belief levels it reports. *)
Lemma processProblem_result (problem : Krang.Problem.t) (s : Krang.State) :
  exists result s',
    Krang.processProblem problem s = (Krang.Returned result, s')
    /\ Krang.Result.problem result = problem
    /\ Forall2 (MoreSpec.analysed problem (Krang.this s))
               (Krang.primaryPerspectives (Krang.this s))
               (Krang.Result.perspectives result)
    /\ Krang.Synthesis.keyInsights (Krang.Result.synthesis result)
       = firstn 7 (JS.fromSet (flat_map Krang.Perspective.insights
                                        (Krang.Result.perspectives result)))
    /\ Krang.Result.confidence result
       = Krang.Synthesis.confidence (Krang.Result.synthesis result)
    /\ Krang.Stats.maxRecursionDepth (Krang.Result.mentalProcessStats result)
       = Krang.beliefLevels (Krang.this s)
    /\ Krang.Stats.recursionEfficiency (Krang.Result.mentalProcessStats result)
       = JS.div (Krang.Result.confidence result) (JS.Fin (Krang.beliefLevels (Krang.this s)))
    /\ Krang.Metrics.recursionEfficiency (Krang.performanceMetrics (Krang.this s'))
       = JS.div (Krang.Result.confidence result) (JS.Fin (Krang.beliefLevels (Krang.this s))).
Proof.
  destruct (processProblem_anatomy problem s)
    as (s1 & results & s2 & synthesis & s3 & s4 & result
        & E1 & E2 & E3 & E4 & E & Hp & Hr & Hsyn & Hconf & _ & Hdepth & Heff).
  pose proof (entry_agrees s s1 E1) as Hagrees.
  destruct (primaryLoop_shape s problem (Krang.primaryPerspectives (Krang.this s1)) [] s1 Hagrees)
    as (rs & s2' & E2' & Hagrees2 & added & -> & Hadded).
  rewrite E2 in E2'. injection E2' as Hresults Hs2.
  exists result. eexists. split; [exact E|]. split; [exact Hp|].
  assert (S3 : Krang.this s3 = Krang.this s2).
  { revert E3. unfold Krang.synthesizeResults. cbv zeta. intros E3.
    cbv [Krang.bind Krang.calculateInsightNetworkComplexity Krang.gets Krang.ret
         Krang.calculateConsilienceScore Krang.Math_random] in E3.
    inversion E3. reflexivity. }
  assert (K : Krang.Synthesis.keyInsights synthesis
              = firstn 7 (JS.fromSet (flat_map Krang.Perspective.insights results))).
  { revert E3. unfold Krang.synthesizeResults. cbv zeta. intros E3.
    cbv [Krang.bind Krang.calculateInsightNetworkComplexity Krang.gets Krang.ret
         Krang.calculateConsilienceScore Krang.Math_random] in E3.
    inversion E3. reflexivity. }
  split.
  { rewrite Hr, Hresults. cbn [app]. destruct Hagrees as (_ & <- & _). exact Hadded. }
  split; [rewrite Hsyn, Hr; exact K|].
  split; [rewrite Hsyn; exact Hconf|].
  assert (B3 : Krang.beliefLevels (Krang.this s3) = Krang.beliefLevels (Krang.this s))
    by (rewrite S3, Hs2; destruct Hagrees2 as (B & _); exact B).
  split; [rewrite Hdepth; exact B3|].
  split; [rewrite Heff, Hconf, B3; reflexivity|].
  cbn. rewrite E4. cbn. rewrite Hconf, B3. reflexivity.
Qed.

(** X16. The perspectives of a result are the analyses of the primary
    perspectives of the instance, in their order: each carries the name
    of its perspective, the three insights of the analysis followed by
    the three marked insights of each refinement, in the order of the
    refining perspectives, and one child per refining perspective. The
    insights depend on no random draw. *)
Theorem result_perspectives (problem : Krang.Problem.t) (s : Krang.State) :
  exists result s',
    Krang.processProblem problem s = (Krang.Returned result, s')
    /\ Krang.Result.problem result = problem
    /\ Forall2 (MoreSpec.analysed problem (Krang.this s))
               (Krang.primaryPerspectives (Krang.this s))
               (Krang.Result.perspectives result).
Proof.
  destruct (processProblem_result problem s) as (result & s' & E & Hp & Hshape & _).
  exists result, s'. auto.
Qed.

(** * The response of [processWithKrang] *)

Section ApiFacts.

Import Krang KrangApi EngineSpec MoreSpec.

Variable numberToString : Q -> string.

Lemma perspectiveInsights_length (problem : Problem.t) (x : string) :
  List.length (perspectiveInsights problem x) = 3%nat.
Proof.
  unfold perspectiveInsights. cbv zeta.
  repeat match goal with |- context [if ?c then _ else _] => destruct c end; reflexivity.
Qed.

Lemma firstn_mergedInsights (problem : Problem.t) (c : KrangCore) (x : string) :
  firstn 3 (mergedInsights problem c x) = perspectiveInsights problem x.
Proof.
  unfold mergedInsights.
  rewrite firstn_app, perspectiveInsights_length. cbn [Nat.sub firstn]. rewrite app_nil_r.
  rewrite <- (perspectiveInsights_length problem x). apply firstn_all.
Qed.

Lemma mergedInsights_length (problem : Problem.t) (c : KrangCore) (x : string) :
  List.length (mergedInsights problem c x) = (3 + 3 * List.length (refinementsOf c x))%nat.
Proof.
  unfold mergedInsights. rewrite length_app, perspectiveInsights_length. f_equal.
  induction (refinementsOf c x) as [|y l IH]; [reflexivity|].
  cbn [flat_map List.length]. rewrite length_app, IH, length_map.
  cbn [refinedInsightsOf List.length]. lia.
Qed.

Lemma summaries_of_analyses (problem : Problem.t) (c : KrangCore)
      (perspectives : list string) (results : list Perspective.t) :
  Forall2 (analysed problem c) perspectives results ->
  Forall2 (summarised problem c) perspectives (map summaryOf results).
Proof.
  induction 1 as [|x p l ps (Hn & Hs & Hi & children & Hc & Hnames) _ IH]; cbn [map];
    constructor; [|exact IH].
  unfold summarised, summaryOf. cbn [Summary.name Summary.specialization Summary.insights
                                     Summary.childCount].
  rewrite Hi, Hc, firstn_mergedInsights, <- Hnames, length_map. auto.
Qed.

Lemma insights_counted (problem : Problem.t) (c : KrangCore)
      (perspectives : list string) (results : list Perspective.t) :
  Forall2 (analysed problem c) perspectives results ->
  forall count,
    fold_left (fun count p => (count + List.length (Perspective.insights p))%nat) results count
    = fold_left (fun count x => (count + (3 + 3 * List.length (refinementsOf c x)))%nat)
                perspectives count.
Proof.
  induction 1 as [|x p l ps (_ & _ & Hi & _) _ IH]; intros count; cbn [fold_left];
    [reflexivity|].
  rewrite Hi, mergedInsights_length. apply IH.
Qed.

Lemma processWithKrang_run (question : string) (s : State) :
  exists result s',
    processProblem (problemOf question) s = (Returned result, s')
    /\ Result.problem result = problemOf question
    /\ Forall2 (analysed (problemOf question) (this s)) (primaryPerspectives (this s))
               (Result.perspectives result)
    /\ Synthesis.keyInsights (Result.synthesis result)
       = firstn 7 (JS.fromSet (flat_map Perspective.insights (Result.perspectives result)))
    /\ Stats.maxRecursionDepth (Result.mentalProcessStats result) = beliefLevels (this s)
    /\ processWithKrang numberToString question s
       = (Returned
            (Response.mk
               (formatKrangAnswer numberToString result)
               (Result.confidence result)
               (map summaryOf (Result.perspectives result))
               [ "Analyzed problem complexity and identified key domains.";
                 "Created " ++ JS.natToString (List.length (Result.perspectives result))
                   ++ " specialized cognitive perspectives for multi-angle analysis.";
                 "Generated "
                   ++ JS.natToString
                        (fold_left (fun count p =>
                                      (count + List.length (Perspective.insights p))%nat)
                                   (Result.perspectives result) 0%nat)
                   ++ " total insights across all perspectives.";
                 "Performed recursive refinement with "
                   ++ numberToString (Stats.maxRecursionDepth (Result.mentalProcessStats result))
                   ++ " levels of depth.";
                 "Synthesized final answer with "
                   ++ numberToFixed numberToString 2 (Result.confidence result)
                   ++ " confidence score." ]%string
               (firstn 5 (Synthesis.keyInsights (Result.synthesis result)))),
          s').
Proof.
  destruct (processProblem_result (problemOf question) s)
    as (result & s' & E & Hp & Hshape & Hkeys & _ & Hdepth & _).
  exists result, s'. split; [exact E|]. split; [exact Hp|]. split; [exact Hshape|].
  split; [exact Hkeys|]. split; [exact Hdepth|].
  unfold processWithKrang. cbv zeta. unfold bind.
  change (Problem.mk question question ["unrestricted"%string]) with (problemOf question).
  rewrite E. reflexivity.
Qed.

End ApiFacts.

(** X17. Each entry of [perspectives] in the response of
    [processWithKrang] shows the name of a primary perspective of the
    instance, in their order, with exactly the three insights of its own
    analysis (never a merged one) and the number of its refinements as
    [childCount]; the processing steps report the number of perspectives,
    the number of all insights, merged ones included, and the belief
    levels; the response has at most 5 key insights, all distinct. *)
Theorem response_summaries (numberToString : Q -> string) (question : string)
        (s : Krang.State) :
  exists response s',
    KrangApi.processWithKrang numberToString question s = (Krang.Returned response, s')
    /\ Forall2 (MoreSpec.summarised (Krang.problemOf question) (Krang.this s))
               (Krang.primaryPerspectives (Krang.this s))
               (KrangApi.Response.perspectives response)
    /\ KrangApi.Response.processingSteps response
       = [ "Analyzed problem complexity and identified key domains.";
           "Created " ++ JS.natToString (List.length (Krang.primaryPerspectives (Krang.this s)))
             ++ " specialized cognitive perspectives for multi-angle analysis.";
           "Generated " ++ JS.natToString (MoreSpec.insightTotal (Krang.this s))
             ++ " total insights across all perspectives.";
           "Performed recursive refinement with "
             ++ numberToString (Krang.beliefLevels (Krang.this s)) ++ " levels of depth.";
           "Synthesized final answer with "
             ++ KrangApi.numberToFixed numberToString 2 (KrangApi.Response.confidence response)
             ++ " confidence score." ]%string
    /\ List.NoDup (KrangApi.Response.keyInsights response)
    /\ (List.length (KrangApi.Response.keyInsights response) <= 5)%nat.
Proof.
  destruct (processWithKrang_run numberToString question s)
    as (result & s' & _ & _ & Hshape & Hkeys & Hdepth & E).
  eexists. exists s'. split; [exact E|].
  cbn [KrangApi.Response.perspectives KrangApi.Response.processingSteps
       KrangApi.Response.keyInsights KrangApi.Response.confidence].
  split; [apply summaries_of_analyses, Hshape|].
  split.
  { assert (Hlen : List.length (Krang.primaryPerspectives (Krang.this s))
                   = List.length (Krang.Result.perspectives result))
      by (eapply Forall2_length; exact Hshape).
    rewrite Hdepth, (insights_counted _ _ _ _ Hshape), <- Hlen. reflexivity. }
  split.
  - rewrite Hkeys. apply firstn_NoDup, firstn_NoDup, uniq_NoDup.
  - rewrite length_firstn. lia.
Qed.

(** * The answer text *)

Section AnswerFacts.

Import Krang KrangApi EngineSpec MoreSpec.
Local Open Scope string_scope.

Variable numberToString : Q -> string.

Lemma append_assoc (a b c : string) : (a ++ b) ++ c = a ++ (b ++ c).
Proof.
  induction a as [|x a IH]; [reflexivity|].
  change ((String x a ++ b) ++ c) with (String x ((a ++ b) ++ c)). rewrite IH. reflexivity.
Qed.

Lemma stripFinalPeriod_stem (stem : string) : stripFinalPeriod (stem ++ ".") = stem.
Proof.
  induction stem as [|c stem IH]; [reflexivity|].
  change (String c stem ++ ".") with (String c (stem ++ ".")).
  cbn [stripFinalPeriod]. rewrite IH.
  destruct stem; reflexivity.
Qed.

Lemma ends_with_period_app (a b : string) :
  (exists stem, b = stem ++ ".") -> exists stem, a ++ b = stem ++ ".".
Proof. intros [stem ->]. exists (a ++ stem). symmetry. apply append_assoc. Qed.

Lemma orElse_nonempty (s fallback : string) : s <> "" -> orElse (Some s) fallback = s.
Proof. destruct s; [congruence | reflexivity]. Qed.

(** The three insights of an analysis: distinct, the first one closed by
    a period, the second one not opening with [From]. *)
Lemma perspectiveInsights_form (problem : Problem.t) (x : string) :
  exists first second third stem,
    perspectiveInsights problem x = [first; second; third]
    /\ first = stem ++ "."
    /\ first <> second /\ first <> third /\ second <> third
    /\ second <> ""
    /\ startsWithIgnoreCase second "from" = false.
Proof.
  unfold perspectiveInsights. cbv zeta.
  repeat match goal with |- context [nth ?i (keyTermsOf problem) ?f] =>
    generalize (nth i (keyTermsOf problem) f); intros ? end.
  generalize (Problem.title problem). intros title.
  repeat match goal with |- context [if ?c then _ else _] => destruct c end;
    (eexists; eexists; eexists;
     match goal with |- exists stem, [?first; _; _] = _ /\ _ =>
       let H := fresh in
       assert (H : exists stem, first = stem ++ ".")
         by (repeat apply ends_with_period_app;
             match goal with |- exists stem, ?b = _ =>
               exists (stripFinalPeriod b); vm_compute; reflexivity end);
       destruct H as [stem H]; exists stem
     end;
     split; [reflexivity|]; split; [assumption|];
     repeat split;
     try (vm_compute; reflexivity);
     intros Heq; vm_compute in Heq; discriminate Heq).
Qed.

Lemma fromSet_three (first second third : string) (rest : list string) :
  first <> second -> first <> third -> second <> third ->
  JS.fromSet (first :: second :: third :: rest)
  = first :: second :: third :: JS.uniq [third; second; first] rest.
Proof.
  intros H12 H13 H23. unfold JS.fromSet. cbn [JS.uniq existsb].
  assert (E21 : String.eqb second first = false) by (apply String.eqb_neq; congruence).
  assert (E32 : String.eqb third second = false) by (apply String.eqb_neq; congruence).
  assert (E31 : String.eqb third first = false) by (apply String.eqb_neq; congruence).
  rewrite E21. cbn [orb JS.uniq existsb]. rewrite E32, E31. reflexivity.
Qed.

(** The text of the answer when the key insights open with [first],
    [second] and [third]. *)
Lemma formatKrangAnswer_text (result : Result.t) (first second third stem : string)
      (others : list string) :
  Synthesis.keyInsights (Result.synthesis result) = first :: second :: third :: others ->
  first = stem ++ "." -> second <> "" ->
  startsWithIgnoreCase second "from" = false ->
  formatKrangAnswer numberToString result
  = answerText (Problem.title (Result.problem result))
               (List.length (Result.perspectives result))
               (numberToFixed numberToString 1 (JS.mul (Result.confidence result) (JS.Fin 100)))
               first second third stem
               (numberToFixed numberToString 1
                  (JS.mul (Synthesis.consilienceScore (Result.synthesis result)) (JS.Fin 100))).
Proof.
  intros Hkeys Hfirst Hsecond Hfrom.
  unfold formatKrangAnswer, answerText. cbv zeta. rewrite Hkeys.
  change (firstn 3 (first :: second :: third :: others)) with [first; second; third].
  cbn [nth_error numberedInsights].
  rewrite (orElse_nonempty first), (orElse_nonempty second) by
    (try exact Hsecond; rewrite Hfirst; destruct stem; discriminate).
  unfold stripFromClause. rewrite Hfrom.
  rewrite Hfirst at 2. rewrite stripFinalPeriod_stem.
  rewrite !append_assoc. reflexivity.
Qed.

End AnswerFacts.

(** X18. On an instance with at least one primary perspective, the key
    insights of the response of [processWithKrang] open with the three
    insights of the analysis of the first perspective, and the whole
    answer text is made of them: they are the three numbered insights,
    and the definitive answer is the first one, its period removed,
    followed by the second one unchanged (which never opens with [From],
    so that nothing is stripped from it). No other perspective shows in
    the answer text. *)
Theorem answer_from_first_perspective (numberToString : Q -> string) (question : string)
        (x : string) (rest : list string) (s : Krang.State) :
  Krang.primaryPerspectives (Krang.this s) = x :: rest ->
  exists response s' first second third stem score,
    KrangApi.processWithKrang numberToString question s = (Krang.Returned response, s')
    /\ Krang.perspectiveInsights (Krang.problemOf question) x = [first; second; third]
    /\ first = (stem ++ ".")%string
    /\ firstn 3 (KrangApi.Response.keyInsights response) = [first; second; third]
    /\ KrangApi.Response.answer response
       = MoreSpec.answerText
           question (S (List.length rest))
           (KrangApi.numberToFixed numberToString 1
              (JS.mul (KrangApi.Response.confidence response) (JS.Fin 100)))
           first second third stem score.
Proof.
  intros Hperspectives.
  destruct (processWithKrang_run numberToString question s)
    as (result & s' & _ & Hp & Hshape & Hkeys & _ & E).
  destruct (perspectiveInsights_form (Krang.problemOf question) x)
    as (first & second & third & stem & Hins & Hfirst & H12 & H13 & H23 & Hsecond & Hfrom).
  rewrite Hperspectives in Hshape.
  destruct (Krang.Result.perspectives result) as [|p ps] eqn:Eps;
    [inversion Hshape|].
  assert (Hlen : List.length (p :: ps) = S (List.length rest)).
  { symmetry. change (S (List.length rest)) with (List.length (x :: rest)).
    eapply Forall2_length. exact Hshape. }
  assert (Hi : Krang.Perspective.insights p
               = MoreSpec.mergedInsights (Krang.problemOf question) (Krang.this s) x)
    by (inversion Hshape as [|? ? ? ? (_ & _ & H & _) _]; exact H).
  cbn [flat_map] in Hkeys. rewrite Hi in Hkeys. unfold MoreSpec.mergedInsights in Hkeys.
  rewrite Hins in Hkeys. cbn [app] in Hkeys.
  rewrite (fromSet_three first second third _ H12 H13 H23) in Hkeys.
  cbn [firstn] in Hkeys.
  eexists. exists s', first, second, third, stem. eexists.
  split; [exact E|].
  cbn [KrangApi.Response.answer KrangApi.Response.keyInsights KrangApi.Response.confidence].
  split; [exact Hins|]. split; [exact Hfirst|].
  split; [rewrite Hkeys; reflexivity|].
  rewrite (formatKrangAnswer_text numberToString result first second third stem _
             Hkeys Hfirst Hsecond Hfrom).
  rewrite Hp, Eps, Hlen. reflexivity.
Qed.

Lemma answer_from_first_perspective_witness :
  Krang.primaryPerspectives
    (Krang.this (EngineSpec.fresh Krang.Config.empty (EngineSpec.constantWorld 0 "t")))
  = "empirical"%string :: List.tl Krang.defaultPerspectives
  /\ exists response s' first second third stem score,
       KrangApi.processWithKrang (fun q => JS.toFixed 0 q) "Why does fusion occur?"
         (EngineSpec.fresh Krang.Config.empty (EngineSpec.constantWorld 0 "t"))
       = (Krang.Returned response, s')
       /\ Krang.perspectiveInsights (Krang.problemOf "Why does fusion occur?") "empirical"
          = [first; second; third]
       /\ first = (stem ++ ".")%string
       /\ firstn 3 (KrangApi.Response.keyInsights response) = [first; second; third]
       /\ KrangApi.Response.answer response
          = MoreSpec.answerText
              "Why does fusion occur?" (S (List.length (List.tl Krang.defaultPerspectives)))
              (KrangApi.numberToFixed (fun q => JS.toFixed 0 q) 1
                 (JS.mul (KrangApi.Response.confidence response) (JS.Fin 100)))
              first second third stem score.
Proof.
  split; [reflexivity|].
  apply (answer_from_first_perspective
           (fun q => JS.toFixed 0 q) "Why does fusion occur?" "empirical"
           (List.tl Krang.defaultPerspectives)
           (EngineSpec.fresh Krang.Config.empty (EngineSpec.constantWorld 0 "t"))).
  reflexivity.
Defined.

(** * The solution text of the Selector *)

Section SelectorSolution.

Import RealtimeProcessor MoreSpec.
Local Open Scope string_scope.

Variable sha256hex : string -> string.

Lemma canned_paragraphs_closed (question perspective seed : string) :
  closedParagraph (generatePerspectiveInsight sha256hex question perspective seed) = true.
Proof.
  unfold generatePerspectiveInsight. cbv zeta.
  unfold generateQuantumPhysicsInsight, generateComputationalMathInsight,
    generateMaterialsScienceInsight, generateSystemsEngineeringInsight,
    generateEvolutionaryBiologyInsight, generateCognitiveNeuroscienceInsight,
    generateNetworkTheoryInsight, generateInformationTheoryInsight.
  cbv zeta.
  repeat match goal with
         | |- closedParagraph (if ?c then _ else _) = true => destruct c
         end;
  vm_compute; reflexivity.
Qed.

Lemma extractPhrases_whole (words : list string) (insights : list Insight.t) :
  Forall whole insights -> extractPhrases words insights = quoted words insights.
Proof.
  unfold extractPhrases, quoted.
  induction 1 as [|i l [Hsplit Htrim] _ IH]; [reflexivity|].
  cbn [flat_map map List.filter]. rewrite IH, Hsplit. cbn [List.filter].
  destruct (JS.includesAny _ words); cbn [map app]; [rewrite Htrim|]; reflexivity.
Qed.

Lemma first_sentences_whole (insights : list Insight.t) :
  Forall whole insights ->
  flat_map (fun i =>
              match JS.splitSentences (Insight.insight i) with
              | first :: _ => [JS.trim first ++ "."]
              | [] => []
              end) insights
  = map (fun i => Insight.insight i ++ ".") insights.
Proof.
  induction 1 as [|i l [Hsplit Htrim] _ IH]; [reflexivity|].
  cbn [flat_map map]. rewrite IH, Hsplit, Htrim. reflexivity.
Qed.

Lemma topInsights_incl (insights : list Insight.t) (i : Insight.t) :
  In i (topInsights insights) -> In i insights.
Proof.
  unfold topInsights. cbv zeta. intros H. apply firstn_incl in H.
  exact (Permutation_in i (sort_permutation Insight.confidence insights) H).
Qed.

Lemma endsWithPeriod_stem (s : string) :
  endsWithPeriod s = true -> exists stem, s = stem ++ ".".
Proof.
  induction s as [|c s IH]; [discriminate|]. cbn [endsWithPeriod].
  destruct s as [|d s].
  - intros H. apply Ascii.eqb_eq in H. subst c. exists "". reflexivity.
  - intros H. destruct (IH H) as [stem ->]. exists (String c stem). reflexivity.
Qed.

Lemma generated_insights_whole (question : string) (perspectives : list string)
      (i : Insight.t) :
  In i (topInsights (map (analysePerspective sha256hex question (sha256hex question))
                         perspectives)) ->
  whole i /\ exists stem, Insight.insight i = stem ++ ".".
Proof.
  intros H. apply topInsights_incl, in_map_iff in H. destruct H as (p & <- & _).
  unfold whole, analysePerspective. cbv zeta. cbn [Insight.insight].
  pose proof (canned_paragraphs_plain sha256hex question p (sha256hex question)) as Hplain.
  pose proof (canned_paragraphs_closed question p (sha256hex question)) as Hclosed.
  unfold plainParagraph in Hplain. unfold closedParagraph in Hclosed.
  apply andb_prop in Hplain. destruct Hplain as [Hplain _].
  apply andb_prop in Hplain. destruct Hplain as [Hsplit _].
  apply andb_prop in Hclosed. destruct Hclosed as [Htrim Hend].
  split; [split|].
  - destruct (JS.splitSentences _) as [|sentence [|]]; try discriminate.
    apply String.eqb_eq in Hsplit. congruence.
  - apply String.eqb_eq, Htrim.
  - apply endsWithPeriod_stem, Hend.
Qed.

End SelectorSolution.

(** X19. The solution text of [processInRealTime] is its fixed opening
    followed by whole insights of the three most confident experts: no
    insight is ever cut at a sentence end. The three keyword routes join
    the insights that contain one of their words with a period and a
    space and close with a period; the general route appends a period to
    every insight. As every insight ends with a period itself, each
    insight the general route quotes is followed by two periods. *)
Theorem solution_quotes_whole_insights (sha256hex : string -> string) (question : string) :
  let answer := RealtimeProcessor.processInRealTime sha256hex question in
  let top :=
    RealtimeProcessor.topInsights
      (map (RealtimeProcessor.analysePerspective sha256hex question (sha256hex question))
           (RealtimeProcessor.perspectives answer)) in
  RealtimeProcessor.solution answer
  = match RealtimeProcessor.classifyIntent question with
    | RealtimeProcessor.Method =>
        "Based on multi-perspective analysis, a viable approach would involve: "
          ++ JS.join ". " (MoreSpec.quoted RealtimeProcessor.methodWords top) ++ "."
    | RealtimeProcessor.Explanation =>
        "The explanation involves multiple interconnected factors: "
          ++ JS.join ". " (MoreSpec.quoted RealtimeProcessor.explanationWords top) ++ "."
    | RealtimeProcessor.Definition_ =>
        "From an integrated multi-dimensional analysis: "
          ++ JS.join ". " (MoreSpec.quoted RealtimeProcessor.definitionWords top) ++ "."
    | RealtimeProcessor.General =>
        "Integration of multiple perspectives indicates: "
          ++ JS.join " " (map (fun i => RealtimeProcessor.Insight.insight i ++ ".") top)
    end%string
  /\ Forall (fun i => exists stem, RealtimeProcessor.Insight.insight i = (stem ++ ".")%string)
            top.
Proof.
  cbv zeta. unfold RealtimeProcessor.processInRealTime. cbv zeta.
  cbn [RealtimeProcessor.solution RealtimeProcessor.perspectives].
  set (top := RealtimeProcessor.topInsights _).
  assert (Hall : forall i, In i top ->
                   MoreSpec.whole i
                   /\ exists stem, RealtimeProcessor.Insight.insight i = (stem ++ ".")%string)
    by (intros i Hi; exact (generated_insights_whole sha256hex question _ i Hi)).
  assert (Hwhole : Forall MoreSpec.whole top)
    by (apply List.Forall_forall; intros i Hi; apply Hall, Hi).
  split; [|apply List.Forall_forall; intros i Hi; apply Hall, Hi].
  unfold RealtimeProcessor.synthesizeInsights. cbv zeta. fold top.
  destruct (RealtimeProcessor.classifyIntent question).
  - unfold RealtimeProcessor.synthesizeMethodSolution. cbv zeta.
    rewrite (extractPhrases_whole _ _ Hwhole). reflexivity.
  - unfold RealtimeProcessor.synthesizeExplanationSolution. cbv zeta.
    rewrite (extractPhrases_whole _ _ Hwhole). reflexivity.
  - unfold RealtimeProcessor.synthesizeDefinitionSolution. cbv zeta.
    rewrite (extractPhrases_whole _ _ Hwhole). reflexivity.
  - unfold RealtimeProcessor.synthesizeGeneralSolution. cbv zeta.
    rewrite (first_sentences_whole _ Hwhole). reflexivity.
Qed.

(** * The insight network at the synthesis *)

Section NetworkLogic.

Import Krang EngineSpec MoreSpec.
Local Open Scope Q_scope.

Variable s0 : State.


Lemma netTriple_ret {A : Type} (a : A) (pre : Network -> Prop)
      (post : A -> Network -> Prop) :
  (forall n, pre n -> post a n) -> netTriple s0 pre (ret a) post.
Proof. intros H s Hs Hpre. exists a, s. auto. Qed.

Lemma netTriple_bind {A B : Type} (m : M A) (k : A -> M B)
      (pre : Network -> Prop) (mid : A -> Network -> Prop)
      (post : B -> Network -> Prop) :
  netTriple s0 pre m mid ->
  (forall a, netTriple s0 (mid a) (k a) post) ->
  netTriple s0 pre (bind m k) post.
Proof.
  intros Hm Hk s Hs Hpre. destruct (Hm s Hs Hpre) as (a & s1 & E & H1 & Ha).
  unfold bind. rewrite E. exact (Hk a s1 H1 Ha).
Qed.

Lemma netTriple_weaken {A : Type} (m : M A) (pre pre' : Network -> Prop)
      (post post' : A -> Network -> Prop) :
  netTriple s0 pre m post ->
  (forall n, pre' n -> pre n) ->
  (forall a n, post a n -> post' a n) ->
  netTriple s0 pre' m post'.
Proof.
  intros Hm Hpre Hpost s Hs Hp. destruct (Hm s Hs (Hpre _ Hp)) as (a & s1 & E & H1 & Ha).
  exists a, s1. auto.
Qed.

Lemma netTriple_tryFinally {A : Type} (body : M A) (cleanup : M unit)
      (pre : Network -> Prop) (post : A -> Network -> Prop) :
  netTriple s0 pre body post ->
  (forall a, netTriple s0 (post a) cleanup (fun _ => post a)) ->
  netTriple s0 pre (tryFinally body cleanup) post.
Proof.
  intros Hb Hc s Hs Hpre. destruct (Hb s Hs Hpre) as (a & s1 & E & H1 & Ha).
  destruct (Hc a s1 H1 Ha) as (u & s2 & E2 & H2 & Hpost).
  unfold tryFinally. rewrite E, E2. exists a, s2. auto.
Qed.

(** A loop whose body takes the invariant of the elements done to the
    invariant of one more. *)
Lemma netTriple_forOf {A B : Type} (body : B -> A -> M B)
      (inv : list A -> B -> Network -> Prop) (l : list A) :
  forall done acc,
    (forall before x after acc,
        app done l = app before (x :: after) ->
        netTriple s0 (inv before acc) (body acc x) (inv (app before [x]))) ->
    netTriple s0 (inv done acc) (forOf l body acc) (inv (app done l)).
Proof.
  induction l as [|x l IH]; intros done acc Hbody; cbn [forOf].
  - rewrite app_nil_r. apply netTriple_ret. auto.
  - eapply netTriple_bind.
    + apply (Hbody done x l acc). reflexivity.
    + intros acc'. replace (app done (x :: l)) with (app (app done [x]) l)
        by (rewrite <- app_assoc; reflexivity).
      apply IH. intros before y after acc'' E. apply (Hbody before y after acc'').
      rewrite <- E, <- app_assoc. reflexivity.
Qed.

(** A computation that leaves the network alone keeps what holds of it. *)
Lemma netTriple_frame {A : Type} (m : M A) (post : A -> Prop) (pre : Network -> Prop) :
  preserves s0 m post ->
  respects (onField insightNetwork eq) m ->
  netTriple s0 pre m (fun a n => post a /\ pre n).
Proof.
  intros Hm Hnet s Hs Hpre. destruct (Hm s Hs) as (a & s1 & E & H1 & Ha).
  exists a, s1. split; [exact E|]. split; [exact H1|]. split; [exact Ha|].
  specialize (Hnet s). unfold onField in Hnet. rewrite E in Hnet. cbn [snd] in Hnet.
  rewrite <- Hnet. exact Hpre.
Qed.

End NetworkLogic.

Section NetworkSteps.

Import Krang EngineSpec MoreSpec.
Local Open Scope Q_scope.

Variable s0 : State.


Lemma covers_after_merge (c : KrangCore) (required : string -> string -> Prop)
      (network : Network) (a b : string) (e : Edge.t) :
  covers c required network -> refinable c a b ->
  covers c (fun source target => required source target \/ (source = a /\ target = b))
         (<[a := <[b := e]> (default ∅ (network !! a))]> network).
Proof.
  intros [[Hrows Hlegal] Hcov] Hab. split; [split|].
  - intros source Hsource. destruct (decide (source = a)) as [->|Hs].
    + exists b. unfold linked. rewrite edge_after_merge, decide_True by auto. eexists. reflexivity.
    + rewrite lookup_insert_ne in Hsource by congruence.
      destruct (Hrows source Hsource) as [target Ht]. exists target.
      unfold linked in *. rewrite edge_after_merge, decide_False by tauto. exact Ht.
  - intros source target. unfold linked. rewrite edge_after_merge.
    destruct (decide (source = a /\ target = b)) as [[-> ->]|Hne]; [intros _; exact Hab|].
    apply Hlegal.
  - intros source target. unfold linked. rewrite edge_after_merge.
    destruct (decide (source = a /\ target = b)) as [_|Hne]; [intros _; eexists; reflexivity|].
    intros [H|H]; [apply Hcov, H | tauto].
Qed.

Lemma covers_weaken (c : KrangCore) (required required' : string -> string -> Prop)
      (network : Network) :
  covers c required network ->
  (forall source target, required' source target -> required source target) ->
  covers c required' network.
Proof. intros [Hw Hcov] H. split; [exact Hw|]. intros source target Hr. apply Hcov, H, Hr. Qed.

Lemma net_integrate (required : string -> string -> Prop) (base refined : Perspective.t) :
  refinable (this s0) (Perspective.name base) (Perspective.name refined) ->
  netTriple s0 (covers (this s0) required)
            (integrateRefinedInsights base refined)
            (fun b n => Perspective.name b = Perspective.name base
                        /\ covers (this s0)
                                  (fun source target =>
                                     required source target
                                     \/ (source = Perspective.name base
                                         /\ target = Perspective.name refined)) n).
Proof.
  intros Hab s Hs Hpre. eexists. eexists. split; [reflexivity|]. split.
  - destruct Hs as (H1 & H2 & H3 & H4). repeat split; assumption.
  - cbn. split; [reflexivity|]. apply covers_after_merge; assumption.
Qed.

Lemma net_push (pre : Network -> Prop) (perspective : string) (level : Z) :
  netTriple s0 pre (pushMentalContext perspective level) (fun _ => pre).
Proof.
  eapply netTriple_weaken.
  - apply (netTriple_frame s0 _ _ pre (preserves_pushMentalContext s0 perspective level)).
    intros s. reflexivity.
  - auto.
  - intros a n [_ H]. exact H.
Qed.

Lemma net_modify (pre : Network -> Prop) (f : KrangCore -> KrangCore) :
  (forall c, beliefLevels (f c) = beliefLevels c
             /\ primaryPerspectives (f c) = primaryPerspectives c
             /\ performanceMetrics (f c) = performanceMetrics c) ->
  (forall c, insightNetwork (f c) = insightNetwork c) ->
  netTriple s0 pre (modify f) (fun _ => pre).
Proof.
  intros Hf Hn. eapply netTriple_weaken.
  - apply (netTriple_frame s0 _ _ pre (preserves_modify s0 f Hf)).
    intros s. unfold onField. cbn. symmetry. apply Hn.
  - auto.
  - intros a n [_ H]. exact H.
Qed.

Lemma net_pop (pre : Network -> Prop) :
  netTriple s0 pre popMentalContext (fun _ => pre).
Proof. apply net_modify; intros c; repeat split. Qed.

Lemma net_beliefLevels (pre : Network -> Prop) :
  netTriple s0 pre (gets beliefLevels)
            (fun levels n => levels = beliefLevels (this s0) /\ pre n).
Proof.
  apply (netTriple_frame s0 _ _ pre (preserves_beliefLevels s0)). intros s. reflexivity.
Qed.

Lemma net_compatible (pre : Network -> Prop) (x : string) :
  netTriple s0 pre (getCompatiblePerspectives x)
            (fun l n => l = List.filter (fun p => negb (String.eqb p x))
                                        (primaryPerspectives (this s0))
                        /\ pre n).
Proof.
  apply (netTriple_frame s0 _ _ pre (preserves_getCompatiblePerspectives s0 x)).
  intros s. reflexivity.
Qed.

Lemma net_analyze (pre : Network -> Prop) (problem : Problem.t) (x : string) :
  netTriple s0 pre (analyzeProblemFromPerspective problem x)
            (fun p n => Perspective.name p = x /\ pre n).
Proof.
  eapply netTriple_weaken.
  - apply (netTriple_frame s0 _ _ pre (analyze_shape s0 problem x)).
    apply (respects_analyze insightNetwork eq (@eq_refl _) eq_trans').
  - auto.
  - intros p n [(H & _) Hn]. auto.
Qed.

Lemma net_refine (pre : Network -> Prop) (problem : Problem.t) (base : Perspective.t)
      (y : string) :
  netTriple s0 pre (refineAnalysis problem base y)
            (fun r n => Perspective.name r = y /\ pre n).
Proof.
  eapply netTriple_weaken.
  - apply (netTriple_frame s0 _ _ pre (refine_shape s0 problem base y)).
    apply (respects_refine insightNetwork eq (@eq_refl _) eq_trans').
  - auto.
  - intros p n [(H & _) Hn]. auto.
Qed.

(** Membership in the compatible perspectives. *)
Lemma compatible_refinable (x y : string) :
  JS.Qltb 1 (beliefLevels (this s0)) = true ->
  In x (primaryPerspectives (this s0)) ->
  (In y (List.filter (fun p => negb (String.eqb p x)) (primaryPerspectives (this s0)))
   <-> refinable (this s0) x y).
Proof.
  intros Hlevels Hx. rewrite filter_In, Bool.negb_true_iff, String.eqb_neq.
  unfold refinable. split.
  - intros [Hy Hne]. repeat split; auto.
  - intros (_ & _ & Hy & Hne). split; auto.
Qed.

Lemma net_tertiaryStep (required : string -> string -> Prop) (problem : Problem.t)
      (refined : Perspective.t) (z : string) :
  refinable (this s0) (Perspective.name refined) z ->
  netTriple s0 (covers (this s0) required)
            (tertiaryStep refineAnalysis problem refined z)
            (fun r n => Perspective.name r = Perspective.name refined
                        /\ covers (this s0) required n).
Proof.
  intros Hz. unfold tertiaryStep.
  eapply netTriple_bind; [apply net_push|]. intros ?.
  apply netTriple_tryFinally; [|intros r; apply net_pop].
  eapply netTriple_bind; [apply net_refine|]. intros deep. cbv beta.
  intros s Hs [Hdeep Hpre]. rewrite <- Hdeep in Hz.
  destruct (net_integrate required refined deep Hz s Hs Hpre) as (b & s' & E & H' & Hb & Hcov).
  exists b, s'. split; [exact E|]. split; [exact H'|]. split; [exact Hb|].
  eapply covers_weaken; [exact Hcov|]. intros source target H. left. exact H.
Qed.

Lemma net_secondaryStep (required : string -> string -> Prop) (problem : Problem.t)
      (base : Perspective.t) (y : string) :
  refinable (this s0) (Perspective.name base) y ->
  netTriple s0 (covers (this s0) required)
            (secondaryStep refineAnalysis problem base y)
            (fun b n => Perspective.name b = Perspective.name base
                        /\ covers (this s0)
                                  (fun source target =>
                                     required source target
                                     \/ (source = Perspective.name base /\ target = y)) n).
Proof.
  intros Hy. pose proof Hy as (Hlevels & Hx & HyP & Hne). unfold secondaryStep.
  set (required' := fun source target =>
                      required source target \/ (source = Perspective.name base /\ target = y)).
  eapply netTriple_bind; [apply net_push|]. intros ?.
  apply netTriple_tryFinally; [|intros r; apply net_pop].
  eapply netTriple_bind; [apply net_refine|]. intros refined. cbv beta.
  eapply netTriple_bind
    with (mid := fun b n => Perspective.name refined = y
                            /\ Perspective.name b = Perspective.name base
                            /\ covers (this s0) required' n).
  { intros s Hs [Hrefined Hpre]. pose proof Hy as Hy'. rewrite <- Hrefined in Hy'.
    destruct (net_integrate required base refined Hy' s Hs Hpre)
      as (b & s' & E & H' & Hb & Hcov).
    exists b, s'. split; [exact E|]. split; [exact H'|]. split; [exact Hrefined|].
    split; [exact Hb|]. subst required'. rewrite <- Hrefined. exact Hcov. }
  intros b. cbv beta.
  eapply netTriple_bind; [apply net_beliefLevels|]. intros levels. cbv beta.
  destruct (JS.Qltb 2 levels).
  - eapply netTriple_bind; [apply net_compatible|]. intros l. cbv beta.
    intros s Hs (-> & _ & Hrefined & Hb & Hcov).
    pose proof (netTriple_forOf s0 (tertiaryStep refineAnalysis problem)
                  (fun _ r n => Perspective.name r = y /\ covers (this s0) required' n)
                  (List.filter (fun p => negb (String.eqb p y)) (primaryPerspectives (this s0)))
                  [] refined) as Hloop.
    destruct (Hloop
                ltac:(intros before z after acc E s1 Hs1 [Hacc Hc];
                      assert (Hz : refinable (this s0) (Perspective.name acc) z)
                        by (rewrite Hacc; apply compatible_refinable; [assumption..|];
                            cbn [app] in E; rewrite E; apply in_elt);
                      destruct (net_tertiaryStep required' problem acc z Hz s1 Hs1 Hc)
                        as (r & s2 & E2 & H2 & Hr & Hc2);
                      exists r, s2; split; [exact E2|]; split; [exact H2|];
                      split; [congruence | exact Hc2])
                s Hs (conj Hrefined Hcov))
      as (refined' & s' & E & H' & _ & Hcov').
    unfold bind. rewrite E. eexists. exists s'. split; [reflexivity|].
    split; [exact H'|]. split; [exact Hb | exact Hcov'].
  - apply netTriple_ret. intros n (_ & _ & Hb & Hcov). split; assumption.
Qed.

(** The loop over the perspectives [l] compatible with [x]. *)
Lemma net_secondaryLoop (required : string -> string -> Prop) (problem : Problem.t)
      (x : string) (l : list string) (base : Perspective.t) :
  Perspective.name base = x ->
  (forall y, In y l -> refinable (this s0) x y) ->
  netTriple s0 (covers (this s0) required)
            (forOf l (secondaryStep refineAnalysis problem) base)
            (fun _ n => covers (this s0)
                               (fun source target =>
                                  required source target \/ (source = x /\ In target l)) n).
Proof.
  intros Hbase Hl.
  pose proof (netTriple_forOf s0 (secondaryStep refineAnalysis problem)
                (fun done b n =>
                   Perspective.name b = x
                   /\ covers (this s0)
                             (fun source target =>
                                required source target \/ (source = x /\ In target done)) n)
                l [] base) as Hloop.
  eapply netTriple_weaken.
  - apply Hloop. intros before y after acc E s Hs [Hacc Hcov].
    assert (Hy : refinable (this s0) (Perspective.name acc) y)
      by (rewrite Hacc; apply Hl; cbn [app] in E; rewrite E; apply in_elt).
    destruct (net_secondaryStep _ problem acc y Hy s Hs Hcov) as (b & s' & E' & H' & Hb & Hc).
    exists b, s'. split; [exact E'|]. split; [exact H'|]. split; [congruence|].
    eapply covers_weaken; [exact Hc|]. intros source target [H|[-> H]]; [tauto|].
    apply in_app_or in H. destruct H as [H|[<-|[]]]; [tauto|]. right.
    split; [symmetry; exact Hacc|reflexivity].
  - intros n Hcov. split; [exact Hbase|].
    eapply covers_weaken; [exact Hcov|]. intros source target [H|[_ []]]. exact H.
  - intros b n [_ Hcov]. exact Hcov.
Qed.

Lemma net_primaryStep (required : string -> string -> Prop) (problem : Problem.t)
      (results : list Perspective.t) (x : string) :
  In x (primaryPerspectives (this s0)) ->
  netTriple s0 (covers (this s0) required)
            (primaryStep analyzeProblemFromPerspective refineAnalysis problem results x)
            (fun _ n => covers (this s0)
                               (fun source target =>
                                  required source target
                                  \/ (source = x /\ refinable (this s0) x target)) n).
Proof.
  intros Hx. unfold primaryStep.
  set (post := covers (this s0)
                      (fun source target =>
                         required source target \/ (source = x /\ refinable (this s0) x target))).
  eapply netTriple_bind; [apply net_modify; intros c; repeat split|]. intros ?.
  eapply netTriple_bind; [apply net_push|]. intros ?.
  apply netTriple_tryFinally with (post := fun _ => post).
  2:{ intros r. eapply netTriple_bind; [apply net_pop|]. intros ?.
      apply net_modify; intros c; repeat split. }
  eapply netTriple_bind; [apply net_analyze|]. intros base. cbv beta.
  eapply netTriple_bind; [apply net_beliefLevels|]. intros levels. cbv beta.
  eapply netTriple_bind with (mid := fun _ => post); [|intros b; apply netTriple_ret; auto].
  destruct (JS.Qltb 1 levels) eqn:Elevels.
  - eapply netTriple_bind; [apply net_compatible|]. intros l. cbv beta.
    intros s Hs (-> & -> & Hbase & Hcov).
    destruct (net_secondaryLoop required problem x
                (List.filter (fun p => negb (String.eqb p x)) (primaryPerspectives (this s0)))
                base Hbase
                ltac:(intros y Hy; apply compatible_refinable; assumption) s Hs Hcov)
      as (b & s' & E & H' & Hc).
    exists b, s'. split; [exact E|]. split; [exact H'|].
    eapply covers_weaken; [exact Hc|]. intros source target [H|[-> H]]; [tauto|].
    right. split; [reflexivity|]. apply compatible_refinable; assumption.
  - apply netTriple_ret. intros n (-> & _ & Hcov).
    eapply covers_weaken; [exact Hcov|]. intros source target [H|[_ (H & _)]]; [exact H|].
    congruence.
Qed.

Lemma net_primaryLoop (problem : Problem.t) :
  netTriple s0 (wellFormed (this s0))
            (forOf (primaryPerspectives (this s0))
                   (primaryStep analyzeProblemFromPerspective refineAnalysis problem) [])
            (fun _ n => covers (this s0) (refinable (this s0)) n).
Proof.
  pose proof (netTriple_forOf s0
                (primaryStep analyzeProblemFromPerspective refineAnalysis problem)
                (fun done _ n =>
                   covers (this s0)
                          (fun source target =>
                             In source done /\ refinable (this s0) source target) n)
                (primaryPerspectives (this s0)) [] []) as Hloop.
  eapply netTriple_weaken.
  - apply Hloop. intros before x after acc E s Hs Hcov.
    assert (Hx : In x (primaryPerspectives (this s0)))
      by (cbn [app] in E; rewrite E; apply in_elt).
    destruct (net_primaryStep _ problem acc x Hx s Hs Hcov) as (b & s' & E' & H' & Hc).
    exists b, s'. split; [exact E'|]. split; [exact H'|].
    eapply covers_weaken; [exact Hc|]. intros source target [H Hr].
    apply in_app_or in H. destruct H as [H|[<-|[]]]; [tauto|]. right. tauto.
  - intros n Hw. split; [exact Hw|]. intros source target [[] _].
  - intros rs n Hcov. cbn [app] in Hcov.
    eapply covers_weaken; [exact Hcov|]. intros source target Hr. split; [apply Hr | exact Hr].
Qed.

End NetworkSteps.

(** * The size of a network that has every refinable edge *)

Section NetworkSize.

Import Krang EngineSpec MoreSpec.
#[local] Set Warnings "-clear-no-such-hyp".


Variable c : KrangCore.
Variable network : Network.
Hypothesis complete : covers c (refinable c) network.


Lemma In_names (x : string) : x ∈ (perspectiveSet c) <-> In x (primaryPerspectives c).
Proof. unfold perspectiveSet. rewrite elem_of_list_to_set. apply list_elem_of_In. Qed.

Lemma linked_iff (source target : string) :
  linked network source target <-> refinable c source target.
Proof. destruct complete as [[_ Hlegal] Hcov]. split; [apply Hlegal | apply Hcov]. Qed.

(** An instance that does not refine has no refinable pair. *)
Lemma no_refinable (source target : string) :
  refines c = false -> ~ refinable c source target.
Proof.
  unfold refines. intros Hr (Hlevels & Hs & Ht & Hne). rewrite Hlevels in Hr.
  cbn [andb] in Hr. apply Nat.ltb_ge in Hr. unfold distinctCount in Hr.
  apply In_names in Hs. apply In_names in Ht.
  assert (Hsub : ({[source]} ∪ {[target]} : gset string) ⊆ (perspectiveSet c)) by set_solver.
  apply subseteq_size in Hsub. rewrite size_union in Hsub by set_solver.
  rewrite !size_singleton in Hsub. lia.
Qed.

Lemma network_empty : refines c = false -> network = ∅.
Proof.
  intros Hr. apply map_empty. intros source.
  destruct (network !! source) as [row|] eqn:E; [|reflexivity].
  destruct complete as [[Hrows _] _].
  destruct (Hrows source ltac:(rewrite E; eexists; reflexivity)) as [target Ht].
  apply linked_iff in Ht. destruct (no_refinable source target Hr Ht).
Qed.

Section Refining.

Hypothesis refining : refines c = true.

Lemma levels_refine : JS.Qltb 1 (beliefLevels c) = true.
Proof. unfold refines in refining. apply andb_prop in refining. tauto. Qed.

Lemma two_names : (2 <= size (perspectiveSet c))%nat.
Proof.
  unfold refines in refining. apply andb_prop in refining. destruct refining as [_ H].
  apply Nat.ltb_lt in H. exact H.
Qed.

Lemma other_name (x : string) :
  x ∈ perspectiveSet c -> exists y, y ∈ perspectiveSet c /\ x <> y.
Proof.
  intros Hx. pose proof two_names as H2.
  assert (Hsize : size ((perspectiveSet c) ∖ {[x]}) = (size (perspectiveSet c) - 1)%nat).
  { rewrite size_difference by set_solver. rewrite size_singleton. reflexivity. }
  destruct (size_pos_elem_of ((perspectiveSet c) ∖ {[x]}) ltac:(lia)) as [y Hy].
  exists y. set_solver.
Qed.

Lemma network_dom : dom network = (perspectiveSet c).
Proof.
  apply set_eq. intros x. rewrite elem_of_dom. split.
  - intros Hx. destruct complete as [[Hrows _] _]. destruct (Hrows x Hx) as [y Hy].
    apply linked_iff in Hy. apply In_names. apply Hy.
  - intros Hx. destruct (other_name x Hx) as (y & Hy & Hne).
    assert (Hl : linked network x y).
    { apply linked_iff. split; [exact levels_refine|].
      split; [apply In_names, Hx|]. split; [apply In_names, Hy | exact Hne]. }
    unfold linked, edge in Hl. destruct (network !! x); [eexists; reflexivity|].
    destruct Hl as [e He]. discriminate He.
Qed.

Lemma row_size (x : string) (row : gmap string Edge.t) :
  network !! x = Some row -> size row = (size (perspectiveSet c) - 1)%nat.
Proof.
  intros Hrow.
  assert (Hx : x ∈ perspectiveSet c)
    by (rewrite <- network_dom; apply elem_of_dom; eexists; exact Hrow).
  rewrite <- (size_dom (D := gset string) row).
  replace (dom row) with ((perspectiveSet c) ∖ {[x]}).
  { rewrite size_difference by set_solver. rewrite size_singleton. reflexivity. }
  apply set_eq. intros y. rewrite elem_of_dom.
  assert (Hl : linked network x y <-> is_Some (row !! y))
    by (unfold linked, edge; rewrite Hrow; reflexivity).
  rewrite <- Hl, linked_iff. unfold refinable. rewrite <- !In_names.
  pose proof levels_refine. set_solver.
Qed.

End Refining.

Lemma rows_counted (k : nat) (m : Network) :
  (forall x row, m !! x = Some row -> size row = k) ->
  edgeCount m = (size m * k)%nat.
Proof.
  unfold edgeCount.
  apply (map_fold_weak_ind
           (fun r (m : Network) =>
              (forall x row, m !! x = Some row -> size row = k) -> r = (size m * k)%nat)).
  - intros _. rewrite map_size_empty. reflexivity.
  - intros x row m' r Hnone IH Hrows.
    rewrite map_size_insert_None by exact Hnone.
    rewrite (Hrows x row) by apply lookup_insert_eq.
    rewrite IH; [lia|].
    intros y row' Hy. apply (Hrows y). rewrite lookup_insert_ne; [exact Hy|].
    intros ->. rewrite Hnone in Hy. discriminate Hy.
Qed.

(** The nodes and edges of the network. *)
Lemma complete_counts :
  size network = (if refines c then distinctCount c else 0)%nat
  /\ edgeCount network
     = (if refines c then distinctCount c * (distinctCount c - 1) else 0)%nat.
Proof.
  destruct (refines c) eqn:Hr.
  - assert (Hsize : size network = distinctCount c).
    { rewrite <- (size_dom (D := gset string) network), (network_dom Hr). reflexivity. }
    split; [exact Hsize|].
    rewrite (rows_counted (distinctCount c - 1) network), Hsize; [reflexivity|].
    intros x row Hrow. apply (row_size Hr x row Hrow).
  - rewrite (network_empty Hr). split; [apply map_size_empty | reflexivity].
Qed.

End NetworkSize.

(** * The network size a call reports *)

Section NetworkReport.

Import Krang EngineSpec MoreSpec.
Local Open Scope Q_scope.

Lemma wellFormed_config (c c' : KrangCore) (network : Network) :
  beliefLevels c' = beliefLevels c ->
  primaryPerspectives c' = primaryPerspectives c ->
  wellFormed c network -> wellFormed c' network.
Proof.
  intros Hb Hp [Hrows Hlegal]. split; [exact Hrows|].
  intros source target H. destruct (Hlegal source target H) as (H1 & H2 & H3 & H4).
  unfold refinable. rewrite Hb, Hp. auto.
Qed.

Lemma wellFormed_of_covers (c : KrangCore) (required : string -> string -> Prop)
      (network : Network) :
  covers c required network -> wellFormed c network.
Proof. intros [H _]. exact H. Qed.

Lemma pairs_quotient (d : nat) :
  (2 <= d)%nat ->
  inject_Z (Z.of_nat (d * (d - 1)))
  / (inject_Z (Z.of_nat d) * (inject_Z (Z.of_nat d) - 1)) == 1.
Proof.
  intros Hd. pose proof (pairs_positive d ltac:(lia)) as Hp.
  assert (Hn : inject_Z (Z.of_nat (d * (d - 1)))
               == inject_Z (Z.of_nat d) * (inject_Z (Z.of_nat d) - 1)).
  { rewrite Nat2Z.inj_mul, Nat2Z.inj_sub by lia. generalize (Z.of_nat d). intros z.
    unfold Qeq. cbn. change (Z.of_nat 1) with 1%Z. change (Z.pos (1 * (1 * 1))) with 1%Z.
    ring. }
  rewrite Hn. apply Qmult_inv_r. intros H0. rewrite H0 in Hp.
  exact (Qlt_irrefl 0 Hp).
Qed.

(** One call from a state with a well formed network. *)
Lemma call_network (problem : Problem.t) (s : State) :
  wellFormed (this s) (insightNetwork (this s)) ->
  exists result s',
    processProblem problem s = (Returned result, s')
    /\ beliefLevels (this s') = beliefLevels (this s)
    /\ primaryPerspectives (this s') = primaryPerspectives (this s)
    /\ wellFormed (this s) (insightNetwork (this s'))
    /\ NetworkSize.nodes (Synthesis.insightNetworkSize (Result.synthesis result))
       = (if refines (this s) then distinctCount (this s) else 0)%nat
    /\ NetworkSize.edges (Synthesis.insightNetworkSize (Result.synthesis result))
       = (if refines (this s)
          then distinctCount (this s) * (distinctCount (this s) - 1) else 0)%nat
    /\ exists q,
         NetworkSize.density (Synthesis.insightNetworkSize (Result.synthesis result))
         = JS.Fin q
         /\ q == (if refines (this s) then 1 else 0).
Proof.
  intros Hw.
  destruct (processProblem_anatomy problem s)
    as (s1 & results & s2 & synthesis & s3 & s4 & result
        & E1 & E2 & E3 & E4 & E & _ & _ & Hsyn & _).
  pose proof (entry_agrees s s1 E1) as H1.
  destruct (entry_state s s1 E1) as (_ & _ & N1 & _).
  destruct (net_primaryLoop s problem s1 H1 ltac:(rewrite N1; exact Hw))
    as (rs & s2' & E2' & H2 & Hcov).
  destruct H1 as (_ & P1 & _). rewrite P1 in E2. rewrite E2 in E2'.
  injection E2' as _ <-.
  destruct (calculateInsightNetworkComplexity_cases s2) as (d & Ec & Hd & Hd0 & _).
  cbv zeta in Ec, Hd, Hd0.
  assert (Hs3 : this s3 = this s2 /\ world s3 = world (snd (Math_random s2))
                /\ Synthesis.insightNetworkSize synthesis
                   = NetworkSize.mk (size (insightNetwork (this s2)))
                                    (edgeCount (insightNetwork (this s2))) d).
  { revert E3. unfold synthesizeResults. cbv zeta. unfold bind at 1. rewrite Ec.
    unfold bind, calculateConsilienceScore, bind, Math_random, ret. intros E3.
    injection E3 as <- <-. repeat split. }
  destruct Hs3 as (T3 & W3 & Hsize).
  destruct (complete_counts (this s) (insightNetwork (this s2)) Hcov) as [Hnodes Hedges].
  exists result. eexists. split; [exact E|].
  assert (Hfinal : this (snd (resetMentalContext s4))
                   = setStack (mentalContextStack (this (snd (resetMentalContext s4))))
                              (setMetrics (updatedMetrics (this s3) (Synthesis.confidence synthesis))
                                          (this s2))).
  { cbn. rewrite E4, T3. reflexivity. }
  destruct H2 as (B2 & P2 & _).
  rewrite Hfinal. cbn [beliefLevels primaryPerspectives insightNetwork setStack setMetrics].
  split; [exact B2|]. split; [exact P2|].
  split; [exact (wellFormed_of_covers _ _ _ Hcov)|].
  rewrite Hsyn, Hsize. cbn [NetworkSize.nodes NetworkSize.edges NetworkSize.density].
  split; [exact Hnodes|]. split; [exact Hedges|].
  destruct (refines (this s)) eqn:Hr.
  - assert (H2 : (2 <= distinctCount (this s))%nat).
    { unfold refines in Hr. apply andb_prop in Hr. destruct Hr as [_ Hr].
      apply Nat.ltb_lt in Hr. exact Hr. }
    eexists. split; [apply Hd; lia|]. rewrite Hnodes, Hedges. apply pairs_quotient, H2.
  - exists 0. split; [apply Hd0, Hnodes | reflexivity].
Qed.

(** Call after call, the network stays well formed and the
    configuration stays. *)
Lemma reachable_network (problems : list Problem.t) :
  forall s,
    wellFormed (this s) (insightNetwork (this s)) ->
    let s' := snd (processAll problems s) in
    beliefLevels (this s') = beliefLevels (this s)
    /\ primaryPerspectives (this s') = primaryPerspectives (this s)
    /\ wellFormed (this s') (insightNetwork (this s')).
Proof.
  induction problems as [|problem problems IH]; intros s Hw; cbv zeta.
  - cbn. auto.
  - destruct (call_network problem s Hw) as (result & s1 & E & B1 & P1 & W1 & _).
    assert (Hrun : snd (processAll (problem :: problems) s) = snd (processAll problems s1)).
    { cbn [processAll]. unfold bind at 1. rewrite E.
      unfold bind. destruct (processAll problems s1) as [[rs|e] s2]; reflexivity. }
    rewrite Hrun.
    assert (W1' : wellFormed (this s1) (insightNetwork (this s1)))
      by (apply (wellFormed_config (this s)); assumption).
    specialize (IH s1 W1'). cbv zeta in IH. destruct IH as (B & P & W).
    split; [congruence|]. split; [congruence | exact W].
Qed.

Lemma fresh_wellFormed (config : Config.t) (w : World) :
  wellFormed (this (fresh config w)) (insightNetwork (this (fresh config w))).
Proof.
  split.
  - intros source [row H]. cbn in H. rewrite lookup_empty in H. discriminate H.
  - intros source target [e H]. unfold edge in H. cbn in H. rewrite lookup_empty in H.
    discriminate H.
Qed.

End NetworkReport.

(** X20. On an instance made by the constructor, after any number of
    calls, the network size [processProblem] reports is fixed by the
    configuration: with more than one belief level and [d >= 2]
    different primary perspectives the network has [d] nodes, all the
    [d * (d - 1)] edges between them, and density 1; otherwise it is
    empty and the density is 0. The network never has exactly one
    node, so that the division by [nodes * (nodes - 1)] is never one by
    zero. *)
Theorem network_size_reported (config : Krang.Config.t) (w : Krang.World)
        (problems : list Krang.Problem.t) (problem : Krang.Problem.t) :
  let c := Krang.constructor config in
  exists result s',
    Krang.processProblem problem
      (snd (Krang.processAll problems (EngineSpec.fresh config w)))
    = (Krang.Returned result, s')
    /\ Krang.NetworkSize.nodes
         (Krang.Synthesis.insightNetworkSize (Krang.Result.synthesis result))
       = (if MoreSpec.refines c then MoreSpec.distinctCount c else 0)%nat
    /\ Krang.NetworkSize.edges
         (Krang.Synthesis.insightNetworkSize (Krang.Result.synthesis result))
       = (if MoreSpec.refines c
          then MoreSpec.distinctCount c * (MoreSpec.distinctCount c - 1) else 0)%nat
    /\ Krang.NetworkSize.nodes
         (Krang.Synthesis.insightNetworkSize (Krang.Result.synthesis result)) <> 1%nat
    /\ exists q,
         Krang.NetworkSize.density
           (Krang.Synthesis.insightNetworkSize (Krang.Result.synthesis result))
         = JS.Fin q
         /\ (q == (if MoreSpec.refines c then 1 else 0))%Q.
Proof.
  cbv zeta.
  destruct (reachable_network problems (EngineSpec.fresh config w)
              (fresh_wellFormed config w)) as (B & P & W).
  set (s := snd (Krang.processAll problems (EngineSpec.fresh config w))) in *.
  destruct (call_network problem s W) as (result & s' & E & _ & _ & _ & Hn & He & q & Hq & Hq1).
  assert (Hc : MoreSpec.refines (Krang.this s) = MoreSpec.refines (Krang.constructor config)
               /\ MoreSpec.distinctCount (Krang.this s)
                  = MoreSpec.distinctCount (Krang.constructor config)).
  { unfold MoreSpec.refines, MoreSpec.distinctCount, MoreSpec.perspectiveSet.
    rewrite B, P. split; reflexivity. }
  destruct Hc as [Hr Hd]. rewrite Hr, Hd in *.
  exists result, s'. split; [exact E|]. split; [exact Hn|]. split; [exact He|].
  split.
  - rewrite Hn. destruct (MoreSpec.refines (Krang.constructor config)) eqn:Hrefines; [|lia].
    unfold MoreSpec.refines in Hrefines. apply andb_prop in Hrefines.
    destruct Hrefines as [_ H]. apply Nat.ltb_lt in H. lia.
  - exists q. split; [exact Hq | exact Hq1].
Qed.

(** * The tree of perspectives a call returns *)

Section EngineTree.

Import Krang EngineSpec MoreSpec.
Local Open Scope Q_scope.

Variable s0 : State.

Lemma refine_leaf (problem : Problem.t) (base : Perspective.t) (y : string) :
  preserves s0 (refineAnalysis problem base y)
            (fun r => Perspective.name r = y /\ leaf r).
Proof.
  unfold refineAnalysis.
  eapply preserves_bind; [apply preserves_getCurrentMentalContext|]. intros ctx _. cbv zeta.
  eapply preserves_bind; [apply preserves_random|]. intros id _.
  eapply preserves_bind; [apply preserves_random|]. intros r _.
  apply preserves_ret. split; reflexivity.
Qed.

Lemma tertiaryStep_tree (problem : Problem.t) (refined : Perspective.t) (z : string) :
  preserves s0 (tertiaryStep refineAnalysis problem refined z)
            (fun r => Perspective.name r = Perspective.name refined
                      /\ exists deep,
                           Perspective.childPerspectives r
                           = Some (app (default [] (Perspective.childPerspectives refined))
                                       [deep])
                           /\ Perspective.name deep = z /\ leaf deep).
Proof.
  unfold tertiaryStep.
  eapply preserves_bind; [apply preserves_pushMentalContext|]. intros _ _.
  apply preserves_tryFinally; [|apply preserves_popMentalContext].
  eapply preserves_bind; [apply refine_leaf|]. intros deep [Hname Hleaf].
  eapply preserves_weaken; [apply integrate_shape|]. intros b (H1 & _ & _ & H4).
  split; [exact H1|]. exists deep. auto.
Qed.

Lemma tertiaryLoop_tree (problem : Problem.t) (l : list string) :
  forall refined,
    preserves s0 (forOf l (tertiaryStep refineAnalysis problem) refined)
              (fun r => Perspective.name r = Perspective.name refined
                        /\ exists added,
                             default [] (Perspective.childPerspectives r)
                             = app (default [] (Perspective.childPerspectives refined)) added
                             /\ map Perspective.name added = l
                             /\ Forall leaf added).
Proof.
  induction l as [|z l IH]; intros refined; cbn [forOf].
  - apply preserves_ret. split; [reflexivity|]. exists []. rewrite app_nil_r.
    split; [reflexivity|]. split; [reflexivity | constructor].
  - eapply preserves_bind; [apply tertiaryStep_tree|].
    intros r (Hname & deep & Hch & Hdeep & Hleaf).
    eapply preserves_weaken; [apply IH|].
    intros r' (Hname' & added & Hch' & Hnames & Hleaves).
    split; [congruence|]. exists (deep :: added).
    split; [rewrite Hch', Hch; cbn [from_option id]; rewrite <- app_assoc; reflexivity|].
    split; [cbn [map]; congruence|]. constructor; assumption.
Qed.

Lemma secondaryStep_tree (problem : Problem.t) (base : Perspective.t) (y : string) :
  preserves s0 (secondaryStep refineAnalysis problem base y)
            (fun b => exists child,
                        Perspective.childPerspectives b
                        = Some (app (default [] (Perspective.childPerspectives base)) [child])
                        /\ refinedBy (this s0) y child).
Proof.
  unfold secondaryStep.
  eapply preserves_bind; [apply preserves_pushMentalContext|]. intros _ _.
  apply preserves_tryFinally; [|apply preserves_popMentalContext].
  eapply preserves_bind; [apply refine_leaf|]. intros refined [Hname Hleaf].
  eapply preserves_bind; [apply integrate_shape|]. intros b (_ & _ & _ & Hb4).
  eapply preserves_bind; [apply preserves_beliefLevels|]. intros levels ->.
  unfold refinedBy, deepRefinementsOf.
  destruct (JS.Qltb 2 (beliefLevels (this s0))).
  - eapply preserves_bind; [apply preserves_getCompatiblePerspectives|]. intros l ->.
    eapply preserves_bind; [apply tertiaryLoop_tree|].
    intros refined' (Hname' & added & Hch & Hnames & Hleaves).
    apply preserves_ret. exists refined'.
    cbn [replaceLastChild Perspective.childPerspectives]. rewrite Hb4. cbn [option_map].
    rewrite removelast_last. split; [reflexivity|].
    unfold leaf in Hleaf. rewrite Hleaf in Hch. cbn [from_option id app] in Hch.
    rewrite Hch. split; [congruence|]. split; assumption.
  - apply preserves_ret. exists refined. split; [exact Hb4|].
    unfold leaf in Hleaf. rewrite Hleaf. cbn [from_option id map].
    split; [exact Hname|]. split; [reflexivity | constructor].
Qed.

Lemma secondaryLoop_tree (problem : Problem.t) (l : list string) :
  forall base,
    preserves s0 (forOf l (secondaryStep refineAnalysis problem) base)
              (fun b => exists added,
                          default [] (Perspective.childPerspectives b)
                          = app (default [] (Perspective.childPerspectives base)) added
                          /\ Forall2 (refinedBy (this s0)) l added).
Proof.
  induction l as [|y l IH]; intros base; cbn [forOf].
  - apply preserves_ret. exists []. rewrite app_nil_r. split; [reflexivity | constructor].
  - eapply preserves_bind; [apply secondaryStep_tree|]. intros b (child & Hch & Hchild).
    eapply preserves_weaken; [apply IH|]. intros b' (added & Hch' & Hadded).
    exists (child :: added).
    split; [rewrite Hch', Hch; cbn [from_option id]; rewrite <- app_assoc; reflexivity|].
    constructor; assumption.
Qed.

Lemma primaryStep_tree (problem : Problem.t) (results : list Perspective.t) (x : string) :
  preserves s0 (primaryStep analyzeProblemFromPerspective refineAnalysis problem results x)
            (fun rs => exists p, rs = app results [p] /\ tree (this s0) x p).
Proof.
  unfold primaryStep.
  eapply preserves_bind; [apply preserves_activatePerspective|]. intros _ _.
  eapply preserves_bind; [apply preserves_pushMentalContext|]. intros _ _.
  apply preserves_tryFinally.
  2:{ eapply preserves_bind; [apply preserves_popMentalContext|]. intros _ _.
      apply preserves_deactivatePerspective. }
  eapply preserves_bind; [apply analyze_shape|]. intros base (_ & _ & _ & Hc).
  eapply preserves_bind; [apply preserves_beliefLevels|]. intros levels ->.
  eapply preserves_bind with (mid := tree (this s0) x).
  2:{ intros b Hb. apply preserves_ret. exists b. split; [reflexivity | exact Hb]. }
  unfold tree, refinementsOf.
  destruct (JS.Qltb 1 (beliefLevels (this s0))).
  - eapply preserves_bind; [apply preserves_getCompatiblePerspectives|]. intros l ->.
    eapply preserves_weaken; [apply secondaryLoop_tree|].
    intros b (added & Hch & Hadded). rewrite Hch, Hc. exact Hadded.
  - apply preserves_ret. rewrite Hc. constructor.
Qed.

Lemma primaryLoop_tree (problem : Problem.t) (l : list string) :
  forall results,
    preserves s0 (forOf l (primaryStep analyzeProblemFromPerspective refineAnalysis problem)
                        results)
              (fun rs => exists added,
                           rs = app results added /\ Forall2 (tree (this s0)) l added).
Proof.
  induction l as [|x l IH]; intros results; cbn [forOf].
  - apply preserves_ret. exists []. rewrite app_nil_r. split; [reflexivity | constructor].
  - eapply preserves_bind; [apply primaryStep_tree|]. intros rs (p & -> & Hp).
    eapply preserves_weaken; [apply IH|]. intros rs' (added & -> & Hadded).
    exists (p :: added). split; [rewrite <- app_assoc; reflexivity|].
    constructor; assumption.
Qed.

End EngineTree.

(** X22. Whatever the number of belief levels, the perspectives a call
    returns are trees of depth at most three: the children of the
    analysis of a perspective are its refinements by the other
    perspectives, in their order; with more than two belief levels the
    children of each of these are its refinements by the perspectives
    other than its own, and they have no children; with at most two
    belief levels the refinements have no children. More than three
    belief levels add nothing. *)
Theorem result_trees (problem : Krang.Problem.t) (s : Krang.State) :
  exists result s',
    Krang.processProblem problem s = (Krang.Returned result, s')
    /\ Forall2 (MoreSpec.tree (Krang.this s))
               (Krang.primaryPerspectives (Krang.this s))
               (Krang.Result.perspectives result).
Proof.
  destruct (processProblem_anatomy problem s)
    as (s1 & results & s2 & synthesis & s3 & s4 & result
        & E1 & E2 & E3 & E4 & E & _ & Hr & _).
  pose proof (entry_agrees s s1 E1) as Hagrees.
  destruct (primaryLoop_tree s problem (Krang.primaryPerspectives (Krang.this s1)) [] s1 Hagrees)
    as (rs & s2' & E2' & _ & added & -> & Hadded).
  rewrite E2 in E2'. injection E2' as Hresults _.
  exists result. eexists. split; [exact E|].
  rewrite Hr, Hresults. cbn [app]. destruct Hagrees as (_ & <- & _). exact Hadded.
Qed.

(** * A call that fails *)

Section FailedCall.

Import Krang EngineSpec MoreSpec.

Variable analyze : Problem.t -> string -> M Perspective.t.
Variable refine : Problem.t -> Perspective.t -> string -> M Perspective.t.

Hypothesis analyze_active :
  forall problem x, respects (onField activePerspectives eq) (analyze problem x).
Hypothesis refine_active :
  forall problem base x, respects (onField activePerspectives eq) (refine problem base x).
Hypothesis analyze_metrics :
  forall problem x, respects (onField performanceMetrics eq) (analyze problem x).
Hypothesis refine_metrics :
  forall problem base x, respects (onField performanceMetrics eq) (refine problem base x).

(** However a primary step ends, its perspective is not active
    afterwards, and the others are as before. *)
Lemma primaryStep_deactivates (problem : Problem.t) (results : list Perspective.t)
      (x : string) (s : State) :
  activePerspectives (this (snd (primaryStep analyze refine problem results x s)))
  = delete x (activePerspectives (this s)).
Proof.
  unfold primaryStep, activatePerspective. rewrite bind_modify, bind_push, tryFinally_snd.
  set (s1 := snd (pushMentalContext x 1 _)).
  pose proof (respects_primaryBody activePerspectives eq (@eq_refl _) eq_trans'
                ltac:(reflexivity) analyze refine analyze_active refine_active
                ltac:(intros b r s'; reflexivity)
                problem results x s1) as Hbody.
  unfold onField in Hbody. cbn [this activePerspectives setStack setActive] in Hbody.
  unfold popMentalContext, deactivatePerspective. rewrite bind_modify.
  cbn [modify snd this activePerspectives setActive setStack].
  rewrite <- Hbody. apply delete_insert_eq.
Qed.

Lemma primaryLoop_inactive (problem : Problem.t) (l : list string)
      (results : list Perspective.t) :
  respects (onField activePerspectives (fun active active' => active = ∅ -> active' = ∅))
           (forOf l (primaryStep analyze refine problem) results).
Proof.
  apply respects_forOf.
  - intros active H. exact H.
  - intros x y z Hxy Hyz Hx. apply Hyz, Hxy, Hx.
  - intros acc x s. unfold onField. rewrite primaryStep_deactivates. intros ->.
    apply delete_empty.
Qed.

Lemma primaryLoop_metrics (problem : Problem.t) (l : list string)
      (results : list Perspective.t) :
  respects (onField performanceMetrics eq)
           (forOf l (primaryStep analyze refine problem) results).
Proof.
  apply (respects_forOf _ _ (@eq_refl _) eq_trans'). intros acc x.
  apply (respects_primaryStep performanceMetrics eq (@eq_refl _) eq_trans');
    [reflexivity | exact analyze_metrics | exact refine_metrics
    | intros b r s'; reflexivity | reflexivity].
Qed.

(** The outcome and the state of a call whose loop has thrown. *)
Lemma failed_call (problem : Problem.t) (s : State) (e : string) (s' : State) :
  processProblemWith analyze refine problem s = (Thrown e, s') ->
  exists s2,
    forOf (primaryPerspectives (this (snd (processProblemEntry s))))
          (primaryStep analyze refine problem) [] (snd (processProblemEntry s))
    = (Thrown e, s2)
    /\ s' = snd (resetMentalContext s2).
Proof.
  unfold processProblemWith. unfold bind at 1.
  destruct (processProblemEntry s) as [r1 s1] eqn:E1.
  assert (r1 = Returned tt) as -> by (cbv in E1; congruence).
  cbn [snd]. unfold tryFinally, bind at 1, gets at 1. unfold bind at 1.
  destruct (forOf _ _ _ _) as [[results|e2] s2] eqn:E2.
  - destruct (synthesizeResults_returns results problem s2) as (synthesis & s3 & E3).
    unfold bind at 1. rewrite E3. cbn. discriminate.
  - cbn. intros H. injection H as <- <-. exists s2. split; reflexivity.
Qed.

End FailedCall.

(** X23. When a call of [processProblem] ends with an error thrown by
    one of its generator methods, the error is the one the loop over the
    perspectives met, the performance metrics are as before the call
    (the problem is not counted), no perspective is left active, and the
    context stack holds the root entry alone. This holds for any
    generators that only read the active perspectives and the metrics. *)
Theorem failed_call_effects
        (analyze : Krang.Problem.t -> string -> Krang.M Krang.Perspective.t)
        (refine : Krang.Problem.t -> Krang.Perspective.t -> string -> Krang.M Krang.Perspective.t)
        (problem : Krang.Problem.t) (s : Krang.State) (e : string) (s' : Krang.State) :
  (forall problem x,
      MoreSpec.respects (MoreSpec.onField Krang.activePerspectives eq) (analyze problem x)) ->
  (forall problem base x,
      MoreSpec.respects (MoreSpec.onField Krang.activePerspectives eq) (refine problem base x)) ->
  (forall problem x,
      MoreSpec.respects (MoreSpec.onField Krang.performanceMetrics eq) (analyze problem x)) ->
  (forall problem base x,
      MoreSpec.respects (MoreSpec.onField Krang.performanceMetrics eq) (refine problem base x)) ->
  Krang.processProblemWith analyze refine problem s = (Krang.Thrown e, s') ->
  Krang.performanceMetrics (Krang.this s') = Krang.performanceMetrics (Krang.this s)
  /\ Krang.activePerspectives (Krang.this s') = ∅
  /\ EngineSpec.labels (Krang.mentalContextStack (Krang.this s')) = [("meta"%string, 0%Z)].
Proof.
  intros Ha Hr Hma Hmr E.
  destruct (failed_call analyze refine problem s e s' E) as (s2 & E2 & ->).
  destruct (Krang.processProblemEntry s) as [r1 s1] eqn:E1.
  assert (r1 = Krang.Returned tt) as -> by (cbv in E1; congruence).
  destruct (entry_state s s1 E1) as (A1 & M1 & _).
  cbn [snd] in E2.
  pose proof (primaryLoop_inactive analyze refine Ha Hr problem
                (Krang.primaryPerspectives (Krang.this s1)) [] s1) as A2.
  pose proof (primaryLoop_metrics analyze refine Hma Hmr problem
                (Krang.primaryPerspectives (Krang.this s1)) [] s1) as M2.
  unfold MoreSpec.onField in A2, M2. rewrite E2 in A2, M2. cbn [snd] in A2, M2.
  cbn. split; [congruence|]. split; [exact (A2 A1) | reflexivity].
Qed.

Lemma failed_call_effects_witness :
  Krang.processProblemWith MoreSpec.failingAnalyze MoreSpec.failingRefine
    (Krang.problemOf "Why does fusion occur?")
    (EngineSpec.fresh Krang.Config.empty (EngineSpec.constantWorld 0 "t"))
  = (Krang.Thrown "analysis failed",
     snd (Krang.processProblemWith MoreSpec.failingAnalyze MoreSpec.failingRefine
            (Krang.problemOf "Why does fusion occur?")
            (EngineSpec.fresh Krang.Config.empty (EngineSpec.constantWorld 0 "t"))))
  /\ Krang.performanceMetrics
       (Krang.this
          (snd (Krang.processProblemWith MoreSpec.failingAnalyze MoreSpec.failingRefine
                  (Krang.problemOf "Why does fusion occur?")
                  (EngineSpec.fresh Krang.Config.empty (EngineSpec.constantWorld 0 "t")))))
     = Krang.performanceMetrics
         (Krang.this (EngineSpec.fresh Krang.Config.empty (EngineSpec.constantWorld 0 "t")))
  /\ Krang.activePerspectives
       (Krang.this
          (snd (Krang.processProblemWith MoreSpec.failingAnalyze MoreSpec.failingRefine
                  (Krang.problemOf "Why does fusion occur?")
                  (EngineSpec.fresh Krang.Config.empty (EngineSpec.constantWorld 0 "t")))))
     = ∅
  /\ EngineSpec.labels
       (Krang.mentalContextStack
          (Krang.this
             (snd (Krang.processProblemWith MoreSpec.failingAnalyze MoreSpec.failingRefine
                     (Krang.problemOf "Why does fusion occur?")
                     (EngineSpec.fresh Krang.Config.empty (EngineSpec.constantWorld 0 "t"))))))
     = [("meta"%string, 0%Z)].
Proof.
  split; [vm_compute; reflexivity|].
  apply (failed_call_effects MoreSpec.failingAnalyze MoreSpec.failingRefine
           (Krang.problemOf "Why does fusion occur?")
           (EngineSpec.fresh Krang.Config.empty (EngineSpec.constantWorld 0 "t"))
           "analysis failed").
  - intros problem x s. reflexivity.
  - intros problem base x s. reflexivity.
  - intros problem x s. reflexivity.
  - intros problem base x s. reflexivity.
  - vm_compute. reflexivity.
Defined.

(** * The key insights of the response *)

Section KeyInsights.

Import Krang KrangApi EngineSpec MoreSpec.
Local Open Scope string_scope.

Variable numberToString : Q -> string.

Lemma uniq_prefix (prefix rest : list string) :
  forall seen,
    List.NoDup prefix ->
    (forall x, In x prefix -> ~ In x seen) ->
    JS.uniq seen (app prefix rest) = app prefix (JS.uniq (app (rev prefix) seen) rest).
Proof.
  induction prefix as [|x prefix IH]; intros seen Hnodup Hseen; [reflexivity|].
  cbn [app JS.uniq rev].
  destruct (existsb (String.eqb x) seen) eqn:E.
  - apply existsb_eqb_In in E. destruct (Hseen x (or_introl eq_refl) E).
  - rewrite <- app_assoc. cbn [app]. f_equal. apply IH.
    + inversion Hnodup. assumption.
    + intros y Hy [<-|Hin].
      * inversion Hnodup. contradiction.
      * apply (Hseen y); [right; exact Hy | exact Hin].
Qed.

(** No insight of an analysis is a marked one, and the first two marked
    insights of a refinement differ. *)
Lemma perspectiveInsights_unmarked (problem : Problem.t) (x : string) (text : string) :
  ~ In (refinedMarker text) (perspectiveInsights problem x).
Proof.
  unfold perspectiveInsights, refinedMarker. cbv zeta.
  repeat match goal with |- context [nth ?i (keyTermsOf problem) ?f] =>
    generalize (nth i (keyTermsOf problem) f); intros ? end.
  generalize (Problem.title problem). intros title.
  repeat match goal with |- context [if ?c then _ else _] => destruct c end;
    (intros [H|[H|[H|[]]]]; vm_compute in H; discriminate H).
Qed.

Lemma five_key_insights (problem : Problem.t) (x y : string) (rest : list string) :
  exists tail,
    JS.fromSet (app (perspectiveInsights problem x)
                    (app (map refinedMarker (refinedInsightsOf x y)) rest))
    = app (app (perspectiveInsights problem x)
               (firstn 2 (map refinedMarker (refinedInsightsOf x y))))
          tail.
Proof.
  destruct (perspectiveInsights_form problem x)
    as (first & second & third & stem & Hins & _ & H12 & H13 & H23 & _).
  pose proof (perspectiveInsights_unmarked problem x) as Hun. rewrite Hins in *.
  cbn [refinedInsightsOf map firstn app].
  set (r1 := refinedMarker _). set (r2 := refinedMarker _). set (r3 := refinedMarker _).
  eexists. unfold JS.fromSet.
  apply (uniq_prefix [first; second; third; r1; r2] (r3 :: rest) []).
  - assert (H : r1 <> r2) by (subst r1 r2; intros H; vm_compute in H; discriminate H).
    assert (U1 : forall text, refinedMarker text <> first)
      by (intros text E; apply (Hun text); left; symmetry; exact E).
    assert (U2 : forall text, refinedMarker text <> second)
      by (intros text E; apply (Hun text); right; left; symmetry; exact E).
    assert (U3 : forall text, refinedMarker text <> third)
      by (intros text E; apply (Hun text); right; right; left; symmetry; exact E).
    repeat (apply List.NoDup_cons; [cbn [In]|]); [| | | | |apply List.NoDup_nil].
    + intros [E|[E|[E|[E|[]]]]]; try congruence; exact (U1 _ E).
    + intros [E|[E|[E|[]]]]; try congruence; exact (U2 _ E).
    + intros [E|[E|[]]]; exact (U3 _ E).
    + intros [E|[]]. apply H. symmetry. exact E.
    + intros [].
  - intros z _ [].
Qed.

End KeyInsights.

(** X24. On an instance whose first primary perspective has a
    refinement, the key insights of the response of [processWithKrang]
    are the three insights of the analysis of the first perspective
    followed by the first two marked insights of its first refinement:
    no insight of any other analysis is ever a key insight of the
    response. *)
Theorem response_key_insights (numberToString : Q -> string) (question : string)
        (x y : string) (rest more : list string) (s : Krang.State) :
  Krang.primaryPerspectives (Krang.this s) = x :: rest ->
  MoreSpec.refinementsOf (Krang.this s) x = y :: more ->
  exists response s',
    KrangApi.processWithKrang numberToString question s = (Krang.Returned response, s')
    /\ KrangApi.Response.keyInsights response
       = app (Krang.perspectiveInsights (Krang.problemOf question) x)
             (firstn 2 (map MoreSpec.refinedMarker (MoreSpec.refinedInsightsOf x y))).
Proof.
  intros Hperspectives Hrefinements.
  destruct (processWithKrang_run numberToString question s)
    as (result & s' & _ & _ & Hshape & Hkeys & _ & E).
  rewrite Hperspectives in Hshape.
  destruct (Krang.Result.perspectives result) as [|p ps] eqn:Eps; [inversion Hshape|].
  assert (Hi : Krang.Perspective.insights p
               = MoreSpec.mergedInsights (Krang.problemOf question) (Krang.this s) x)
    by (inversion Hshape as [|? ? ? ? (_ & _ & H & _) _]; exact H).
  cbn [flat_map] in Hkeys. rewrite Hi in Hkeys. unfold MoreSpec.mergedInsights in Hkeys.
  rewrite Hrefinements in Hkeys. cbn [flat_map] in Hkeys. rewrite <- !app_assoc in Hkeys.
  destruct (five_key_insights (Krang.problemOf question) x y
              (app (flat_map (fun refinement =>
                                map MoreSpec.refinedMarker
                                    (MoreSpec.refinedInsightsOf x refinement)) more)
                   (flat_map Krang.Perspective.insights ps)))
    as (tail & Hfive).
  rewrite Hfive in Hkeys.
  eexists. exists s'. split; [exact E|]. cbn [KrangApi.Response.keyInsights].
  rewrite Hkeys.
  set (five := app (Krang.perspectiveInsights (Krang.problemOf question) x) _).
  assert (Hlen : List.length five = 5%nat).
  { subst five. rewrite length_app, perspectiveInsights_length. reflexivity. }
  rewrite (firstn_app 7), Hlen, (firstn_all2 (n := 7)) by lia.
  rewrite (firstn_app 5), Hlen. cbn [Nat.sub firstn]. rewrite app_nil_r.
  rewrite <- Hlen. apply firstn_all.
Qed.

Lemma response_key_insights_witness :
  Krang.primaryPerspectives
    (Krang.this (EngineSpec.fresh Krang.Config.empty (EngineSpec.constantWorld 0 "t")))
  = "empirical"%string :: List.tl Krang.defaultPerspectives
  /\ MoreSpec.refinementsOf
       (Krang.this (EngineSpec.fresh Krang.Config.empty (EngineSpec.constantWorld 0 "t")))
       "empirical"
     = "theoretical"%string :: List.tl (List.tl Krang.defaultPerspectives)
  /\ exists response s',
       KrangApi.processWithKrang (fun q => JS.toFixed 0 q) "Why does fusion occur?"
         (EngineSpec.fresh Krang.Config.empty (EngineSpec.constantWorld 0 "t"))
       = (Krang.Returned response, s')
       /\ KrangApi.Response.keyInsights response
          = app (Krang.perspectiveInsights (Krang.problemOf "Why does fusion occur?")
                                           "empirical")
                (firstn 2 (map MoreSpec.refinedMarker
                               (MoreSpec.refinedInsightsOf "empirical" "theoretical"))).
Proof.
  split; [reflexivity|]. split; [vm_compute; reflexivity|].
  apply (response_key_insights
           (fun q => JS.toFixed 0 q) "Why does fusion occur?" "empirical" "theoretical"
           (List.tl Krang.defaultPerspectives) (List.tl (List.tl Krang.defaultPerspectives))
           (EngineSpec.fresh Krang.Config.empty (EngineSpec.constantWorld 0 "t"))).
  - reflexivity.
  - vm_compute. reflexivity.
Defined.

(** * The insight confidence in binary64 arithmetic *)

Section Rounding.

Import Binary64.
Local Open Scope Q_scope.

Lemma pow2_positive (e : Z) : 0 < 2 ^ e.
Proof. apply Qpower_0_lt. reflexivity. Qed.

Lemma pow2_add (a b : Z) : 2 ^ (a + b) == 2 ^ a * 2 ^ b.
Proof. apply Qpower_plus. discriminate. Qed.

Lemma pow2_le (a b : Z) : (a <= b)%Z -> 2 ^ a <= 2 ^ b.
Proof. intros H. apply Qpower_le_compat_l; [exact H|discriminate]. Qed.

Lemma pow2_inject (a : Z) : (0 <= a)%Z -> inject_Z (2 ^ a) == 2 ^ a.
Proof. intros H. apply (Zpower_Qpower 2 a H). Qed.

Lemma binade_spec (x : Q) : 0 < x -> 2 ^ binade x <= x /\ x < 2 ^ (binade x + 1).
Proof.
  intros Hx. destruct x as [n d]. unfold binade. cbn [Qnum Qden].
  assert (Hn : (0 < n)%Z) by (unfold Qlt in Hx; cbn in Hx; lia).
  set (a := Z.log2 n). set (b := Z.log2 (Z.pos d)).
  assert (Ha : (0 <= a)%Z) by apply Z.log2_nonneg.
  assert (Hb : (0 <= b)%Z) by apply Z.log2_nonneg.
  destruct (Z.log2_spec n Hn) as [Hn1 Hn2]. fold a in Hn1, Hn2.
  destruct (Z.log2_spec (Z.pos d) ltac:(lia)) as [Hd1 Hd2]. fold b in Hd1, Hd2.
  assert (Hxd : (n # d) * inject_Z (Z.pos d) == inject_Z n).
  { rewrite (Qmake_Qdiv n d). field. discriminate. }
  assert (HD : 0 < inject_Z (Z.pos d)) by reflexivity.
  rewrite Zle_Qle in Hn1, Hd1. rewrite Zlt_Qlt in Hn2, Hd2.
  rewrite pow2_inject in Hn1, Hn2, Hd1, Hd2 by lia.
  set (N := inject_Z n) in *. set (D := inject_Z (Z.pos d)) in *. set (x := n # d) in *.
  assert (Hlow : 2 ^ (a - b - 1) < x).
  { apply (Qmult_lt_r _ _ D HD). rewrite Hxd.
    apply Qlt_le_trans with (2 ^ (a - b - 1) * 2 ^ Z.succ b).
    - apply Qmult_lt_l; [apply pow2_positive|exact Hd2].
    - rewrite <- pow2_add. replace (a - b - 1 + Z.succ b)%Z with a by lia. exact Hn1. }
  assert (Hhigh : x < 2 ^ (a - b + 1)).
  { apply (Qmult_lt_r _ _ D HD). rewrite Hxd.
    apply Qlt_le_trans with (2 ^ (a - b + 1) * 2 ^ b).
    - rewrite <- pow2_add. replace (a - b + 1 + b)%Z with (Z.succ a) by lia. exact Hn2.
    - apply Qmult_le_l; [apply pow2_positive|exact Hd1]. }
  destruct (Qle_bool (2 ^ (a - b)) x) eqn:E.
  - apply Qle_bool_iff in E. split; [exact E|exact Hhigh].
  - split; [apply Qlt_le_weak, Hlow|].
    replace (a - b - 1 + 1)%Z with (a - b)%Z by lia.
    apply Qnot_le_lt. intros H. apply Qle_bool_iff in H. congruence.
Qed.

(** The binade grows with the number. *)
Lemma binade_unique (e e' : Z) (x x' : Q) :
  2 ^ e <= x -> x' < 2 ^ (e' + 1) -> x <= x' -> (e <= e')%Z.
Proof.
  intros H1 H2 Hxx. destruct (Z_le_gt_dec e e') as [H|H]; [exact H|].
  exfalso. assert (Hp : 2 ^ (e' + 1) <= 2 ^ e) by (apply pow2_le; lia). lra.
Qed.

Lemma nearestEven_cases (x : Q) :
  nearestEven x = Qfloor x \/ nearestEven x = (Qfloor x + 1)%Z.
Proof.
  unfold nearestEven. cbv zeta.
  destruct (Qcompare (x - inject_Z (Qfloor x)) (1 # 2)); [destruct (Z.even _)| |]; auto.
Qed.

Lemma nearestEven_le (x y : Q) : x <= y -> (nearestEven x <= nearestEven y)%Z.
Proof.
  intros Hxy. pose proof (Qfloor_resp_le x y Hxy) as Hf.
  destruct (Z.eq_dec (Qfloor x) (Qfloor y)) as [E|E].
  - unfold nearestEven. cbv zeta. rewrite <- E.
    set (f := Qfloor x).
    destruct (Qcompare_spec (x - inject_Z f) (1 # 2)) as [Cx|Cx|Cx];
      destruct (Qcompare_spec (y - inject_Z f) (1 # 2)) as [Cy|Cy|Cy];
      try (destruct (Z.even f)); try lia; exfalso; lra.
  - destruct (nearestEven_cases x) as [Ex|Ex], (nearestEven_cases y) as [Ey|Ey]; lia.
Qed.

Lemma nearestEven_integer (k : Z) : nearestEven (inject_Z k) = k.
Proof.
  unfold nearestEven. cbv zeta. rewrite Qfloor_Z.
  destruct (Qcompare_spec (inject_Z k - inject_Z k) (1 # 2)) as [C|C|C];
    [exfalso; lra | reflexivity | exfalso; lra].
Qed.

#[local] Instance nearestEven_compat : Proper (Qeq ==> eq) nearestEven.
Proof.
  intros x y E. apply Z.le_antisymm; apply nearestEven_le; rewrite E; apply Qle_refl.
Qed.

Lemma binade_compat (x y : Q) : 0 < x -> x == y -> binade x = binade y.
Proof.
  assert (H : forall x y, x == y -> 0 < x -> (binade x <= binade y)%Z).
  { intros a b E Ha. assert (Hb : 0 < b) by (rewrite <- E; exact Ha).
    destruct (binade_spec a Ha) as [H1 _]. destruct (binade_spec b Hb) as [_ H2].
    apply (binade_unique _ _ a b H1 H2). rewrite E. apply Qle_refl. }
  intros Hx E. apply Z.le_antisymm; [apply H; assumption|].
  apply H; [symmetry; exact E | rewrite <- E; exact Hx].
Qed.

(** The significand of a positive number has 53 bits. *)
Lemma significand_range (x : Q) :
  0 < x -> 2 ^ 52 <= x / 2 ^ (binade x - 52) /\ x / 2 ^ (binade x - 52) < 2 ^ 53.
Proof.
  intros Hx. destruct (binade_spec x Hx) as [H1 H2].
  pose proof (pow2_positive (binade x - 52)) as Hu.
  split.
  - apply Qle_shift_div_l; [exact Hu|]. rewrite <- pow2_add.
    replace (52 + (binade x - 52))%Z with (binade x) by lia. exact H1.
  - apply Qlt_shift_div_r; [exact Hu|]. rewrite <- pow2_add.
    replace (53 + (binade x - 52))%Z with (binade x + 1)%Z by lia. exact H2.
Qed.

Lemma roundPositive_range (x : Q) :
  0 < x -> 2 ^ binade x <= roundPositive x /\ roundPositive x <= 2 ^ (binade x + 1).
Proof.
  intros Hx. destruct (significand_range x Hx) as [H1 H2].
  pose proof (pow2_positive (binade x - 52)) as Hu.
  unfold roundPositive. cbv zeta.
  set (u := 2 ^ (binade x - 52)) in *. set (m := x / u) in *.
  assert (Hlo : (2 ^ 52 <= nearestEven m)%Z).
  { rewrite <- (nearestEven_integer (2 ^ 52)). apply nearestEven_le.
    rewrite pow2_inject by lia. exact H1. }
  assert (Hhi : (nearestEven m <= 2 ^ 53)%Z).
  { rewrite <- (nearestEven_integer (2 ^ 53)). apply nearestEven_le.
    rewrite pow2_inject by lia. apply Qlt_le_weak, H2. }
  rewrite Zle_Qle in Hlo, Hhi. rewrite pow2_inject in Hlo, Hhi by lia.
  split.
  - replace (binade x) with (52 + (binade x - 52))%Z at 1 by lia. rewrite pow2_add. fold u.
    apply Qmult_le_compat_r; [exact Hlo|apply Qlt_le_weak, Hu].
  - replace (binade x + 1)%Z with (53 + (binade x - 52))%Z by lia. rewrite pow2_add. fold u.
    apply Qmult_le_compat_r; [exact Hhi|apply Qlt_le_weak, Hu].
Qed.

Lemma roundPositive_le (x y : Q) : 0 < x -> x <= y -> roundPositive x <= roundPositive y.
Proof.
  intros Hx Hxy. assert (Hy : 0 < y) by lra.
  destruct (binade_spec x Hx) as [Hx1 _]. destruct (binade_spec y Hy) as [_ Hy2].
  pose proof (binade_unique _ _ x y Hx1 Hy2 Hxy) as He.
  destruct (Z.eq_dec (binade x) (binade y)) as [E|E].
  - unfold roundPositive. cbv zeta. rewrite E.
    pose proof (pow2_positive (binade y - 52)) as Hu.
    apply Qmult_le_compat_r; [|apply Qlt_le_weak, Hu].
    rewrite <- Zle_Qle. apply nearestEven_le.
    apply Qmult_le_compat_r; [exact Hxy|]. apply Qlt_le_weak, Qinv_lt_0_compat, Hu.
  - destruct (roundPositive_range x Hx) as [_ H1]. destruct (roundPositive_range y Hy) as [H2 _].
    assert (Hp : 2 ^ (binade x + 1) <= 2 ^ binade y) by (apply pow2_le; lia). lra.
Qed.

Lemma roundPositive_positive (x : Q) : 0 < x -> 0 < roundPositive x.
Proof.
  intros Hx. destruct (roundPositive_range x Hx) as [H _].
  pose proof (pow2_positive (binade x)). lra.
Qed.

Lemma roundPositive_compat (x y : Q) : 0 < x -> x == y -> roundPositive x == roundPositive y.
Proof.
  intros Hx E. assert (Hy : 0 < y) by (rewrite <- E; exact Hx).
  apply Qle_antisym; apply roundPositive_le; try assumption; rewrite E; apply Qle_refl.
Qed.

Lemma round_positive (x : Q) : 0 < x -> round x = roundPositive x.
Proof.
  intros Hx. unfold round. destruct (Qcompare_spec x 0) as [C|C|C]; [lra|lra|reflexivity].
Qed.

Lemma round_negative (x : Q) : x < 0 -> round x = - roundPositive (- x).
Proof.
  intros Hx. unfold round. destruct (Qcompare_spec x 0) as [C|C|C]; [lra|reflexivity|lra].
Qed.

Lemma round_zero (x : Q) : x == 0 -> round x = 0.
Proof.
  intros Hx. unfold round. destruct (Qcompare_spec x 0) as [C|C|C]; [reflexivity|lra|lra].
Qed.

(** Rounding keeps the order. *)
Lemma round_le (x y : Q) : x <= y -> round x <= round y.
Proof.
  intros Hxy.
  destruct (Qcompare_spec x 0) as [Cx|Cx|Cx]; destruct (Qcompare_spec y 0) as [Cy|Cy|Cy];
    try (exfalso; lra);
    repeat match goal with
           | H : ?a == 0 |- _ => rewrite (round_zero a H); clear H
           | H : ?a < 0 |- _ => rewrite (round_negative a H)
           | H : 0 < ?a |- _ => rewrite (round_positive a H)
           end.
  - apply Qle_refl.
  - apply Qlt_le_weak, roundPositive_positive, Cy.
  - assert (H : 0 < roundPositive (- x)) by (apply roundPositive_positive; lra). lra.
  - assert (H : roundPositive (- y) <= roundPositive (- x)) by (apply roundPositive_le; lra). lra.
  - assert (H : 0 < roundPositive (- x)) by (apply roundPositive_positive; lra).
    pose proof (roundPositive_positive y Cy). lra.
  - apply roundPositive_le; assumption.
Qed.

#[local] Instance round_compat : Proper (Qeq ==> Qeq) round.
Proof.
  intros x y E. apply Qle_antisym; apply round_le; rewrite E; apply Qle_refl.
Qed.

Lemma round_nonneg (x : Q) : 0 <= x -> 0 <= round x.
Proof. intros Hx. change 0 with (round 0) at 1. apply round_le, Hx. Qed.

(** *** The arithmetic keeps the order *)

Lemma add_le (x x' y y' : Q) : x <= x' -> y <= y' -> add x y <= add x' y'.
Proof. intros Hx Hy. apply round_le. lra. Qed.

Lemma mul_le (x x' y : Q) : 0 <= y -> x <= x' -> mul x y <= mul x' y.
Proof. intros Hy Hx. apply round_le. apply Qmult_le_compat_r; assumption. Qed.

Lemma add_nonneg (x y : Q) : 0 <= x -> 0 <= y -> 0 <= add x y.
Proof. intros Hx Hy. apply round_nonneg. lra. Qed.

Lemma mul_nonneg (x y : Q) : 0 <= x -> 0 <= y -> 0 <= mul x y.
Proof. intros Hx Hy. apply round_nonneg, Qmult_le_0_compat; assumption. Qed.

Lemma div_count_nonneg (n : nat) (d : Q) : 0 < d -> 0 <= div (inject_Z (Z.of_nat n)) d.
Proof.
  intros Hd. apply round_nonneg, Qle_shift_div_l; [exact Hd|].
  rewrite Qmult_0_l. change 0 with (inject_Z 0). rewrite <- Zle_Qle. lia.
Qed.

Lemma capped_part (cap x : Q) :
  0 <= cap -> 0 <= x ->
  0 <= mul (Qmin cap x) (literal 0.4) /\ mul (Qmin cap x) (literal 0.4) <= mul cap (literal 0.4).
Proof.
  intros Hcap Hx.
  assert (H04 : 0 <= literal 0.4) by (vm_compute; discriminate).
  split.
  - apply mul_nonneg; [apply Q.min_glb; assumption | exact H04].
  - apply mul_le; [exact H04 | apply Q.le_min_l].
Qed.

(** C10 on the capped insight: binary64 arithmetic returns
    0.75 + 2 ^ -53, which prints as 0.7500000000000001 and is above
    0.75; the floats of the hardware give the same number. *)
Lemma calculateInsightConfidence_above_075 :
  ~ (0 <= Binary64.calculateInsightConfidence Binary64.cappedInsight Binary64.cappedQuestion
     <= 0.75)%Q
  /\ (Binary64.calculateInsightConfidence Binary64.cappedInsight Binary64.cappedQuestion
      == 0.75 + (1 # 2 ^ 53))%Q
  /\ Binary64.isFloat
       (Binary64.calculateInsightConfidenceFloat Binary64.cappedInsight Binary64.cappedQuestion)
       (Binary64.calculateInsightConfidence Binary64.cappedInsight Binary64.cappedQuestion)
     = true.
Proof.
  split; [|split].
  - intros [_ H]. vm_compute in H. apply H. reflexivity.
  - vm_compute. reflexivity.
  - vm_compute. reflexivity.
Qed.

(** C10. In binary64 arithmetic, for every insight and every question,
    the value [calculateInsightConfidence] returns lies between 0 and
    0.75 + 2 ^ -53: it is the rounded sum of a length part of at most
    0.28, a relevance part of at most 0.32 + 2 ^ -53 and a precision
    bonus of at most 0.15, and the outer cap at 0.99 never changes that
    sum. *)
Theorem calculateInsightConfidence_range (insight question : string) :
  let lengthPart :=
    Binary64.mul (Qmin (Binary64.literal 0.7) (Binary64.div (JS.lengthQ insight) 500))
                 (Binary64.literal 0.4) in
  let relevancePart :=
    Binary64.mul
      (Qmin (Binary64.literal 0.8)
            (Binary64.div
               (inject_Z (Z.of_nat (RealtimeProcessor.relevantTermCount insight question))) 5))
      (Binary64.literal 0.4) in
  let precisionBonus :=
    if RealtimeProcessor.hasPreciseTerms insight then Binary64.literal 0.15 else 0 in
  (0 <= Binary64.calculateInsightConfidence insight question <= 0.75 + (1 # 2 ^ 53)
   /\ Binary64.calculateInsightConfidence insight question
      == Binary64.add (Binary64.add lengthPart relevancePart) precisionBonus
   /\ lengthPart <= 0.28
   /\ relevancePart <= 0.32 + (1 # 2 ^ 53)
   /\ precisionBonus <= 0.15)%Q.
Proof.
  intros lengthPart relevancePart precisionBonus.
  assert (Hl : (0 <= lengthPart
                /\ lengthPart <= Binary64.mul (Binary64.literal 0.7) (Binary64.literal 0.4))%Q).
  { apply capped_part; [vm_compute; discriminate|].
    apply div_count_nonneg. reflexivity. }
  assert (Hr : (0 <= relevancePart
                /\ relevancePart <= Binary64.mul (Binary64.literal 0.8) (Binary64.literal 0.4))%Q).
  { apply capped_part; [vm_compute; discriminate|].
    apply div_count_nonneg. reflexivity. }
  assert (Hb : (0 <= precisionBonus /\ precisionBonus <= Binary64.literal 0.15)%Q).
  { unfold precisionBonus. destruct (RealtimeProcessor.hasPreciseTerms insight).
    - split; [vm_compute; discriminate | apply Qle_refl].
    - split; [apply Qle_refl | vm_compute; discriminate]. }
  destruct Hl as [Hl0 Hl1], Hr as [Hr0 Hr1], Hb as [Hb0 Hb1].
  set (total := Binary64.add (Binary64.add lengthPart relevancePart) precisionBonus).
  assert (Htop : (total <= 0.75 + (1 # 2 ^ 53))%Q).
  { apply Qle_trans with
      (Binary64.add (Binary64.add (Binary64.mul (Binary64.literal 0.7) (Binary64.literal 0.4))
                                  (Binary64.mul (Binary64.literal 0.8) (Binary64.literal 0.4)))
                    (Binary64.literal 0.15)).
    - apply add_le; [apply add_le|]; assumption.
    - vm_compute. discriminate. }
  assert (Hzero : (0 <= total)%Q).
  { apply add_nonneg; [apply add_nonneg|]; assumption. }
  assert (Hcap : (Binary64.calculateInsightConfidence insight question == total)%Q).
  { unfold Binary64.calculateInsightConfidence. cbv zeta. fold lengthPart relevancePart.
    fold precisionBonus. fold total. apply Q.min_r.
    apply Qle_trans with (0.75 + (1 # 2 ^ 53))%Q; [exact Htop | vm_compute; discriminate]. }
  split; [rewrite Hcap; split; assumption|].
  split; [exact Hcap|].
  split; [apply Qle_trans with (1 := Hl1); vm_compute; discriminate|].
  split; [apply Qle_trans with (1 := Hr1); vm_compute; discriminate|].
  apply Qle_trans with (1 := Hb1). vm_compute. discriminate.
Qed.

End Rounding.
